(** * pdf-ai-tool: selection extraction, chunking, hybrid ranking and the
    question-answering server, embedded in Rocq.

  The development follows the repository's files:
  - the standalone viewer (chunkText, onMouseMove, extractFromSelection,
    getOverlap, cosineSimilarity, handleAsk);
  - [src/components/PDFViewer.tsx] (handleMouseDown / handleMouseMove /
    handleMouseUp);
  - the Express server (getModelAdapter and the /api/ask route).

  JavaScript numbers are IEEE 754 binary64 values and are modelled by Rocq's
  primitive floats, so that NaN, signed zeros and infinities behave as they
  do in the program.  JavaScript strings are modelled by [string]; one
  [ascii] stands for one code unit. *)

From Stdlib Require Import ZArith List String Ascii Floats Lia Bool.
From Stdlib Require Import Permutation Sorted DecimalString.
From stdpp Require Import base strings gmap.
Import ListNotations.
Open Scope string_scope.
Open Scope list_scope.
Open Scope nat_scope.

Set Warnings "-inexact-float".

(** ** JavaScript numbers *)

Module JS.

Definition number : Type := float.

(** ToBoolean on a number: [0], [-0] and [NaN] are falsy. *)
Definition truthy (x : float) : bool := negb (is_zero x || is_nan x).

(** [x || d] on numbers. *)
Definition or_else (x d : float) : float := if truthy x then x else d.

(** [v || d] where [v] is the result of a property read that may be
    [undefined]. *)
Definition or_else_undef (v : option float) (d : float) : float :=
  match v with
  | Some x => or_else x d
  | None => d
  end.

Definition is_neg_zero (x : float) : bool := is_zero x && get_sign x.

(** [Math.max(a, b)]: NaN if either argument is NaN; [+0] is larger than
    [-0]. *)
Definition Math_max (a b : float) : float :=
  if is_nan a || is_nan b then nan
  else if (a <? b)%float then b
  else if (b <? a)%float then a
  else if is_neg_zero a then b else a.

(** [Math.min(a, b)]: NaN if either argument is NaN; [-0] is smaller than
    [+0]. *)
Definition Math_min (a b : float) : float :=
  if is_nan a || is_nan b then nan
  else if (a <? b)%float then a
  else if (b <? a)%float then b
  else if is_neg_zero a then a else b.

Definition Math_abs (x : float) : float := abs x.


Definition Math_sqrt (x : float) : float := sqrt x.

(** An array length or a count, as a number. *)
Definition of_nat (n : nat) : float := of_uint63 (Uint63.of_Z (Z.of_nat n)).

(** [arr[i]] used as an operand of arithmetic: an index past the end reads
    [undefined], which arithmetic converts to NaN. *)
Definition nth_num (i : nat) (arr : list float) : float := nth i arr nan.

(** [arr.reduce((acc, a, i) => f(acc, a, i), init)]. *)
Fixpoint reduce_from {A B : Type} (f : B -> A -> nat -> B) (i : nat)
    (arr : list A) (acc : B) : B :=
  match arr with
  | [] => acc
  | a :: rest => reduce_from f (S i) rest (f acc a i)
  end.

Definition reduce {A B : Type} (f : B -> A -> nat -> B) (arr : list A)
    (init : B) : B :=
  reduce_from f 0 arr init.

(** [arr.sort(comparefn)]: the sort is stable, and a comparator result that
    is not greater than zero (NaN included) leaves the two elements in their
    order.  The elements are taken from left to right, and each is inserted
    in front of the first element already placed that compares greater than
    it; for a consistent comparator every stable sort gives this result. *)
Fixpoint sort_insert {A : Type} (comparefn : A -> A -> float) (x : A)
    (sorted : list A) : list A :=
  match sorted with
  | [] => [x]
  | h :: t =>
      if (0 <? comparefn h x)%float then x :: h :: t
      else h :: sort_insert comparefn x t
  end.

Definition sort {A : Type} (comparefn : A -> A -> float) (arr : list A)
    : list A :=
  fold_left (fun sorted x => sort_insert comparefn x sorted) arr [].

End JS.

(** ** JavaScript strings *)

Module JSString.

Definition truthy (s : string) : bool := negb (String.eqb s "").

(** [parts.join(sep)]. *)
Fixpoint join (sep : string) (parts : list string) : string :=
  match parts with
  | [] => ""
  | [p] => p
  | p :: rest => p +:+ sep +:+ join sep rest
  end.

(** [s.split(sep)] for a one-character separator; the result is never
    empty: [split sep ""] is the one-element array holding the empty string. *)
Fixpoint split (sep : ascii) (s : string) : list string :=
  match s with
  | EmptyString => [EmptyString]
  | String c s' =>
      if Ascii.eqb c sep then EmptyString :: split sep s'
      else match split sep s' with
           | [] => [String c EmptyString]
           | w :: ws => String c w :: ws
           end
  end.

(** White space as [trim] sees it, within the code units modelled here:
    TAB, LF, VT, FF, CR, space and the no-break space. *)
Definition is_white_space (c : ascii) : bool :=
  let n := nat_of_ascii c in
  ((9 <=? n) && (n <=? 13)) || (n =? 32) || (n =? 160).

Fixpoint trim_start (s : string) : string :=
  match s with
  | EmptyString => EmptyString
  | String c s' => if is_white_space c then trim_start s' else s
  end.

Fixpoint trim_end (s : string) : string :=
  match s with
  | EmptyString => EmptyString
  | String c s' =>
      match trim_end s' with
      | EmptyString => if is_white_space c then EmptyString else String c EmptyString
      | t => String c t
      end
  end.

Definition trim (s : string) : string := trim_end (trim_start s).

(** [s.includes(needle)]. *)
Fixpoint includes (needle s : string) : bool :=
  String.prefix needle s ||
  match s with
  | EmptyString => false
  | String _ s' => includes needle s'
  end.

(** [s.toLowerCase()] on the code units modelled here: the letters A to Z
    and the capital letters from U+00C0 to U+00DE (U+00D7 is not a letter). *)
Definition to_lower (c : ascii) : ascii :=
  let n := nat_of_ascii c in
  if ((65 <=? n) && (n <=? 90))
     || ((192 <=? n) && (n <=? 222) && negb (n =? 215))
  then ascii_of_nat (n + 32) else c.

Fixpoint toLowerCase (s : string) : string :=
  match s with
  | EmptyString => EmptyString
  | String c s' => String (to_lower c) (toLowerCase s')
  end.

Fixpoint take (n : nat) (s : string) : string :=
  match n, s with
  | S n', String c s' => String c (take n' s')
  | _, _ => EmptyString
  end.

Fixpoint drop (n : nat) (s : string) : string :=
  match n, s with
  | S n', String _ s' => drop n' s'
  | _, _ => s
  end.

(** [s.substring(start, end)]: both indices are clamped to the string, and
    swapped when they come in the wrong order. *)
Definition substring (start end_ : Z) (s : string) : string :=
  let len := Z.of_nat (String.length s) in
  let a := Z.min (Z.max start 0) len in
  let b := Z.min (Z.max end_ 0) len in
  take (Z.to_nat (Z.max a b - Z.min a b)) (drop (Z.to_nat (Z.min a b)) s).

(** [s.slice(0, n)] for [n >= 0]. *)
Definition slice_to (n : nat) (s : string) : string := take n s.

(** [s.indexOf(needle)]: the first position at which [needle] occurs, or
    -1. *)
Fixpoint indexOf_from (needle s : string) (i : Z) : Z :=
  if String.prefix needle s then i
  else match s with
       | EmptyString => (-1)%Z
       | String _ s' => indexOf_from needle s' (i + 1)%Z
       end.

Definition indexOf (needle s : string) : Z := indexOf_from needle s 0.

(** The double quote, as a one-character string. *)
Definition dq : string := String (ascii_of_nat 34) EmptyString.

Definition LF : string := String (ascii_of_nat 10) EmptyString.

End JSString.

(** ** The chunker of the standalone viewer *)

Module Chunker.
Import JSString.

(** One turn of the loop [for (let w of words)]: the state is the pair
    [(chunks, chunk)]. *)
Definition chunk_step (size : nat) (st : list string * list string)
    (w : string) : list string * list string :=
  let chunks := fst st in
  let chunk := snd st ++ [w] in
  if size <=? String.length (join " " chunk)
  then (chunks ++ [join " " chunk], [])
  else (chunks, chunk).

Definition chunkText (text : string) (size : nat) : list string :=
  let words := split " " text in
  let st := fold_left (chunk_step size) words ([], []) in
  let chunks := fst st in
  let chunk := snd st in
  if 0 <? length chunk then chunks ++ [join " " chunk] else chunks.

End Chunker.

(** ** Objects used as maps from strings to numbers *)

Module JSObject.

(** The own data properties of an object created by [{}], in creation order.
    Every key that [handleAsk] reads has been assigned before, so no read
    falls through to [Object.prototype], with one exception that is modelled
    in [set]. *)
Definition t : Type := list (string * float).

Fixpoint get (k : string) (o : t) : option float :=
  match o with
  | [] => None
  | (k', v) :: rest => if String.eqb k k' then Some v else get k rest
  end.

(** Assignment to an own property: an existing property keeps its place in
    the creation order, a new one goes to the end. *)
Fixpoint put (k : string) (v : float) (o : t) : t :=
  match o with
  | [] => [(k, v)]
  | (k', v') :: rest =>
      if String.eqb k k' then (k', v) :: rest else (k', v') :: put k v rest
  end.

(** [o[k] = v] for a number [v].  The name [__proto__] is an accessor
    inherited from [Object.prototype]; its setter ignores a value that is
    neither an object nor null, so the assignment creates no property. *)
Definition set (k : string) (v : float) (o : t) : t :=
  if String.eqb k "__proto__" then o else put k v o.

Definition digit_of (c : ascii) : option N :=
  let n := N_of_ascii c in
  if ((48 <=? n) && (n <=? 57))%N then Some (n - 48)%N else None.

Fixpoint parse_digits (s : string) (acc : N) : option N :=
  match s with
  | EmptyString => Some acc
  | String c s' =>
      match digit_of c with
      | Some d => parse_digits s' (10 * acc + d)%N
      | None => None
      end
  end.

(** A key is an array index when it is the canonical decimal form of an
    integer from 0 to 2^32 - 2. *)
Definition array_index (k : string) : option N :=
  match k with
  | EmptyString => None
  | String c rest =>
      if Ascii.eqb c "0" && negb (String.eqb rest "") then None
      else match parse_digits k 0 with
           | Some n => if (n <? 4294967295)%N then Some n else None
           | None => None
           end
  end.

Fixpoint insert_index (e : N * (string * float))
    (l : list (N * (string * float))) : list (N * (string * float)) :=
  match l with
  | [] => [e]
  | h :: rest =>
      if (fst e <? fst h)%N then e :: h :: rest else h :: insert_index e rest
  end.

Definition index_entries (o : t) : list (N * (string * float)) :=
  flat_map (fun kv => match array_index (fst kv) with
                      | Some n => [(n, kv)]
                      | None => []
                      end) o.

Definition is_index_key (kv : string * float) : bool :=
  match array_index (fst kv) with Some _ => true | None => false end.

(** [Object.entries(o)]: the array-index keys in ascending numeric order,
    then the other keys in creation order. *)
Definition entries (o : t) : list (string * float) :=
  map snd (fold_right insert_index [] (index_entries o))
  ++ List.filter (fun kv => negb (is_index_key kv)) o.

End JSObject.

(** ** The hybrid retrieval ranker of the standalone viewer *)

Module Ranker.

Record VectorEntry : Type := { text : string; embedding : list float }.

(** The embedding collaborator: [embedder(s)] awaited, and [.data[0]] taken
    as the vector. *)
Definition Embedder : Type := string -> list float.

Definition cosineSimilarity (vecA vecB : list float) : float :=
  let dot := JS.reduce (fun sum a i => (sum + a * JS.nth_num i vecB)%float) vecA 0%float in
  let magA := JS.Math_sqrt (JS.reduce (fun sum a _ => (sum + a * a)%float) vecA 0%float) in
  let magB := JS.Math_sqrt (JS.reduce (fun sum b _ => (sum + b * b)%float) vecB 0%float) in
  if JS.truthy magA && JS.truthy magB then (dot / (magA * magB))%float else 0%float.

(** The dot product and the magnitude of vectors, as [cosineSimilarity]
    computes them: the terms are added from left to right, starting from 0. *)
Definition dot (u v : list float) : float :=
  JS.reduce (fun sum a i => (sum + a * JS.nth_num i v)%float) u 0%float.

Definition magnitude (v : list float) : float :=
  JS.Math_sqrt (JS.reduce (fun sum a _ => (sum + a * a)%float) v 0%float).

(** [vectorDB.map((e) => ({ text: e.text, score: cosineSimilarity(vec, e.embedding) }))]. *)
Definition scoreBy (vec : list float) (vectorDB : list VectorEntry)
    : list (string * float) :=
  map (fun e => (text e, cosineSimilarity vec (embedding e))) vectorDB.

(** [scoredByQuestion.forEach(({ text, score }) => { combined[text] = score; })]. *)
Definition seedScores (combined : JSObject.t) (scored : list (string * float))
    : JSObject.t :=
  fold_left (fun o ts => JSObject.set (fst ts) (snd ts) o) scored combined.

(** The value assigned by
    [combined[text] = Math.max(combined[text] || 0, score * 1.1)].  For the
    one name that [JSObject.set] cannot create the value is of no
    consequence, since the assignment stores nothing. *)
Definition boosted (current : option float) (score : float) : float :=
  JS.Math_max (JS.or_else_undef current 0%float) (score * 1.1)%float.

Definition mergeScores (combined : JSObject.t) (scored : list (string * float))
    : JSObject.t :=
  fold_left
    (fun o ts => JSObject.set (fst ts) (boosted (JSObject.get (fst ts) o) (snd ts)) o)
    scored combined.

(** The object [combined] when the loop that picks the supplements starts. *)
Definition combinedScores (embedder : Embedder) (vectorDB : list VectorEntry)
    (question primaryExcerpt : string) : JSObject.t :=
  let qVec := embedder question in
  let combined := seedScores [] (scoreBy qVec vectorDB) in
  if JSString.truthy primaryExcerpt
  then mergeScores combined (scoreBy (embedder primaryExcerpt) vectorDB)
  else combined.

(** [combinedArray] after [combinedArray.sort((a, b) => b.score - a.score)]. *)
Definition combinedArray (embedder : Embedder) (vectorDB : list VectorEntry)
    (question primaryExcerpt : string) : list (string * float) :=
  JS.sort (fun a b => (snd b - snd a)%float)
    (JSObject.entries (combinedScores embedder vectorDB question primaryExcerpt)).

(** The loop [for (let entry of combinedArray)], started with the
    supplements collected so far. *)
Fixpoint pickSupplements (primaryExcerpt : string)
    (entries : list (string * float)) (supplements : list string)
    : list string :=
  match entries with
  | [] => supplements
  | entry :: rest =>
      if 3 <=? length supplements then supplements
      else if JSString.truthy primaryExcerpt && String.eqb (fst entry) primaryExcerpt
      then pickSupplements primaryExcerpt rest supplements
      else pickSupplements primaryExcerpt rest (supplements ++ [fst entry])
  end.

(** The array [supplements] of [handleAsk]; it stays empty when the index is
    empty or the embedder is not loaded ([embedder] is [None]). *)
Definition supplements (embedder : option Embedder)
    (vectorDB : list VectorEntry) (question extractedText : string)
    : list string :=
  let primaryExcerpt := JSString.trim extractedText in
  match embedder with
  | Some emb =>
      if 0 <? length vectorDB
      then pickSupplements primaryExcerpt
             (combinedArray emb vectorDB question primaryExcerpt) []
      else []
  | None => []
  end.

Definition blank_line : string :=
  String (ascii_of_nat 10) (String (ascii_of_nat 10) EmptyString).

(** [supplementaryText]: the supplements joined by blank lines, or the empty
    string when there is none. *)
Definition supplementaryText (embedder : option Embedder)
    (vectorDB : list VectorEntry) (question extractedText : string) : string :=
  JSString.join blank_line (supplements embedder vectorDB question extractedText).

(** What [handleAsk] retrieves: nothing at all for an empty question
    ([if (!question) return]). *)
Definition handleAsk (embedder : option Embedder)
    (vectorDB : list VectorEntry) (question extractedText : string)
    : option (list string) :=
  if JSString.truthy question
  then Some (supplements embedder vectorDB question extractedText)
  else None.

End Ranker.

(** ** What pdf.js hands to the viewers *)

Module PDFJS.

(** A text item of [page.getTextContent()]: [transform] is the six-element
    matrix of the run. *)
Record TextItem : Type := {
  str : string;
  transform : list float;
  width : float;
  height : float
}.

(** [Util.transform(m1, m2)] of pdf.js: the product of two six-element
    matrices. *)
Definition Util_transform (m1 m2 : list float) : list float :=
  let a0 := JS.nth_num 0 m1 in let a1 := JS.nth_num 1 m1 in
  let a2 := JS.nth_num 2 m1 in let a3 := JS.nth_num 3 m1 in
  let a4 := JS.nth_num 4 m1 in let a5 := JS.nth_num 5 m1 in
  let b0 := JS.nth_num 0 m2 in let b1 := JS.nth_num 1 m2 in
  let b2 := JS.nth_num 2 m2 in let b3 := JS.nth_num 3 m2 in
  let b4 := JS.nth_num 4 m2 in let b5 := JS.nth_num 5 m2 in
  [ a0 * b0 + a2 * b1;
    a1 * b0 + a3 * b1;
    a0 * b2 + a2 * b3;
    a1 * b2 + a3 * b3;
    a0 * b4 + a2 * b5 + a4;
    a1 * b4 + a3 * b5 + a5 ]%float.

End PDFJS.

(** ** Mouse events *)

Record MouseEvent : Type := { clientX : float; clientY : float }.

(** The part of [getBoundingClientRect()] that the handlers read. *)
Record ClientRect : Type := { rect_left : float; rect_top : float }.

Record Point : Type := { px : float; py : float }.

(** ** Selection in [src/components/PDFViewer.tsx] *)

Module PDFViewer.
Import PDFJS.

Record Selection : Type := {
  sel_x : float;
  sel_y : float;
  sel_width : float;
  sel_height : float
}.

Record Viewport : Type := { viewport_height : float }.

(** The state that the three mouse handlers read and write. *)
Record State : Type := {
  isDragging : bool;
  dragStart : Point;
  selection : option Selection;
  selectedText : string
}.

(** [canvas] is the bounding rectangle of [canvasRef.current], or [None]
    when the reference is empty. *)
Definition handleMouseDown (canvas : option ClientRect) (e : MouseEvent)
    (st : State) : State :=
  match canvas with
  | None => st
  | Some rect =>
      let x := (clientX e - rect_left rect)%float in
      let y := (clientY e - rect_top rect)%float in
      {| isDragging := true;
         dragStart := {| px := x; py := y |};
         selection := None;
         selectedText := "" |}
  end.

Definition handleMouseMove (canvas : option ClientRect) (e : MouseEvent)
    (st : State) : State :=
  match canvas with
  | None => st
  | Some rect =>
      if negb (isDragging st) then st
      else
        let x := (clientX e - rect_left rect)%float in
        let y := (clientY e - rect_top rect)%float in
        let selection :=
          {| sel_x := JS.Math_min (px (dragStart st)) x;
             sel_y := JS.Math_min (py (dragStart st)) y;
             sel_width := JS.Math_abs (x - px (dragStart st));
             sel_height := JS.Math_abs (y - py (dragStart st)) |} in
        {| isDragging := isDragging st;
           dragStart := dragStart st;
           selection := Some selection;
           selectedText := selectedText st |}
  end.

(** An element of [selectedItems]. *)
Record SelectedItem : Type := {
  item_str : string;
  fontSize : float;
  item_y : float
}.

(** The body of [textContent.items.forEach]: the item pushed for a text
    item, if any. *)
Definition selectItem (selection : Selection) (viewport : Viewport)
    (item : TextItem) : option SelectedItem :=
  let x := JS.nth_num 4 (transform item) in
  let y := (viewport_height viewport - JS.nth_num 5 (transform item))%float in
  let width := width item in
  let height := JS.or_else (height item) 12 in
  let overlapX :=
    JS.Math_max 0
      (JS.Math_min (sel_x selection + sel_width selection) (x + width)
       - JS.Math_max (sel_x selection) x) in
  let overlapY :=
    JS.Math_max 0
      (JS.Math_min (sel_y selection + sel_height selection) (y + height)
       - JS.Math_max (sel_y selection) y) in
  let overlapArea := (overlapX * overlapY)%float in
  let itemArea := (width * height)%float in
  let overlapRatio := (overlapArea / itemArea)%float in
  if (0.3 <=? overlapRatio)%float
  then Some {| item_str := str item;
               fontSize := JS.or_else (PDFJS.height item) 12;
               item_y := y |}
  else None.

(** [selectedItems] after [selectedItems.sort((a, b) => a.y - b.y)]. *)
Definition selectedItems (selection : Selection) (viewport : Viewport)
    (items : list TextItem) : list SelectedItem :=
  JS.sort (fun a b => (item_y a - item_y b)%float)
    (flat_map (fun item => match selectItem selection viewport item with
                           | Some si => [si]
                           | None => []
                           end) items).

Definition avgFontSize (selected : list SelectedItem) : float :=
  (JS.reduce (fun sum item (_ : nat) => (sum + fontSize item)%float) selected 0
   / JS.of_nat (length selected))%float.

Definition isLargeHeading (selected : list SelectedItem) (item : SelectedItem)
    : bool :=
  (avgFontSize selected * 1.5 <? fontSize item)%float.

Definition headingCount (selected : list SelectedItem) : nat :=
  length (List.filter (isLargeHeading selected) selected).

(** [headingCount / totalItems]. *)
Definition headingRatio (selected : list SelectedItem) : float :=
  (JS.of_nat (headingCount selected) / JS.of_nat (length selected))%float.

Definition filteredItems (selected : list SelectedItem) : list SelectedItem :=
  List.filter
    (fun item =>
       negb (isLargeHeading selected item)
       || (0.5 <? headingRatio selected)%float
       || (length selected <=? 3))
    selected.

Definition extractText (selection : Selection) (viewport : Viewport)
    (items : list TextItem) : string :=
  JSString.trim
    (JSString.join " "
       (map item_str (filteredItems (selectedItems selection viewport items)))).

(** [pageTexts] maps a page number to the text items of the page. *)
Definition handleMouseUp (pageTexts : gmap nat (list TextItem))
    (currentPage : nat) (viewport : option Viewport) (st : State) : State :=
  match isDragging st, selection st, pageTexts !! currentPage, viewport with
  | true, Some sel, Some items, Some vp =>
      {| isDragging := false;
         dragStart := dragStart st;
         selection := selection st;
         selectedText := extractText sel vp items |}
  | _, _, _, _ =>
      {| isDragging := false;
         dragStart := dragStart st;
         selection := selection st;
         selectedText := selectedText st |}
  end.

(** The Map [texts] that [loadPDF] fills by [texts.set(i, textContent)] for
    [i] from 1 to [numPages], as the list of its entries in insertion order,
    which is the order in which [forEach] visits them. *)
Definition loadPDF_texts (pages : list (list TextItem))
    : list (nat * list TextItem) :=
  combine (seq 1 (length pages)) pages.

Record SearchResult : Type := { result_text : string; result_page : nat }.

(** The body of [pageTexts.forEach] in the search effect: the results pushed
    for one page; [query] is the lower-case query. *)
Definition searchPage (query : string) (entry : nat * list TextItem)
    : list SearchResult :=
  let fullText := JSString.join " " (map str (snd entry)) in
  if JSString.includes query (JSString.toLowerCase fullText) then
    let index := JSString.indexOf query (JSString.toLowerCase fullText) in
    let start := Z.max 0 (index - 50) in
    let end_ := Z.min (Z.of_nat (String.length fullText))
                      (index + Z.of_nat (String.length query) + 50) in
    [{| result_text := JSString.substring start end_ fullText;
        result_page := fst entry |}]
  else [].

(** The search effect: the value given to [setSearchResults]. *)
Definition search (searchQuery : string)
    (pageTexts : list (nat * list TextItem)) : list SearchResult :=
  if negb (JSString.truthy (JSString.trim searchQuery))
     || (length pageTexts =? 0)
  then []
  else flat_map (searchPage (JSString.toLowerCase searchQuery)) pageTexts.

(** Page navigation.  [pageNum] of [handlePageJump] is the value of
    [parseInt]: an integer, or [None] for NaN, which fails both
    comparisons. *)
Record Pages : Type := { currentPage : nat; totalPages : nat }.

Definition goToPreviousPage (st : Pages) : Pages :=
  if 1 <? currentPage st
  then {| currentPage := currentPage st - 1; totalPages := totalPages st |}
  else st.

Definition goToNextPage (st : Pages) : Pages :=
  if currentPage st <? totalPages st
  then {| currentPage := currentPage st + 1; totalPages := totalPages st |}
  else st.

Definition handlePageJump (pageNum : option Z) (st : Pages) : Pages :=
  match pageNum with
  | Some n =>
      if (1 <=? n)%Z && (n <=? Z.of_nat (totalPages st))%Z
      then {| currentPage := Z.to_nat n; totalPages := totalPages st |}
      else st
  | None => st
  end.

(** [setCurrentPage(1)] and [setTotalPages(pdf.numPages)] of [loadPDF]. *)
Definition loadPDF_pages (pages : list (list TextItem)) : Pages :=
  {| currentPage := 1; totalPages := length pages |}.

(** What moves the current page: the three controls of the viewer and, in
    the search panel, a click on the result at [index] of the list found for
    [searchQuery], which calls [setCurrentPage(result.page)]. *)
Inductive PageEvent : Type :=
| PreviousPage
| NextPage
| PageJump (pageNum : option Z)
| ResultClick (searchQuery : string) (index : nat).

Definition navigate (pageTexts : list (nat * list TextItem)) (st : Pages)
    (ev : PageEvent) : Pages :=
  match ev with
  | PreviousPage => goToPreviousPage st
  | NextPage => goToNextPage st
  | PageJump pageNum => handlePageJump pageNum st
  | ResultClick searchQuery index =>
      match nth_error (search searchQuery pageTexts) index with
      | Some result =>
          {| currentPage := result_page result; totalPages := totalPages st |}
      | None => st
      end
  end.

(** The two zoom buttons, and the scale the viewer starts with. *)
Definition initialScale : float := 1.5%float.

Definition zoomOut (scale : float) : float :=
  JS.Math_max 0.5 (scale - 0.25).

Definition zoomIn (scale : float) : float :=
  JS.Math_min 3 (scale + 0.25).

Inductive ZoomEvent : Type := ZoomOut | ZoomIn.

Definition zoom (scale : float) (ev : ZoomEvent) : float :=
  match ev with
  | ZoomOut => zoomOut scale
  | ZoomIn => zoomIn scale
  end.

Definition clearSelection (st : State) : State :=
  {| isDragging := isDragging st;
     dragStart := dragStart st;
     selection := None;
     selectedText := "" |}.

(** What can happen to the selection state: the three mouse handlers, each
    with the canvas, page texts, page and viewport of its moment, and the
    clearing done by [clearSelection] and by the page-change effect of the
    application. *)
Inductive SelectionEvent : Type :=
| MouseDown (canvas : option ClientRect) (e : MouseEvent)
| MouseMove (canvas : option ClientRect) (e : MouseEvent)
| MouseUp (pageTexts : gmap nat (list TextItem)) (currentPage : nat)
          (viewport : option Viewport)
| ClearSelection.

Definition handle (st : State) (ev : SelectionEvent) : State :=
  match ev with
  | MouseDown canvas e => handleMouseDown canvas e st
  | MouseMove canvas e => handleMouseMove canvas e st
  | MouseUp pageTexts currentPage viewport =>
      handleMouseUp pageTexts currentPage viewport st
  | ClearSelection => clearSelection st
  end.

Definition initialState : State :=
  {| isDragging := false;
     dragStart := {| px := 0; py := 0 |};
     selection := None;
     selectedText := "" |}.

End PDFViewer.

(** ** Selection in the standalone viewer *)

Module Standalone.
Import PDFJS.

Record SelectionBox : Type := {
  left : float;
  top : float;
  box_width : float;
  box_height : float
}.

Record Viewport : Type := {
  viewport_transform : list float;
  viewport_scale : float
}.

(** The bounding box of a run, as [extractFromSelection] builds it. *)
Record ItemBox : Type := {
  box_x : float;
  box_y : float;
  item_width : float;
  item_height : float
}.

Record State : Type := {
  startPos : option Point;
  selectionBox : option SelectionBox;
  extractedText : string
}.

Definition onMouseDown (rect : ClientRect) (e : MouseEvent) (st : State)
    : State :=
  let start := {| px := (clientX e - rect_left rect)%float;
                  py := (clientY e - rect_top rect)%float |} in
  {| startPos := Some start;
     selectionBox := Some {| left := px start; top := py start;
                             box_width := 0; box_height := 0 |};
     extractedText := extractedText st |}.

Definition onMouseMove (rect : ClientRect) (e : MouseEvent) (st : State)
    : State :=
  match startPos st with
  | None => st
  | Some start =>
      let x := (clientX e - rect_left rect)%float in
      let y := (clientY e - rect_top rect)%float in
      {| startPos := startPos st;
         selectionBox :=
           Some {| left := JS.Math_min (px start) x;
                   top := JS.Math_min (py start) y;
                   box_width := JS.Math_abs (x - px start);
                   box_height := JS.Math_abs (y - py start) |};
         extractedText := extractedText st |}
  end.

Definition getOverlap (a : SelectionBox) (b : ItemBox) : float :=
  let xOverlap :=
    JS.Math_max 0
      (JS.Math_min (left a + box_width a) (box_x b + item_width b)
       - JS.Math_max (left a) (box_x b)) in
  let yOverlap :=
    JS.Math_max 0
      (JS.Math_min (top a + box_height a) (box_y b + item_height b)
       - JS.Math_max (top a) (box_y b)) in
  (xOverlap * yOverlap)%float.

Definition itemBox (viewport : Viewport) (item : TextItem) : ItemBox :=
  let tx := Util_transform (viewport_transform viewport) (transform item) in
  {| box_x := JS.nth_num 4 tx;
     box_y := (JS.nth_num 5 tx - height item)%float;
     item_width := (width item * viewport_scale viewport)%float;
     item_height := height item |}.

(** The body of [items.forEach]: the strings pushed for one item. *)
Definition selectItem (sel : SelectionBox) (viewport : Viewport)
    (item : TextItem) : list string :=
  let b := itemBox viewport item in
  let overlap := getOverlap sel b in
  let coverage := (overlap / (item_width b * item_height b))%float in
  if (0.3 <=? coverage)%float then [str item] else [].

Definition selectedItems (sel : SelectionBox) (viewport : Viewport)
    (items : list TextItem) : list string :=
  flat_map (selectItem sel viewport) items.

(** [textCache] maps a page number to the items and the viewport cached by
    [renderPage]; the state is left as it is when there is no selection box
    or nothing is cached for the page. *)
Definition extractFromSelection
    (textCache : gmap nat (list TextItem * Viewport)) (currentPage : nat)
    (st : State) : State :=
  match selectionBox st, textCache !! currentPage with
  | Some sel, Some (items, viewport) =>
      {| startPos := startPos st;
         selectionBox := selectionBox st;
         extractedText :=
           JSString.trim (JSString.join " " (selectedItems sel viewport items)) |}
  | _, _ => st
  end.

Definition onMouseUp (textCache : gmap nat (list TextItem * Viewport))
    (currentPage : nat) (st : State) : State :=
  match startPos st with
  | None => st
  | Some _ =>
      let st' := extractFromSelection textCache currentPage st in
      {| startPos := None;
         selectionBox := selectionBox st';
         extractedText := extractedText st' |}
  end.

End Standalone.

(** ** Loading a document in the standalone viewer *)

Module StandaloneApp.
Import PDFJS.

(** [textContent.items.map((i) => i.str).join(" ")]. *)
Definition pageText (items : list TextItem) : string :=
  JSString.join " " (map str items).

(** The text that [loadPdf] chunks: the page texts, in page order, joined
    by spaces. *)
Definition joined (pages : list (list TextItem)) : string :=
  JSString.join " " (map pageText pages).

(** The entries pushed by the loop [for (const chunk of chunks)]. *)
Definition vectorEntries (embedder : Ranker.Embedder)
    (pages : list (list TextItem)) : list Ranker.VectorEntry :=
  map (fun chunk => {| Ranker.text := chunk; Ranker.embedding := embedder chunk |})
    (Chunker.chunkText (joined pages) 400).

(** The value of [vectorDB] after [loadPdf]: the state is set only under
    [if (embedder)], and keeps its value otherwise. *)
Definition loadPdf (embedder : option Ranker.Embedder)
    (pages : list (list TextItem)) (vectorDB : list Ranker.VectorEntry)
    : list Ranker.VectorEntry :=
  match embedder with
  | Some emb => vectorEntries emb pages
  | None => vectorDB
  end.

(** The prompt that [handleAsk] builds. *)
Definition prompt (primaryExcerpt supplementaryText question : string)
    : string :=
  (if JSString.truthy primaryExcerpt
   then "Primary excerpt (highlighted):" +:+ JSString.LF +:+ JSString.dq
        +:+ primaryExcerpt +:+ JSString.dq +:+ Ranker.blank_line
   else "")
  +:+ (if JSString.truthy supplementaryText
       then "Supplementary relevant context:" +:+ JSString.LF
            +:+ supplementaryText +:+ Ranker.blank_line
       else "")
  +:+ "Question: " +:+ JSString.dq +:+ question +:+ JSString.dq
  +:+ Ranker.blank_line
  +:+ "Instruction: Answer using the primary excerpt first. You may use the supplementary context only if the excerpt is insufficient or ambiguous. If the excerpt alone suffices, base the answer on it. If still not enough, respond: 'Not enough information in the document to answer that.'".

(** The answer made up when no API key is entered. *)
Definition demoAnswer (primaryExcerpt supplementaryText : string) : string :=
  if JSString.truthy primaryExcerpt then
    "Based on your highlighted excerpt"
    +:+ (if JSString.truthy supplementaryText then " plus related context" else "")
    +:+ ": " +:+ JSString.slice_to 120 primaryExcerpt +:+ "..."
  else if JSString.truthy supplementaryText then
    "Based on relevant parts of the document: "
    +:+ JSString.slice_to 120 supplementaryText +:+ "..."
  else "Not enough information in the document to answer that.".

(** What comes of the request to a provider: the content found in the
    parsed reply by the optional chain, [None] when it is undefined; or a
    failure, when [fetch] or [res.json()] throws. *)
Inductive Reply : Type :=
| Replied (content : option string)
| Failed.

(** [content || "No response from model."]. *)
Definition content_or_default (content : option string) : string :=
  match content with
  | Some c => if JSString.truthy c then c else "No response from model."
  | None => "No response from model."
  end.

(** [finalAnswer]; [remote provider prompt] is what comes of the request to
    the provider; [None] when the request fails, and [handleAsk] with it. *)
Definition finalAnswer (apiKey provider : string)
    (remote : string -> string -> Reply)
    (primaryExcerpt supplementaryText question : string) : option string :=
  if negb (JSString.truthy apiKey) then
    Some (demoAnswer primaryExcerpt supplementaryText)
  else if String.eqb provider "groq" then
    match remote "groq" (prompt primaryExcerpt supplementaryText question) with
    | Replied content => Some (content_or_default content)
    | Failed => None
    end
  else if String.eqb provider "gemini" then
    match remote "gemini" (prompt primaryExcerpt supplementaryText question) with
    | Replied content => Some (content_or_default content)
    | Failed => None
    end
  else Some "".

End StandaloneApp.

(** ** [handleAsk] of the standalone viewer

    Here the values are as the embedder gives them: nothing in [handleAsk]
    checks them, and none of its awaited calls is guarded. *)

Module StandaloneAsk.
Import StandaloneApp.

(** What [.data[0]] of an embedding is: an array of numbers; or a value
    that is no array, which is a number when [data] is a flat array of
    numbers and [undefined] when [data] is empty. *)
Inductive Datum : Type :=
| Vector (v : list float)
| NotArray.

(** [(await embedder(s)).data[0]]; [None] when this throws: the promise is
    rejected, or the result has no [data]. *)
Definition Embedder : Type := string -> option Datum.

(** An entry of [vectorDB]: [loadPdf] stores [emb.data[0]] as it is. *)
Record VectorEntry : Type := { text : string; embedding : Datum }.

(** [cosineSimilarity(vecA, vecB)]; [None] when it throws, which it does
    as soon as one argument is no array: [vecA.reduce] or [vecB.reduce] is
    then not a function. *)
Definition cosineSimilarity (vecA vecB : Datum) : option float :=
  match vecA, vecB with
  | Vector a, Vector b => Some (Ranker.cosineSimilarity a b)
  | _, _ => None
  end.

(** [vectorDB.map((e) => ({ text: e.text, score: cosineSimilarity(vec, e.embedding) }))];
    [None] when a call of [cosineSimilarity] throws. *)
Fixpoint scoreBy (vec : Datum) (vectorDB : list VectorEntry)
    : option (list (string * float)) :=
  match vectorDB with
  | [] => Some []
  | e :: rest =>
      match cosineSimilarity vec (embedding e) with
      | Some score =>
          match scoreBy vec rest with
          | Some scored => Some ((text e, score) :: scored)
          | None => None
          end
      | None => None
      end
  end.

(** The object [combined] when the loop that picks the supplements starts;
    [None] when an exception has ended [handleAsk] before. *)
Definition combinedScores (embedder : Embedder) (vectorDB : list VectorEntry)
    (question primaryExcerpt : string) : option JSObject.t :=
  match embedder question with
  | Some qVec =>
      match scoreBy qVec vectorDB with
      | Some scoredByQuestion =>
          let combined := Ranker.seedScores [] scoredByQuestion in
          if JSString.truthy primaryExcerpt then
            match embedder primaryExcerpt with
            | Some selVec =>
                match scoreBy selVec vectorDB with
                | Some scoredBySelection =>
                    Some (Ranker.mergeScores combined scoredBySelection)
                | None => None
                end
            | None => None
            end
          else Some combined
      | None => None
      end
  | None => None
  end.

(** [supplementaryText] when the prompt is built; [None] when the block
    under [if (vectorDB.length > 0 && embedder)] throws. *)
Definition supplementaryText (embedder : option Embedder)
    (vectorDB : list VectorEntry) (question extractedText : string)
    : option string :=
  let primaryExcerpt := JSString.trim extractedText in
  match embedder with
  | Some emb =>
      if 0 <? length vectorDB then
        match combinedScores emb vectorDB question primaryExcerpt with
        | Some combined =>
            let combinedArray :=
              JS.sort (fun a b => (snd b - snd a)%float)
                (JSObject.entries combined) in
            Some (JSString.join Ranker.blank_line
                    (Ranker.pickSupplements primaryExcerpt combinedArray []))
        | None => None
        end
      else Some ""
  | None => Some ""
  end.

(** The value [handleAsk] gives to [setAnswer]; [None] when it sets none:
    it returns at once for an empty question, and it does not reach
    [setAnswer] when the retrieval or the request throws. *)
Definition handleAsk (embedder : option Embedder)
    (vectorDB : list VectorEntry) (apiKey provider : string)
    (remote : string -> string -> Reply)
    (question extractedText : string) : option string :=
  if JSString.truthy question then
    match supplementaryText embedder vectorDB question extractedText with
    | Some supplementaryText =>
        finalAnswer apiKey provider remote (JSString.trim extractedText)
          supplementaryText question
    | None => None
    end
  else None.

(** The vectors of an embedder and of an index all of whose values are
    arrays. *)
Definition vectorsOf (embedder : Embedder) : Ranker.Embedder :=
  fun s => match embedder s with
           | Some (Vector v) => v
           | _ => []
           end.

Definition entriesOf (vectorDB : list VectorEntry) : list Ranker.VectorEntry :=
  map (fun e => {| Ranker.text := text e;
                   Ranker.embedding := match embedding e with
                                       | Vector v => v
                                       | NotArray => []
                                       end |}) vectorDB.

End StandaloneAsk.

(** ** Node's [Buffer]: UTF-8 bytes and their base64 text *)

Module Buffer.

(** [Buffer.from(s)]: the UTF-8 bytes of [s].  A code unit below 128 is one
    byte, one from 128 to 255 is two bytes. *)
Definition utf8_of_char (c : ascii) : list N :=
  let n := N_of_ascii c in
  if (n <? 128)%N then [n]
  else [(192 + n / 64)%N; (128 + n mod 64)%N].

Fixpoint from (s : string) : list N :=
  match s with
  | EmptyString => []
  | String c s' => utf8_of_char c ++ from s'
  end.

Definition alphabet : string :=
  "ABCDEFGHIJKLMNOPQRSTUVWXYZabcdefghijklmnopqrstuvwxyz0123456789+/".

Definition digit (n : N) : ascii :=
  match String.get (N.to_nat n) alphabet with
  | Some c => c
  | None => "="%char
  end.

(** [buf.toString('base64')]. *)
Fixpoint toBase64 (bytes : list N) : string :=
  match bytes with
  | [] => EmptyString
  | [a] =>
      String (digit (a / 4)) (String (digit ((a mod 4) * 16)) "==")
  | [a; b] =>
      String (digit (a / 4))
        (String (digit ((a mod 4) * 16 + b / 16))
           (String (digit ((b mod 16) * 4)) "="))
  | a :: b :: c :: rest =>
      String (digit (a / 4))
        (String (digit ((a mod 4) * 16 + b / 16))
           (String (digit ((b mod 16) * 4 + c / 64))
              (String (digit (c mod 64)) (toBase64 rest))))
  end%N.

End Buffer.

(** ** The [node-cache] store, as the server uses it *)

Module NodeCache.

(** A stored value with the time, in milliseconds, after which it is
    expired. *)
Abbreviation t V := (gmap string (V * Z)).

(** [stdTTL: 86400], in seconds. *)
Definition stdTTL : Z := 86400.

(** [cache.set(key, value)] at time [now]. *)
Definition set {V : Type} (now : Z) (key : string) (value : V) (cache : t V)
    : t V :=
  <[key := (value, (now + stdTTL * 1000)%Z)]> cache.

(** [cache.get(key)] at time [now]: an entry whose time has passed is
    deleted and reads as [undefined]. *)
Definition get {V : Type} (now : Z) (key : string) (cache : t V)
    : option V * t V :=
  match cache !! key with
  | Some (value, expires) =>
      if (expires <? now)%Z then (None, delete key cache)
      else (Some value, cache)
  | None => (None, cache)
  end.

End NodeCache.

(** ** The Express server *)

Module Server.

Inductive Adapter : Type := OpenAIAdapter | AnthropicAdapter | FallbackAdapter.

(** Which clients were created at start-up: [openai] and [anthropic] are
    objects or [null]. *)
Record Clients : Type := { openai : bool; anthropic : bool }.

(** [v === s] for a field [v] of the request body, which is absent or a
    string. *)
Definition is_string (v : option string) (s : string) : bool :=
  match v with
  | Some s' => String.eqb s' s
  | None => false
  end.

Definition getModelAdapter (clients : Clients) (preferredModel : option string)
    : Adapter :=
  if is_string preferredModel "openai" && openai clients then OpenAIAdapter
  else if is_string preferredModel "anthropic" && anthropic clients then AnthropicAdapter
  else if openai clients then OpenAIAdapter
  else if anthropic clients then AnthropicAdapter
  else FallbackAdapter.

Record AIResponse : Type := { answer : string; source : string }.

(** How [adapter.generateResponse(context, question)] ends: with a response
    object, or with an exception whose [message] may be missing. *)
Inductive Outcome : Type :=
  | Returned (response : AIResponse)
  | Threw (message : option string).

(** The answering collaborators: what a call of an adapter does. *)
Definition Backend : Type := Adapter -> string -> string -> Outcome.

(** The fields that the route takes from [req.body], as the interface of
    the server types them: each is absent or a string. *)
Record RequestBody : Type := {
  context : option string;
  question : option string;
  model : option string
}.

Inductive Body : Type :=
  | ErrorBody (error : string)
  | AnswerBody (response : AIResponse).

Record HttpResponse : Type := { status : nat; body : Body }.

(** The cache, and the adapter calls made so far, oldest first. *)
Record State : Type := {
  responseCache : NodeCache.t AIResponse;
  calls : list (Adapter * string * string)
}.

Definition truthy_field (v : option string) : bool :=
  match v with
  | Some s => JSString.truthy s
  | None => false
  end.

Definition cacheKey (context question : string) : string :=
  Buffer.toBase64 (Buffer.from (context +:+ "|" +:+ question)).

(** [error.message?.includes(needle)]. *)
Definition message_includes (message : option string) (needle : string) : bool :=
  match message with
  | Some m => JSString.includes needle m
  | None => false
  end.

(** The [catch] block. *)
Definition errorResponse (message : option string) : HttpResponse :=
  if message_includes message "API key"
  then {| status := 401; body := ErrorBody "Invalid API key configuration" |}
  else if message_includes message "quota" || message_includes message "rate limit"
  then {| status := 429;
          body := ErrorBody "API rate limit exceeded. Please try again later." |}
  else {| status := 500;
          body := ErrorBody "Internal server error. Please try again." |}.

(** The route [POST /api/ask].  [now] is the time of the cache lookup and
    [answered] the time at which the adapter's response is stored. *)
Definition ask (clients : Clients) (backend : Backend) (now answered : Z)
    (req : RequestBody) (st : State) : State * HttpResponse :=
  match context req, question req with
  | Some context, Some question =>
      if negb (JSString.truthy context) || negb (JSString.truthy question)
      then (st, {| status := 400;
                   body := ErrorBody "Both context and question are required" |})
      else if (10000 <? Z.of_nat (String.length context))%Z
      then (st, {| status := 400;
                   body := ErrorBody "Context text is too long (max 10,000 characters)" |})
      else if (1000 <? Z.of_nat (String.length question))%Z
      then (st, {| status := 400;
                   body := ErrorBody "Question is too long (max 1,000 characters)" |})
      else
        let cacheKey := cacheKey context question in
        match NodeCache.get now cacheKey (responseCache st) with
        | (Some cachedResponse, cache) =>
            ({| responseCache := cache; calls := calls st |},
             {| status := 200; body := AnswerBody cachedResponse |})
        | (None, cache) =>
            let adapter := getModelAdapter clients (model req) in
            let calls := calls st ++ [(adapter, context, question)] in
            match backend adapter context question with
            | Returned response =>
                ({| responseCache := NodeCache.set answered cacheKey response cache;
                    calls := calls |},
                 {| status := 200; body := AnswerBody response |})
            | Threw message =>
                ({| responseCache := cache; calls := calls |},
                 errorResponse message)
            end
        end
  | _, _ =>
      (st, {| status := 400;
              body := ErrorBody "Both context and question are required" |})
  end.

(** [context.substring(0, n)] followed by the dots that mark a cut. *)
Definition preview (context : string) (n : nat) : string :=
  JSString.substring 0 (Z.of_nat n) context
  +:+ (if n <? String.length context then "..." else "").

(** [FallbackAdapter.generateResponse]; the simulated delay is left out. *)
Definition FallbackAdapter_generateResponse (context question : string)
    : AIResponse :=
  let questionLower := JSString.toLowerCase question in
  if JSString.includes "what" questionLower then
    {| answer := "Based on the selected text: " +:+ JSString.dq
                 +:+ preview context 150 +:+ JSString.dq
                 +:+ ", this appears to be discussing the main topic or concept mentioned in the excerpt. For more detailed analysis, please configure OpenAI or Anthropic API keys.";
       source := "Demo Mode" |}
  else if JSString.includes "how" questionLower then
    {| answer := "The selected text describes a process or method. From the excerpt: "
                 +:+ JSString.dq +:+ preview context 100 +:+ JSString.dq
                 +:+ ", I can identify the procedural elements, but a full AI model would provide more comprehensive analysis.";
       source := "Demo Mode" |}
  else if JSString.includes "why" questionLower then
    {| answer := "The reasoning or explanation appears to be contained within the selected text. The excerpt suggests certain causes or motivations, but for detailed analysis of the "
                 +:+ JSString.dq +:+ "why" +:+ JSString.dq
                 +:+ " behind this content, please enable AI model integration.";
       source := "Demo Mode" |}
  else if JSString.includes "who" questionLower
          || JSString.includes "when" questionLower
          || JSString.includes "where" questionLower then
    {| answer := "I can identify specific details in the selected text that relate to your question. The excerpt contains relevant information, but for precise extraction of names, dates, or locations, please configure AI API keys for full functionality.";
       source := "Demo Mode" |}
  else
    {| answer := "I can see the selected text contains: " +:+ JSString.dq
                 +:+ preview context 120 +:+ JSString.dq
                 +:+ " - This demo mode provides basic responses. For intelligent analysis and detailed answers, please add your OpenAI or Anthropic API key to the .env file.";
       source := "Demo Mode" |}.

(** The prompt that [OpenAIAdapter] and [AnthropicAdapter] send to their
    models. *)
Definition adapterPrompt (context question : string) : string :=
  "Excerpt: " +:+ JSString.dq +:+ context +:+ JSString.dq
  +:+ JSString.LF +:+ JSString.LF
  +:+ "Question: " +:+ JSString.dq +:+ question +:+ JSString.dq
  +:+ JSString.LF +:+ JSString.LF
  +:+ "Answer using only the excerpt. If insufficient, say: 'Not enough information in the selected excerpt to answer that.'".

(** A backend whose fallback adapter is the code above, which never throws
    on strings; the other adapters answer as [remote] says. *)
Definition withFallback (remote : Backend) : Backend :=
  fun adapter context question =>
    match adapter with
    | FallbackAdapter =>
        Returned (FallbackAdapter_generateResponse context question)
    | _ => remote adapter context question
    end.

(** The [models] object of [GET /api/health]. *)
Record HealthModels : Type := {
  health_openai : bool;
  health_anthropic : bool;
  health_fallback : bool
}.

Definition health (clients : Clients) : HealthModels :=
  {| health_openai := openai clients;
     health_anthropic := anthropic clients;
     health_fallback := negb (openai clients) && negb (anthropic clients) |}.

(** *** Bodies as they arrive

    [express.json()] hands the route whatever JSON the client sent, and the
    route does not check that [context] and [question] are strings.  Of a
    value that is not a string the route uses three things: whether it is
    truthy, what [value.length > limit] gives for the limit of its field,
    and its text in a template literal.  The last two are [None] when the
    conversion to a primitive value throws (an object whose own [toString]
    and [valueOf] are not functions).  The number 5 is
    [NonString true (Some false) (Some "5")]. *)
Inductive Field : Type :=
  | Str (s : string)
  | NonString (truthy : bool) (tooLong : option bool) (text : option string).

(** [model] is compared with two names by [===] only: a value that is not a
    string stands as [None]. *)
Record JsonBody : Type := {
  json_context : option Field;
  json_question : option Field;
  json_model : option string
}.

Definition field_truthy (v : Field) : bool :=
  match v with
  | Str s => JSString.truthy s
  | NonString truthy _ _ => truthy
  end.

(** [v.length > limit]. *)
Definition field_longer (v : Field) (limit : Z) : option bool :=
  match v with
  | Str s => Some (limit <? Z.of_nat (String.length s))%Z
  | NonString _ tooLong _ => tooLong
  end.

(** The text of [v] in a template literal. *)
Definition field_text (v : Field) : option string :=
  match v with
  | Str s => Some s
  | NonString _ _ text => text
  end.

(** The message of the TypeError thrown by a conversion. *)
Definition conversion_message : string :=
  "Cannot convert object to primitive value".

Definition JsonBackend : Type := Adapter -> Field -> Field -> Outcome.

(** The route [POST /api/ask] on such a body; the log of calls holds the
    texts of the two values. *)
Definition askJson (clients : Clients) (backend : JsonBackend)
    (now answered : Z) (req : JsonBody) (st : State) : State * HttpResponse :=
  match json_context req, json_question req with
  | Some context, Some question =>
      if negb (field_truthy context) || negb (field_truthy question)
      then (st, {| status := 400;
                   body := ErrorBody "Both context and question are required" |})
      else
        match field_longer context 10000 with
        | None => (st, errorResponse (Some conversion_message))
        | Some true =>
            (st, {| status := 400;
                    body := ErrorBody "Context text is too long (max 10,000 characters)" |})
        | Some false =>
            match field_longer question 1000 with
            | None => (st, errorResponse (Some conversion_message))
            | Some true =>
                (st, {| status := 400;
                        body := ErrorBody "Question is too long (max 1,000 characters)" |})
            | Some false =>
                match field_text context, field_text question with
                | Some c, Some q =>
                    let cacheKey := cacheKey c q in
                    match NodeCache.get now cacheKey (responseCache st) with
                    | (Some cachedResponse, cache) =>
                        ({| responseCache := cache; calls := calls st |},
                         {| status := 200; body := AnswerBody cachedResponse |})
                    | (None, cache) =>
                        let adapter := getModelAdapter clients (json_model req) in
                        let calls := calls st ++ [(adapter, c, q)] in
                        match backend adapter context question with
                        | Returned response =>
                            ({| responseCache :=
                                  NodeCache.set answered cacheKey response cache;
                                calls := calls |},
                             {| status := 200; body := AnswerBody response |})
                        | Threw message =>
                            ({| responseCache := cache; calls := calls |},
                             errorResponse message)
                        end
                    end
                | _, _ => (st, errorResponse (Some conversion_message))
                end
            end
        end
  | _, _ =>
      (st, {| status := 400;
              body := ErrorBody "Both context and question are required" |})
  end.

(** [FallbackAdapter.generateResponse] on such values: its first two
    statements call [context.toLowerCase()] and [question.toLowerCase()],
    and only a string has this method. *)
Definition FallbackAdapter_generateResponseJson (context question : Field)
    : Outcome :=
  match context with
  | Str c =>
      match question with
      | Str q => Returned (FallbackAdapter_generateResponse c q)
      | NonString _ _ _ =>
          Threw (Some "question.toLowerCase is not a function")
      end
  | NonString _ _ _ => Threw (Some "context.toLowerCase is not a function")
  end.

Definition withFallbackJson (remote : JsonBackend) : JsonBackend :=
  fun adapter context question =>
    match adapter with
    | FallbackAdapter => FallbackAdapter_generateResponseJson context question
    | _ => remote adapter context question
    end.

End Server.

(** ** The question panel of the application *)

Module QuestionPanel.
Import Server.

Inductive ApiMode : Type := Fallback | OpenAI | Anthropic.

(** The string that the mode is in the source. *)
Definition mode_string (m : ApiMode) : string :=
  match m with
  | Fallback => "fallback"
  | OpenAI => "openai"
  | Anthropic => "anthropic"
  end.

(** [generateFallbackResponse]; the simulated delay is left out. *)
Definition generateFallbackResponse (context question : string) : AIResponse :=
  let contextLower := JSString.toLowerCase context in
  let questionLower := JSString.toLowerCase question in
  let contextPreview := preview context 120 in
  if JSString.includes "what" questionLower then
    if JSString.includes "definition" contextLower
       || JSString.includes "means" contextLower
       || JSString.includes "is" contextLower
    then
      {| answer := "Based on the selected text, this appears to define or describe a concept. The excerpt mentions key terms and provides context about the subject matter. From "
                   +:+ JSString.dq +:+ contextPreview +:+ JSString.dq
                   +:+ ", I can identify the main topic being discussed.";
         source := "Demo Mode" |}
    else
      {| answer := "The selected text discusses: " +:+ JSString.dq
                   +:+ contextPreview +:+ JSString.dq
                   +:+ ". This appears to be explaining the nature, characteristics, or details of the subject matter mentioned in your question.";
         source := "Demo Mode" |}
  else if JSString.includes "how" questionLower then
    {| answer := "The excerpt describes a process or methodology. From the selected text: "
                 +:+ JSString.dq +:+ contextPreview +:+ JSString.dq
                 +:+ ", I can identify procedural steps or explanations of how something works or is accomplished. The text provides guidance on the approach or mechanism involved.";
       source := "Demo Mode" |}
  else if JSString.includes "why" questionLower then
    {| answer := "The reasoning appears to be contained within the selected text. The excerpt suggests causes, motivations, or explanations for the phenomenon in question. Based on "
                 +:+ JSString.dq +:+ contextPreview +:+ JSString.dq
                 +:+ ", there are underlying factors or justifications mentioned.";
       source := "Demo Mode" |}
  else if JSString.includes "who" questionLower
          || JSString.includes "when" questionLower
          || JSString.includes "where" questionLower then
    {| answer := "The selected text contains specific details relevant to your question. From "
                 +:+ JSString.dq +:+ contextPreview +:+ JSString.dq
                 +:+ ", I can identify references to people, places, times, or other specific information that addresses the who/when/where aspects you're asking about.";
       source := "Demo Mode" |}
  else if JSString.includes "compare" questionLower
          || JSString.includes "difference" questionLower
          || JSString.includes "similar" questionLower then
    {| answer := "The excerpt provides information for comparison. From "
                 +:+ JSString.dq +:+ contextPreview +:+ JSString.dq
                 +:+ ", I can identify different elements, characteristics, or approaches that can be contrasted or compared as requested in your question.";
       source := "Demo Mode" |}
  else
    {| answer := "Based on the selected excerpt: " +:+ JSString.dq
                 +:+ contextPreview +:+ JSString.dq
                 +:+ ", I can provide relevant information to address your question. The text contains details that relate to your inquiry, though a full AI model would offer more comprehensive analysis and deeper insights.";
       source := "Demo Mode" |}.

(** The prompt shown by the panel. *)
Definition generatePrompt (selectedText question : string) : string :=
  if negb (JSString.truthy (JSString.trim selectedText))
     || negb (JSString.truthy (JSString.trim question))
  then ""
  else "Excerpt: " +:+ JSString.dq +:+ selectedText +:+ JSString.dq
       +:+ Ranker.blank_line
       +:+ "Question: " +:+ JSString.dq +:+ question +:+ JSString.dq
       +:+ Ranker.blank_line
       +:+ "Answer using only the excerpt. If insufficient, say: 'Not enough information in the selected excerpt to answer that.'".

(** How [fetch] ends: with a response, or rejected with an error. *)
Inductive FetchOutcome : Type :=
| Responded (response : HttpResponse)
| Rejected (message : string).

(** [response.ok]. *)
Definition ok (response : HttpResponse) : bool :=
  (200 <=? status response) && (status response <=? 299).

Record State : Type := {
  question : string;
  answer : option Body;
  isLoading : bool;
  error : option string
}.

(** What [handleSubmit] leaves behind. *)
Record Submitted : Type := {
  state : State;
  (** the bodies posted to [/api/ask] *)
  sent : list RequestBody;
  (** whether the switch to the demo mode has been scheduled *)
  switching : bool
}.

Definition failed (apiMode : ApiMode) (errorMessage : string) (st : State)
    (sent : list RequestBody) : Submitted :=
  match apiMode with
  | Fallback =>
      {| state := {| question := question st; answer := None;
                     isLoading := false; error := Some errorMessage |};
         sent := sent; switching := false |}
  | _ =>
      {| state := {| question := question st; answer := None;
                     isLoading := false;
                     error := Some (errorMessage +:+ ". Switching to demo mode...") |};
         sent := sent; switching := true |}
  end.

Definition handleSubmit (fetch : RequestBody -> FetchOutcome)
    (selectedText : string) (apiMode : ApiMode) (st : State) : Submitted :=
  if negb (JSString.truthy (JSString.trim selectedText)) then
    {| state := {| question := question st; answer := answer st;
                   isLoading := isLoading st;
                   error := Some "Please select some text from the PDF first" |};
       sent := []; switching := false |}
  else if negb (JSString.truthy (JSString.trim (question st))) then
    {| state := {| question := question st; answer := answer st;
                   isLoading := isLoading st;
                   error := Some "Please enter a question" |};
       sent := []; switching := false |}
  else
    match apiMode with
    | Fallback =>
        {| state := {| question := question st;
                       answer := Some (AnswerBody
                                   (generateFallbackResponse selectedText
                                      (question st)));
                       isLoading := false; error := None |};
           sent := []; switching := false |}
    | _ =>
        let request := {| Server.context := Some selectedText;
                          Server.question := Some (question st);
                          Server.model := Some (mode_string apiMode) |} in
        match fetch request with
        | Responded response =>
            if ok response then
              {| state := {| question := question st;
                             answer := Some (body response);
                             isLoading := false; error := None |};
                 sent := [request]; switching := false |}
            else
              failed apiMode
                ("HTTP error! status: "
                 +:+ NilEmpty.string_of_uint (Nat.to_uint (status response)))
                st [request]
        | Rejected message => failed apiMode message st [request]
        end
    end.

(** The callback of the timer set when a request fails. *)
Definition switchToDemo (st : State) : State * ApiMode :=
  ({| question := question st; answer := answer st;
      isLoading := isLoading st; error := None |}, Fallback).

(** [fetch] answered by the server in state [st]. *)
Definition served (clients : Clients) (backend : Backend) (now answered : Z)
    (st : Server.State) : RequestBody -> FetchOutcome :=
  fun request => Responded (snd (ask clients backend now answered request st)).

End QuestionPanel.

(** ** Vocabulary of the properties *)

Module Spec.

(** [m] is the least of [a] and [b]. *)
Definition least_of (m a b : float) : Prop :=
  (m <=? a)%float = true /\ (m <=? b)%float = true /\ (m = a \/ m = b).

(** A rectangle with origin [(ox, oy)] and size [w] by [h] is the normalized
    rectangle spanned by the points [anchor] and [cursor]. *)
Definition normalized (ox oy w h : float) (anchor cursor : Point) : Prop :=
  (0 <=? w)%float = true /\ (0 <=? h)%float = true /\
  least_of ox (px anchor) (px cursor) /\
  least_of oy (py anchor) (py cursor).

Definition finite_point (p : Point) : Prop :=
  is_finite (px p) = true /\ is_finite (py p) = true.

(** The coordinates of a mouse event and of the canvas corner are finite
    numbers. *)
Definition finite_event (rect : ClientRect) (e : MouseEvent) : Prop :=
  is_finite (clientX e) = true /\ is_finite (clientY e) = true /\
  is_finite (rect_left rect) = true /\ is_finite (rect_top rect) = true.

(** A binary64 value that is zero or finite, in the terms of the
    specification of the floating-point operations. *)
Definition SF_is_finite (x : spec_float) : bool :=
  match x with
  | S754_zero _ | S754_finite _ _ _ => true
  | _ => false
  end.

(** The requests that pass the validation of the route. *)
Definition acceptable (context question : string) : bool :=
  JSString.truthy context && JSString.truthy question
  && negb (10000 <? Z.of_nat (String.length context))%Z
  && negb (1000 <? Z.of_nat (String.length question))%Z.

(** A field of a request body is missing when it is absent or empty. *)
Definition missing (field : option string) : Prop :=
  field = None \/ field = Some "".

Definition longer_than (field : option string) (n : Z) : Prop :=
  exists s, field = Some s /\ (n < Z.of_nat (String.length s))%Z.

(** The requests that the route must refuse. *)
Definition invalid (req : Server.RequestBody) : Prop :=
  missing (Server.context req) \/ missing (Server.question req) \/
  longer_than (Server.context req) 10000 \/
  longer_than (Server.question req) 1000.

(** The name by which a request asks for the provider behind an adapter. *)
Definition provider (a : Server.Adapter) : option string :=
  match a with
  | Server.OpenAIAdapter => Some "openai"
  | Server.AnthropicAdapter => Some "anthropic"
  | Server.FallbackAdapter => None
  end.

(** Readers of what [Buffer] writes: the string of a sequence of UTF-8
    bytes, and the bytes of a base64 text. *)
Fixpoint decode_utf8 (bytes : list N) : string :=
  match bytes with
  | [] => EmptyString
  | b :: rest =>
      if (b <? 128)%N then String (ascii_of_N b) (decode_utf8 rest)
      else match rest with
           | b2 :: rest' =>
               String (ascii_of_N ((b - 192) * 64 + (b2 - 128))%N) (decode_utf8 rest')
           | [] => EmptyString
           end
  end.

Fixpoint index_of (c : ascii) (s : string) (i : N) : N :=
  match s with
  | EmptyString => i
  | String a s' => if Ascii.eqb a c then i else index_of c s' (i + 1)%N
  end.

Definition undigit (c : ascii) : N := index_of c Buffer.alphabet 0.

Fixpoint fromBase64 (s : string) : list N :=
  match s with
  | String c0 (String c1 (String c2 (String c3 rest))) =>
      let d0 := undigit c0 in
      let d1 := undigit c1 in
      let d2 := undigit c2 in
      let d3 := undigit c3 in
      if Ascii.eqb c2 "=" then [(d0 * 4 + d1 / 16)%N]
      else if Ascii.eqb c3 "="
      then [(d0 * 4 + d1 / 16)%N; ((d1 mod 16) * 16 + d2 / 4)%N]
      else (d0 * 4 + d1 / 16)%N :: ((d1 mod 16) * 16 + d2 / 4)%N
           :: ((d2 mod 4) * 64 + d3)%N :: fromBase64 rest
  | _ => []
  end.

(** The values of the 64 base64 digits. *)
Definition sextets : list N := map N.of_nat (seq 0 64).

(** The words of a text when it is cut at every run of white space. *)
Fixpoint white_space_words_from (cur : string) (s : string) : list string :=
  match s with
  | EmptyString => match cur with EmptyString => [] | _ => [cur] end
  | String c s' =>
      if JSString.is_white_space c then
        match cur with
        | EmptyString => white_space_words_from EmptyString s'
        | _ => cur :: white_space_words_from EmptyString s'
        end
      else white_space_words_from (cur +:+ String c EmptyString) s'
  end.

Definition white_space_words (s : string) : list string :=
  white_space_words_from EmptyString s.

Fixpoint contains_char (c : ascii) (s : string) : bool :=
  match s with
  | EmptyString => false
  | String a s' => Ascii.eqb a c || contains_char c s'
  end.

(** What the loop of [chunkText] maintains: the closed chunks are the joins
    of non-empty groups of words, and these groups followed by the open
    chunk are exactly the words read so far. *)
Definition chunk_inv (seen : list string) (st : list string * list string)
    : Prop :=
  exists groups : list (list string),
    fst st = map (JSString.join " ") groups /\
    Forall (fun g => g <> []) groups /\
    concat groups ++ snd st = seen.

(** The average of numbers, as the claim on headings has it: their sum,
    taken from left to right, divided by their count. *)
Definition average (xs : list float) : float :=
  (fold_left (fun sum x => (sum + x)%float) xs 0%float
   / JS.of_nat (length xs))%float.

(** The value of a number in units of [2 ^ emin], the weight of the last bit
    of the smallest numbers; the infinities are given a value beyond every
    finite one. *)
Definition scaled (x : spec_float) : Z :=
  match x with
  | S754_zero _ => 0%Z
  | S754_nan => 0%Z
  | S754_infinity s => cond_Zopp s (2 ^ (emax - emin))%Z
  | S754_finite s m e => cond_Zopp s (Z.pos m * 2 ^ (e - emin))%Z
  end.

(** A number that is not zero and has the sign [s]. *)
Inductive signed (s : bool) : spec_float -> Prop :=
| signed_finite m e : signed s (S754_finite s m e)
| signed_infinity : signed s (S754_infinity s).

End Spec.

(** ** Concrete inputs *)

Module Examples.

(** An embedder and the index it builds from five chunks; the excerpt used
    below is the text of the first chunk. *)
Definition embedder (s : string) : list float :=
  if String.eqb s "budget report" then [1; 0]%float
  else if String.eqb s "totals by quarter" then [0; 1]%float
  else if String.eqb s "appendix" then [1; 1]%float
  else if String.eqb s "glossary" then [0.5; 1]%float
  else if String.eqb s "index of terms" then [1; 0.25]%float
  else if String.eqb s "what is the total?" then [0; 1]%float
  else [1; 1]%float.

Definition vectorDB : list Ranker.VectorEntry :=
  map (fun chunk => {| Ranker.text := chunk; Ranker.embedding := embedder chunk |})
    ["budget report"; "totals by quarter"; "appendix"; "glossary";
     "index of terms"].

(** A horizontal run of text in size [h] whose baseline starts at [(x, y)]
    in page coordinates. *)
Definition run (s : string) (x y w h : float) : PDFJS.TextItem :=
  {| PDFJS.str := s; PDFJS.transform := [h; 0; 0; h; x; y]%float;
     PDFJS.width := w; PDFJS.height := h |}.

(** A page 800 units high: a title in size 20 above four lines in size 10. *)
Definition title_page : list PDFJS.TextItem :=
  [ run "Title" 50 700 100 20; run "one" 50 680 100 10;
    run "two" 50 660 100 10; run "three" 50 640 100 10;
    run "four" 50 620 100 10 ]%float.

(** A title in size 30 above two lines in size 10. *)
Definition short_page : list PDFJS.TextItem :=
  [ run "Title" 50 700 100 30; run "one" 50 660 100 10;
    run "two" 50 640 100 10 ]%float.

(** A page whose content stream draws the lower line first. *)
Definition unordered_page : list PDFJS.TextItem :=
  [ run "second" 100 600 50 12; run "first" 100 700 50 12 ]%float.

Definition whole_page : PDFViewer.Selection :=
  {| PDFViewer.sel_x := 0; PDFViewer.sel_y := 0;
     PDFViewer.sel_width := 500; PDFViewer.sel_height := 500 |}.

Definition viewport : PDFViewer.Viewport :=
  {| PDFViewer.viewport_height := 800 |}.

Definition whole_page_box : Standalone.SelectionBox :=
  {| Standalone.left := 0; Standalone.top := 0;
     Standalone.box_width := 500; Standalone.box_height := 500 |}.

(** The viewport of an unrotated page 800 units high at scale 1. *)
Definition standalone_viewport : Standalone.Viewport :=
  {| Standalone.viewport_transform := [1; 0; 0; -1; 0; 800]%float;
     Standalone.viewport_scale := 1 |}.

Definition standalone_state : Standalone.State :=
  {| Standalone.startPos := Some {| px := 0; py := 0 |};
     Standalone.selectionBox := Some whole_page_box;
     Standalone.extractedText := "" |}.

Definition viewer_state : PDFViewer.State :=
  {| PDFViewer.isDragging := true;
     PDFViewer.dragStart := {| px := 0; py := 0 |};
     PDFViewer.selection := Some whole_page;
     PDFViewer.selectedText := "" |}.

(** A drag towards the upper left: the anchor is (300, 200), the cursor
    ends at (110, 50) on a canvas whose corner is at (10, 10). *)
Definition canvas : ClientRect := {| rect_left := 10; rect_top := 10 |}.

Definition anchor : Point := {| px := 300; py := 200 |}.

Definition move : MouseEvent := {| clientX := 120; clientY := 60 |}.

(** A server with an OpenAI client only. *)
Definition clients : Server.Clients :=
  {| Server.openai := true; Server.anthropic := false |}.

Definition backend : Server.Backend :=
  fun adapter _ _ =>
    match adapter with
    | Server.OpenAIAdapter =>
        Server.Returned {| Server.answer := "42"; Server.source := "GPT-4 Turbo" |}
    | Server.AnthropicAdapter =>
        Server.Returned {| Server.answer := "42"; Server.source := "Claude 3 Sonnet" |}
    | Server.FallbackAdapter =>
        Server.Returned {| Server.answer := "demo"; Server.source := "Demo Mode" |}
    end.

(** A backend that fails whenever it is called. *)
Definition failing_backend : Server.Backend :=
  fun _ _ _ => Server.Threw (Some "rate limit reached").

Definition request : Server.RequestBody :=
  {| Server.context := Some "The total is 42.";
     Server.question := Some "What is the total?";
     Server.model := Some "anthropic" |}.

Definition empty_state : Server.State :=
  {| Server.responseCache := ∅; Server.calls := [] |}.

Fixpoint repeat_char (c : ascii) (n : nat) : string :=
  match n with
  | O => EmptyString
  | S n' => String c (repeat_char c n')
  end.

(** A context of 10,001 characters. *)
Definition long_context : string := repeat_char "a" (Z.to_nat 10001).

(** A body whose context is the number 5. *)
Definition number_request : Server.JsonBody :=
  {| Server.json_context := Some (Server.NonString true (Some false) (Some "5"));
     Server.json_question := Some (Server.Str "what");
     Server.json_model := None |}.




(** The embedder as the feature-extraction pipeline gives it: [data] is a
    flat array of numbers, so that [data[0]] is a number. *)
Definition flat_embedder : StandaloneAsk.Embedder :=
  fun _ => Some StandaloneAsk.NotArray.

Definition flat_index : list StandaloneAsk.VectorEntry :=
  [ {| StandaloneAsk.text := "budget report";
       StandaloneAsk.embedding := StandaloneAsk.NotArray |} ].

End Examples.

(* ===================================================================== *)
(** * Properties *)

(** ** Facts about numbers *)

Section NumberFacts.
Import JS.

Lemma Prim2SF_not_nan (x : float) :
  is_nan x = false -> Prim2SF x <> S754_nan.
Proof.
  unfold is_nan. rewrite FloatAxioms.eqb_spec. intros H E. rewrite E in H. discriminate.
Qed.

Lemma is_zero_cases (x : float) :
  is_zero x = true -> x = 0%float \/ x = (-0)%float.
Proof.
  unfold is_zero. rewrite FloatAxioms.eqb_spec.
  change (Prim2SF zero) with (S754_zero false).
  intros H. rewrite <- (SF2Prim_Prim2SF x).
  destruct (Prim2SF x) as [[|]| [|] | | [|] m e]; simpl in H; try discriminate.
  - now right.
  - now left.
Qed.


Lemma is_zero_not_truthy (x : float) : is_zero x = true -> truthy x = false.
Proof. unfold truthy. now intros ->. Qed.






Lemma SFcompare_antisym (x y : spec_float) :
  SFcompare y x = option_map CompOpp (SFcompare x y).
Proof.
  destruct x as [[|]| [|] | | [|] m e], y as [[|]| [|] | | [|] m' e'];
    try reflexivity; cbn [SFcompare option_map];
    change (Pos.compare_cont Eq m' m) with (Pos.compare m' m);
    change (Pos.compare_cont Eq m m') with (Pos.compare m m');
    rewrite (Z.compare_antisym e e'), (Pos.compare_antisym m m');
    destruct (e ?= e')%Z, (m ?= m')%positive; reflexivity.
Qed.

Lemma SFcompare_refl (x : spec_float) :
  x <> S754_nan -> SFcompare x x = Some Eq.
Proof.
  destruct x as [[|]| [|] | | [|] m e]; try reflexivity; try congruence;
    intros _; simpl; rewrite Z.compare_refl;
    change (Pos.compare_cont Eq m m) with (Pos.compare m m);
    now rewrite Pos.compare_refl.
Qed.

Lemma ltb_leb (a b : float) : (a <? b)%float = true -> (a <=? b)%float = true.
Proof.
  rewrite FloatAxioms.ltb_spec, FloatAxioms.leb_spec. unfold SFltb, SFleb.
  now destruct (SFcompare (Prim2SF a) (Prim2SF b)) as [[| |]|].
Qed.

Lemma leb_total (a b : float) :
  is_nan a = false -> is_nan b = false ->
  (a <? b)%float = false -> (b <=? a)%float = true.
Proof.
  intros Ha Hb. apply Prim2SF_not_nan in Ha, Hb. revert Ha Hb.
  rewrite FloatAxioms.ltb_spec, FloatAxioms.leb_spec. unfold SFltb, SFleb.
  rewrite (SFcompare_antisym (Prim2SF a) (Prim2SF b)).
  destruct (SFcompare (Prim2SF a) (Prim2SF b)) as [[| |]|] eqn:E; simpl;
    try congruence.
  destruct (Prim2SF a) as [[|]| [|] | | [|] m e],
           (Prim2SF b) as [[|]| [|] | | [|] m' e']; simpl in E; congruence.
Qed.

Lemma leb_refl (a : float) : is_nan a = false -> (a <=? a)%float = true.
Proof.
  intros Ha. apply Prim2SF_not_nan in Ha.
  rewrite FloatAxioms.leb_spec. unfold SFleb. now rewrite SFcompare_refl.
Qed.

(** [Math.abs] never gives a negative number, and gives a number that is at
    least zero unless its argument is NaN. *)
Lemma Math_abs_not_negative (z : float) : (Math_abs z <? 0)%float = false.
Proof.
  unfold Math_abs. rewrite FloatAxioms.ltb_spec, FloatAxioms.abs_spec.
  change (Prim2SF 0) with (S754_zero false).
  now destruct (Prim2SF z) as [[|]| [|] | | [|] m e].
Qed.

Lemma Math_abs_nonneg (z : float) :
  is_nan z = false -> (0 <=? Math_abs z)%float = true.
Proof.
  intros Hz. apply Prim2SF_not_nan in Hz. revert Hz.
  unfold Math_abs. rewrite FloatAxioms.leb_spec, FloatAxioms.abs_spec.
  change (Prim2SF 0) with (S754_zero false).
  destruct (Prim2SF z) as [[|]| [|] | | [|] m e];
    cbv [SFleb SFcompare SFabs]; congruence.
Qed.

(** For numbers [a] and [b], [Math.min(a, b)] is one of them and is at most
    each of them. *)
Lemma Math_min_spec (a b : float) :
  is_nan a = false -> is_nan b = false ->
  (Math_min a b <=? a)%float = true /\
  (Math_min a b <=? b)%float = true /\
  (Math_min a b = a \/ Math_min a b = b).
Proof.
  intros Ha Hb. unfold Math_min. rewrite Ha, Hb. simpl orb. cbv iota.
  destruct (a <? b)%float eqn:Hab.
  - repeat split; [now apply leb_refl | now apply ltb_leb | now left].
  - destruct (b <? a)%float eqn:Hba.
    + repeat split; [now apply ltb_leb | now apply leb_refl | now right].
    + destruct (is_neg_zero a).
      * repeat split; [now apply leb_refl | now apply leb_total | now left].
      * repeat split; [now apply leb_total | now apply leb_refl | now right].
Qed.

(** Subtraction gives NaN only for a NaN operand or for two infinities. *)
Lemma iter_pos_inv {A : Type} (P : A -> Prop) (f : A -> A) :
  (forall x, P x -> P (f x)) -> forall p x, P x -> P (SpecFloat.iter_pos f p x).
Proof.
  intros Hf. induction p as [p IH|p IH|]; intros x Hx; simpl; auto.
Qed.

Lemma shr_1_nonneg mrs : (0 <= shr_m mrs)%Z -> (0 <= shr_m (shr_1 mrs))%Z.
Proof.
  destruct mrs as [m r s]. simpl.
  destruct m as [|[p|p|]|[p|p|]]; simpl; lia.
Qed.

Lemma shr_nonneg mrs e n :
  (0 <= shr_m mrs)%Z -> (0 <= shr_m (fst (shr mrs e n)))%Z.
Proof.
  intros H. destruct n as [|p|p]; simpl; try assumption.
  now apply (iter_pos_inv (fun x => (0 <= shr_m x)%Z)); [apply shr_1_nonneg|].
Qed.

Lemma shr_fexp_nonneg pr em m e l :
  (0 <= m)%Z -> (0 <= shr_m (fst (shr_fexp pr em m e l)))%Z.
Proof.
  intros H. unfold shr_fexp. apply shr_nonneg.
  now destruct l as [|[| |]].
Qed.

Lemma round_nearest_even_nonneg m l :
  (0 <= m)%Z -> (0 <= round_nearest_even m l)%Z.
Proof.
  intros H. destruct l as [|[| |]]; simpl; try lia.
  destruct (Z.even m); lia.
Qed.

Lemma binary_round_aux_not_nan pr em sx mx ex lx :
  (0 <= mx)%Z -> binary_round_aux pr em sx mx ex lx <> S754_nan.
Proof.
  intros H. unfold binary_round_aux.
  pose proof (shr_fexp_nonneg pr em mx ex lx H) as H1.
  destruct (shr_fexp pr em mx ex lx) as [mrs' e']. simpl in H1.
  pose proof (shr_fexp_nonneg pr em _ e' loc_Exact
                (round_nearest_even_nonneg _ (loc_of_shr_record mrs') H1)) as H2.
  destruct (shr_fexp pr em
              (round_nearest_even (shr_m mrs') (loc_of_shr_record mrs'))
              e' loc_Exact) as [mrs'' e''].
  simpl in H2.
  destruct (shr_m mrs'') as [|p|p]; try discriminate; [|lia].
  destruct (e'' <=? em - pr)%Z; discriminate.
Qed.

Lemma binary_normalize_not_nan pr em m e sz :
  binary_normalize pr em m e sz <> S754_nan.
Proof.
  destruct m as [|p|p]; simpl; try discriminate;
    unfold binary_round; destruct (shl_align _ _ _) as [mz ez];
    now apply binary_round_aux_not_nan.
Qed.

Lemma SFsub_not_nan pr em x y :
  x <> S754_nan -> Spec.SF_is_finite y = true -> SFsub pr em x y <> S754_nan.
Proof.
  intros Hx Hy.
  destruct x as [[|]| [|] | | sx mx ex], y as [[|]| [|] | | sy my ey];
    try discriminate; try congruence; simpl;
    apply binary_normalize_not_nan.
Qed.

Lemma is_finite_SF (x : float) :
  is_finite x = true -> Spec.SF_is_finite (Prim2SF x) = true.
Proof.
  unfold is_finite, is_nan, is_infinity.
  rewrite !FloatAxioms.eqb_spec, FloatAxioms.abs_spec.
  change (Prim2SF infinity) with (S754_infinity false).
  destruct (Prim2SF x) as [[|]| [|] | | sx mx ex];
    cbv [SFabs SFeqb SFcompare Spec.SF_is_finite]; try reflexivity;
    simpl; discriminate.
Qed.

Lemma is_finite_not_nan (x : float) : is_finite x = true -> is_nan x = false.
Proof.
  unfold is_finite. intros H. apply negb_true_iff, orb_false_iff in H. tauto.
Qed.

Lemma is_nan_SF (x : float) : Prim2SF x <> S754_nan -> is_nan x = false.
Proof.
  intros H. unfold is_nan. rewrite FloatAxioms.eqb_spec. unfold SFeqb.
  now rewrite SFcompare_refl.
Qed.

Lemma sub_not_nan (a b : float) :
  is_nan a = false -> is_finite b = true -> is_nan (a - b) = false.
Proof.
  intros Ha Hb. apply is_nan_SF. rewrite FloatAxioms.sub_spec.
  apply SFsub_not_nan; [now apply Prim2SF_not_nan | now apply is_finite_SF].
Qed.

End NumberFacts.

(** ** Cosine similarity *)

Section CosineFacts.
Import JS Ranker.

Lemma cosineSimilarity_unfold (u v : list float) :
  cosineSimilarity u v =
  if truthy (magnitude u) && truthy (magnitude v)
  then (dot u v / (magnitude u * magnitude v))%float
  else 0%float.
Proof. reflexivity. Qed.

Lemma sum_squares_zero (v : list float) (i : nat) :
  forallb is_zero v = true ->
  reduce_from (fun sum a (_ : nat) => (sum + a * a)%float) i v 0%float = 0%float.
Proof.
  revert i. induction v as [|a v IH]; intros i H; simpl in *; [reflexivity|].
  apply andb_true_iff in H as [Ha Hv].
  destruct (is_zero_cases a Ha) as [-> | ->];
    (change (0 + 0 * 0)%float with 0%float ||
     change (0 + -0 * -0)%float with 0%float); now apply IH.
Qed.

Lemma magnitude_zero (v : list float) :
  forallb is_zero v = true -> magnitude v = 0%float.
Proof.
  intros H. unfold magnitude, reduce. now rewrite sum_squares_zero.
Qed.

Lemma cosineSimilarity_not_truthy (u v : list float) :
  truthy (magnitude u) = false \/ truthy (magnitude v) = false ->
  cosineSimilarity u v = 0%float.
Proof.
  rewrite cosineSimilarity_unfold.
  intros [-> | ->]; [reflexivity | now rewrite andb_false_r].
Qed.

(** C6.  For vectors [u] and [v] of equal length, [cosineSimilarity u v] is
    [dot u v / (|u| * |v|)] when both magnitudes are numbers other than zero;
    it is the number [0], which is not NaN, when either magnitude is zero;
    in particular it is [0] when either vector consists of zeros only.  The
    function is total, so it returns in every case. *)
Theorem cosineSimilarity_spec (u v : list float) :
  length u = length v ->
  (truthy (magnitude u) = true -> truthy (magnitude v) = true ->
   cosineSimilarity u v = (dot u v / (magnitude u * magnitude v))%float) /\
  (is_zero (magnitude u) = true \/ is_zero (magnitude v) = true ->
   cosineSimilarity u v = 0%float /\ is_nan (cosineSimilarity u v) = false) /\
  (forallb is_zero u = true \/ forallb is_zero v = true ->
   cosineSimilarity u v = 0%float).
Proof.
  intros _. repeat split.
  - intros Hu Hv. rewrite cosineSimilarity_unfold, Hu, Hv. reflexivity.
  - apply cosineSimilarity_not_truthy.
    destruct H; [left | right]; now apply is_zero_not_truthy.
  - rewrite cosineSimilarity_not_truthy; [reflexivity|].
    destruct H; [left | right]; now apply is_zero_not_truthy.
  - intros H. apply cosineSimilarity_not_truthy.
    destruct H as [H|H]; [left | right]; now rewrite (magnitude_zero _ H).
Qed.

Lemma cosineSimilarity_spec_witness :
  cosineSimilarity [3; 4]%float [4; 3]%float = (24 / (5 * 5))%float /\
  cosineSimilarity [3; 4]%float [0; 0]%float = 0%float.
Proof.
  destruct (cosineSimilarity_spec [3; 4]%float [4; 3]%float eq_refl) as (H & _).
  destruct (cosineSimilarity_spec [3; 4]%float [0; 0]%float eq_refl) as (_ & _ & H0).
  split.
  - exact (H eq_refl eq_refl).
  - apply H0. right. reflexivity.
Defined.

End CosineFacts.

(** ** Arrays and objects *)

Section ArrayFacts.
Context {A : Type}.

Lemma sort_insert_In (comparefn : A -> A -> float) (x y : A) (l : list A) :
  In y (JS.sort_insert comparefn x l) <-> y = x \/ In y l.
Proof.
  induction l as [|h t IH]; simpl.
  - intuition.
  - destruct (0 <? comparefn h x)%float; simpl; rewrite ?IH; intuition.
Qed.

Lemma sort_from_In (comparefn : A -> A -> float) (y : A) (l acc : list A) :
  In y (fold_left (fun sorted x => JS.sort_insert comparefn x sorted) l acc)
  <-> In y l \/ In y acc.
Proof.
  revert acc. induction l as [|x l IH]; intros acc; simpl.
  - intuition.
  - rewrite IH, sort_insert_In. intuition.
Qed.

Lemma sort_insert_Permutation (comparefn : A -> A -> float) (x : A) (l : list A) :
  Permutation (x :: l) (JS.sort_insert comparefn x l).
Proof.
  induction l as [|h t IH]; simpl; [reflexivity|].
  destruct (0 <? comparefn h x)%float; [reflexivity|].
  rewrite perm_swap. now apply perm_skip.
Qed.

Lemma sort_from_Permutation (comparefn : A -> A -> float) (l acc : list A) :
  Permutation (l ++ acc)
    (fold_left (fun sorted x => JS.sort_insert comparefn x sorted) l acc).
Proof.
  revert acc. induction l as [|x l IH]; intros acc; simpl; [reflexivity|].
  rewrite <- IH. rewrite <- sort_insert_Permutation.
  apply Permutation_middle.
Qed.

(** Sorting rearranges the array: nothing is dropped, repeated or invented. *)
Lemma sort_Permutation (comparefn : A -> A -> float) (l : list A) :
  Permutation l (JS.sort comparefn l).
Proof.
  unfold JS.sort. rewrite <- sort_from_Permutation. now rewrite app_nil_r.
Qed.

(** Sorting neither drops nor invents elements. *)
Lemma sort_In (comparefn : A -> A -> float) (y : A) (l : list A) :
  In y (JS.sort comparefn l) <-> In y l.
Proof. unfold JS.sort. rewrite sort_from_In. simpl. intuition. Qed.

End ArrayFacts.

Section ObjectFacts.
Import JSObject.


Lemma get_put_other k k' v o : k <> k' -> get k' (put k v o) = get k' o.
Proof.
  intros Hne. induction o as [|[k0 v0] o IH]; simpl.
  - destruct (String.eqb_spec k' k); congruence.
  - destruct (String.eqb_spec k k0) as [->|]; simpl.
    + destruct (String.eqb_spec k' k0); congruence.
    + now rewrite IH.
Qed.


Lemma get_set_other k k' v o : k <> k' -> get k' (set k v o) = get k' o.
Proof.
  intros H. unfold set. destruct (String.eqb k "__proto__"); [reflexivity|].
  now apply get_put_other.
Qed.

Lemma put_keys k v o k' :
  In k' (map fst (put k v o)) <-> k' = k \/ In k' (map fst o).
Proof.
  induction o as [|[k0 v0] o IH]; simpl.
  - intuition.
  - destruct (String.eqb_spec k k0) as [->|]; simpl; rewrite ?IH; intuition.
Qed.

Lemma put_NoDup k v o : List.NoDup (map fst o) -> List.NoDup (map fst (put k v o)).
Proof.
  induction o as [|[k0 v0] o IH]; simpl; intros H.
  - constructor; [intros [] | constructor].
  - inversion H as [|? ? Hnotin Hrest]; subst.
    destruct (String.eqb_spec k k0) as [->|Hne]; simpl.
    + now constructor.
    + constructor; [|now apply IH].
      rewrite put_keys. intros [->|Hin]; congruence.
Qed.

Lemma set_NoDup k v o : List.NoDup (map fst o) -> List.NoDup (map fst (set k v o)).
Proof.
  unfold set. destruct (String.eqb k "__proto__"); [trivial | apply put_NoDup].
Qed.

Lemma set_keys k v o k' :
  In k' (map fst (set k v o)) -> k' = k \/ In k' (map fst o).
Proof.
  unfold set. destruct (String.eqb k "__proto__"); [now right | apply put_keys].
Qed.

Lemma get_In k v o : get k o = Some v -> In (k, v) o.
Proof.
  induction o as [|[k0 v0] o IH]; simpl; [discriminate|].
  destruct (String.eqb_spec k k0) as [->|]; intros H.
  - left. congruence.
  - right. now apply IH.
Qed.

Lemma In_get k v o : List.NoDup (map fst o) -> In (k, v) o -> get k o = Some v.
Proof.
  induction o as [|[k0 v0] o IH]; simpl; intros Hnd Hin; [contradiction|].
  inversion Hnd as [|? ? Hnotin Hrest]; subst.
  destruct Hin as [Heq|Hin].
  - inversion Heq; subst. now rewrite String.eqb_refl.
  - destruct (String.eqb_spec k k0) as [->|].
    + exfalso. apply Hnotin. now apply (in_map fst) in Hin.
    + now apply IH.
Qed.

Lemma insert_index_In e x l : In x (insert_index e l) <-> x = e \/ In x l.
Proof.
  induction l as [|h t IH]; simpl.
  - intuition.
  - destruct (fst e <? fst h)%N; simpl; rewrite ?IH; intuition.
Qed.

Lemma sorted_index_In x l : In x (fold_right insert_index [] l) <-> In x l.
Proof.
  induction l as [|h t IH]; simpl; [reflexivity|].
  rewrite insert_index_In, IH. intuition.
Qed.

(** [Object.entries] lists exactly the own properties. *)
Lemma entries_In kv o : In kv (entries o) <-> In kv o.
Proof.
  unfold entries. rewrite in_app_iff, in_map_iff, filter_In.
  unfold index_entries, is_index_key. split.
  - intros [((n & kv') & Hsnd & Hin) | [Hin _]]; [|assumption].
    simpl in Hsnd. subst kv'.
    apply sorted_index_In, in_flat_map in Hin as (kv' & Hin & Hk).
    destruct (array_index (fst kv')); [|contradiction].
    destruct Hk as [Hk|[]]. now inversion Hk; subst.
  - intros Hin. destruct (array_index (fst kv)) as [n|] eqn:E.
    + left. exists (n, kv). split; [reflexivity|].
      apply sorted_index_In, in_flat_map. exists kv. split; [assumption|].
      rewrite E. now left.
    + right. now split.
Qed.

End ObjectFacts.

(** ** The ranker *)

Section RankerFacts.
Import JS JSObject Ranker.

Lemma truthy_string_iff (s : string) : JSString.truthy s = true <-> s <> "".
Proof.
  unfold JSString.truthy. destruct (String.eqb_spec s ""); simpl; split;
    congruence.
Qed.

Lemma pickSupplements_length pe es acc :
  length (pickSupplements pe es acc) <= Nat.max 3 (length acc).
Proof.
  revert acc. induction es as [|e es IH]; intros acc; cbn [pickSupplements]; [lia|].
  destruct (3 <=? length acc) eqn:E; [lia|].
  apply Nat.leb_gt in E.
  destruct (JSString.truthy pe && String.eqb (fst e) pe).
  - apply IH.
  - specialize (IH (acc ++ [fst e])). rewrite length_app in IH. simpl in IH. lia.
Qed.

Lemma pickSupplements_In pe es acc x :
  In x (pickSupplements pe es acc) ->
  In x acc \/
  (In x (map fst es) /\ (JSString.truthy pe && String.eqb x pe = false)).
Proof.
  revert acc. induction es as [|e es IH]; intros acc H;
    cbn [pickSupplements] in H; [now left|].
  destruct (3 <=? length acc); [now left|].
  destruct (JSString.truthy pe && String.eqb (fst e) pe) eqn:E.
  - destruct (IH _ H) as [?|[? ?]]; [now left | right; simpl; auto].
  - destruct (IH _ H) as [Hin|[? ?]]; [|right; simpl; auto].
    apply in_app_iff in Hin as [Hin|[<-|[]]]; [now left|].
    right. simpl. auto.
Qed.

Lemma seedScores_NoDup scored o :
  List.NoDup (map fst o) -> List.NoDup (map fst (seedScores o scored)).
Proof.
  revert o. induction scored as [|ts scored IH]; intros o H; simpl; [assumption|].
  apply IH. now apply set_NoDup.
Qed.

Lemma mergeScores_NoDup scored o :
  List.NoDup (map fst o) -> List.NoDup (map fst (mergeScores o scored)).
Proof.
  revert o. induction scored as [|ts scored IH]; intros o H; simpl; [assumption|].
  apply IH. now apply set_NoDup.
Qed.

Lemma seedScores_keys scored o k :
  In k (map fst (seedScores o scored)) ->
  In k (map fst scored) \/ In k (map fst o).
Proof.
  revert o. induction scored as [|ts scored IH]; intros o; simpl; [now right|].
  intros H. destruct (IH _ H) as [?|Hin]; [now left; right|].
  apply set_keys in Hin as [->|?]; [left; now left | now right].
Qed.

Lemma mergeScores_keys scored o k :
  In k (map fst (mergeScores o scored)) ->
  In k (map fst scored) \/ In k (map fst o).
Proof.
  revert o. induction scored as [|ts scored IH]; intros o; simpl; [now right|].
  intros H. destruct (IH _ H) as [?|Hin]; [now left; right|].
  apply set_keys in Hin as [->|?]; [left; now left | now right].
Qed.

Lemma seedScores_get_other scored o k :
  ~ In k (map fst scored) -> get k (seedScores o scored) = get k o.
Proof.
  revert o. induction scored as [|[t s] scored IH]; intros o H; simpl in *;
    [reflexivity|].
  rewrite IH by tauto. apply get_set_other. tauto.
Qed.

Lemma mergeScores_get_other scored o k :
  ~ In k (map fst scored) -> get k (mergeScores o scored) = get k o.
Proof.
  revert o. induction scored as [|[t s] scored IH]; intros o H; simpl in *;
    [reflexivity|].
  rewrite IH by tauto. apply get_set_other. tauto.
Qed.

Lemma scoreBy_keys vec db : map fst (scoreBy vec db) = map text db.
Proof. unfold scoreBy. rewrite map_map. reflexivity. Qed.

Lemma scoreBy_In vec db e :
  In e db -> In (text e, cosineSimilarity vec (embedding e)) (scoreBy vec db).
Proof.
  intros H. unfold scoreBy.
  now apply (in_map (fun e => (text e, cosineSimilarity vec (embedding e)))).
Qed.

Lemma combinedScores_NoDup embedder db question pe :
  List.NoDup (map fst (combinedScores embedder db question pe)).
Proof.
  unfold combinedScores. destruct (JSString.truthy pe).
  - apply mergeScores_NoDup, seedScores_NoDup. constructor.
  - apply seedScores_NoDup. constructor.
Qed.

Lemma combinedScores_keys embedder db question pe k :
  In k (map fst (combinedScores embedder db question pe)) -> In k (map text db).
Proof.
  unfold combinedScores. destruct (JSString.truthy pe); intros H.
  - apply mergeScores_keys in H as [H|H]; [now rewrite scoreBy_keys in H|].
    apply seedScores_keys in H as [H|[]]. now rewrite scoreBy_keys in H.
  - apply seedScores_keys in H as [H|[]]. now rewrite scoreBy_keys in H.
Qed.

Lemma combinedArray_In embedder db question pe k s :
  In (k, s) (combinedArray embedder db question pe) <->
  get k (combinedScores embedder db question pe) = Some s.
Proof.
  unfold combinedArray. rewrite sort_In, entries_In. split.
  - apply In_get, combinedScores_NoDup.
  - apply get_In.
Qed.

(** C1.  Whatever the index, the question, the excerpt and the embedder, the
    supplements are at most 3, each is the text of a chunk of the index, and
    when the primary excerpt is not empty none of them is the excerpt itself,
    wherever the chunk equal to the excerpt stands in the ranking. *)
Theorem supplements_bounded_without_excerpt
    (embedder : option Embedder) (vectorDB : list VectorEntry)
    (question extractedText : string) :
  let primaryExcerpt := JSString.trim extractedText in
  let result := supplements embedder vectorDB question extractedText in
  length result <= 3 /\
  (forall t, In t result -> In t (map text vectorDB)) /\
  (primaryExcerpt <> "" -> ~ In primaryExcerpt result).
Proof.
  intros pe result. subst result. unfold supplements. fold pe.
  destruct embedder as [emb|]; [|simpl; repeat split; (lia || tauto)].
  destruct (0 <? length vectorDB); [|simpl; repeat split; (lia || tauto)].
  repeat split.
  - pose proof (pickSupplements_length pe (combinedArray emb vectorDB question pe) []).
    simpl in *. lia.
  - intros t Ht. apply pickSupplements_In in Ht as [[]|[Ht _]].
    apply in_map_iff in Ht as ([k s] & <- & Hks). simpl.
    apply combinedArray_In, get_In in Hks.
    apply (combinedScores_keys emb vectorDB question pe).
    now apply (in_map fst) in Hks.
  - intros Hpe Hin. apply pickSupplements_In in Hin as [[]|[_ Hne]].
    apply truthy_string_iff in Hpe. rewrite Hpe, String.eqb_refl in Hne.
    discriminate.
Qed.

(** In [Examples.vectorDB] the chunk equal to the excerpt has the highest
    final score and is passed over. *)
Lemma supplements_bounded_without_excerpt_witness :
  hd_error (combinedArray Examples.embedder Examples.vectorDB
              "what is the total?" "budget report")
    = Some ("budget report", 1.1%float) /\
  supplements (Some Examples.embedder) Examples.vectorDB
    "what is the total?" " budget report "
    = ["index of terms"; "totals by quarter"; "glossary"] /\
  ~ In "budget report"
      (supplements (Some Examples.embedder) Examples.vectorDB
         "what is the total?" " budget report ").
Proof.
  destruct (supplements_bounded_without_excerpt (Some Examples.embedder)
              Examples.vectorDB "what is the total?" " budget report ")
    as (_ & _ & Hno).
  repeat split; [apply Hno; discriminate].
Defined.

End RankerFacts.

Section StringFacts.
Import JSString Spec.

Lemma append_nil_l (t : string) : "" +:+ t = t.
Proof. reflexivity. Qed.

Lemma append_cons (c : ascii) (s t : string) :
  String c s +:+ t = String c (s +:+ t).
Proof. reflexivity. Qed.

Ltac unfold_append := rewrite ?append_cons, ?append_nil_l.

Lemma append_assoc3 (a b c : string) : (a +:+ b) +:+ c = a +:+ (b +:+ c).
Proof.
  induction a as [|x a IH]; unfold_append; [reflexivity | now rewrite IH].
Qed.

Lemma split_nonempty sep s : split sep s <> [].
Proof.
  destruct s as [|c s]; simpl; [discriminate|].
  destruct (Ascii.eqb c sep); [discriminate|].
  destruct (split sep s); discriminate.
Qed.

Lemma join_cons sep p rest :
  rest <> [] -> join sep (p :: rest) = p +:+ sep +:+ join sep rest.
Proof. destruct rest; [congruence | reflexivity]. Qed.

Lemma join_split sep s : join (String sep "") (split sep s) = s.
Proof.
  induction s as [|c s IH]; [reflexivity|].
  simpl split. destruct (Ascii.eqb_spec c sep) as [->|Hne].
  - rewrite join_cons by apply split_nonempty.
    unfold_append. now rewrite IH.
  - pose proof (split_nonempty sep s) as Hs.
    destruct (split sep s) as [|w ws] eqn:E; [congruence|].
    destruct ws as [|w' ws].
    + simpl in *. now rewrite IH.
    + rewrite join_cons by discriminate.
      rewrite join_cons in IH by discriminate.
      rewrite ?append_cons, ?append_nil_l in IH.
      unfold_append. now rewrite IH.
Qed.

Lemma join_app sep (a b : list string) :
  a <> [] -> b <> [] ->
  join sep (a ++ b) = join sep a +:+ sep +:+ join sep b.
Proof.
  induction a as [|x a IH]; intros Ha Hb; [congruence|].
  destruct a as [|y a].
  - simpl app. now rewrite join_cons.
  - change ((x :: y :: a) ++ b) with (x :: ((y :: a) ++ b)).
    rewrite join_cons by (simpl; discriminate).
    rewrite IH by (assumption || discriminate).
    rewrite (join_cons sep x (y :: a)) by discriminate.
    now rewrite !append_assoc3.
Qed.

Lemma join_concat sep (gs : list (list string)) :
  Forall (fun g => g <> []) gs ->
  join sep (map (join sep) gs) = join sep (concat gs).
Proof.
  induction 1 as [|g gs Hg Hgs IH]; [reflexivity|].
  destruct gs as [|g' gs'].
  - simpl. now rewrite app_nil_r.
  - simpl concat. rewrite join_app.
    + simpl map in *. rewrite join_cons by discriminate. now rewrite IH.
    + assumption.
    + inversion Hgs; subst. destruct g'; [congruence | discriminate].
Qed.

Lemma split_words_no_sep sep s :
  Forall (fun w => contains_char sep w = false) (split sep s).
Proof.
  induction s as [|c s IH]; simpl.
  - now constructor.
  - destruct (Ascii.eqb c sep) eqn:E.
    + now constructor.
    + destruct (split sep s) as [|w ws]; constructor.
      * simpl. now rewrite E.
      * constructor.
      * inversion IH; subst. simpl. now rewrite E.
      * now inversion IH.
Qed.

Lemma split_no_sep sep w :
  contains_char sep w = false -> split sep w = [w].
Proof.
  induction w as [|c w IH]; simpl; [reflexivity|].
  intros H. apply orb_false_iff in H as [Hc Hw].
  rewrite Hc, (IH Hw). reflexivity.
Qed.

Lemma split_append_sep sep w rest :
  contains_char sep w = false ->
  split sep (w +:+ String sep rest) = w :: split sep rest.
Proof.
  induction w as [|c w IH]; unfold_append; simpl.
  - now rewrite Ascii.eqb_refl.
  - intros H. apply orb_false_iff in H as [Hc Hw].
    now rewrite Hc, (IH Hw).
Qed.

Lemma split_join sep (g : list string) :
  g <> [] -> Forall (fun w => contains_char sep w = false) g ->
  split sep (join (String sep "") g) = g.
Proof.
  induction g as [|w g IH]; intros Hne Hall; [congruence|].
  inversion Hall as [|? ? Hw Hg]; subst.
  destruct g as [|w' g].
  - simpl. now apply split_no_sep.
  - rewrite join_cons by discriminate.
    change (w +:+ String sep "" +:+ join (String sep "") (w' :: g))
      with (w +:+ String sep (join (String sep "") (w' :: g))).
    rewrite split_append_sep by assumption.
    now rewrite IH by (assumption || discriminate).
Qed.

End StringFacts.

Section ChunkerFacts.
Import JSString Chunker Spec.

Lemma chunk_step_inv size seen st w :
  chunk_inv seen st -> chunk_inv (seen ++ [w]) (chunk_step size st w).
Proof.
  intros (groups & Hch & Hne & Hcat). unfold chunk_step.
  destruct (size <=? String.length (join " " (snd st ++ [w]))).
  - exists (groups ++ [snd st ++ [w]]). simpl. repeat split.
    + now rewrite Hch, map_app.
    + apply Forall_app; split; [assumption|].
      constructor; [|constructor]. now destruct (snd st).
    + rewrite concat_app. simpl. rewrite !app_nil_r, app_assoc. now rewrite Hcat.
  - exists groups. simpl. repeat split; try assumption.
    rewrite app_assoc. now rewrite Hcat.
Qed.

Lemma chunk_loop_inv size words seen st :
  chunk_inv seen st ->
  chunk_inv (seen ++ words) (fold_left (chunk_step size) words st).
Proof.
  revert seen st. induction words as [|w words IH]; intros seen st H; simpl.
  - now rewrite app_nil_r.
  - replace (seen ++ w :: words) with ((seen ++ [w]) ++ words)
      by (now rewrite <- app_assoc).
    apply IH. now apply chunk_step_inv.
Qed.

(** The chunks are the joins of the groups of a partition of the word
    sequence into non-empty runs of consecutive words. *)
Lemma chunkText_groups text size :
  exists groups : list (list string),
    chunkText text size = map (join " ") groups /\
    Forall (fun g => g <> []) groups /\
    concat groups = split " " text.
Proof.
  unfold chunkText.
  destruct (chunk_loop_inv size (split " " text) [] ([], []))
    as (groups & Hch & Hne & Hcat).
  { exists []. repeat split; constructor. }
  simpl app in Hcat.
  destruct (snd (fold_left (chunk_step size) (split " " text) ([], [])))
    as [|w chunk] eqn:E; simpl.
  - exists groups. rewrite app_nil_r in Hcat. now repeat split.
  - exists (groups ++ [w :: chunk]). repeat split.
    + now rewrite Hch, map_app.
    + apply Forall_app; split; [assumption|]. constructor; [discriminate|constructor].
    + rewrite concat_app. simpl. now rewrite app_nil_r.
Qed.

Lemma concat_split_join (groups : list (list string)) :
  Forall (fun g => g <> []) groups ->
  Forall (fun w => contains_char " " w = false) (concat groups) ->
  concat (map (split " ") (map (join " ") groups)) = concat groups.
Proof.
  induction 1 as [|g groups Hg Hgs IH]; intros Hall; [reflexivity|].
  simpl in *. apply Forall_app in Hall as [Hg' Hrest].
  rewrite split_join by assumption. now rewrite IH.
Qed.

(** C2.  For every text, the chunks produced with target size 400, joined
    with a single space, are the text again; hence splitting the joined
    chunks gives the original word sequence, whether words are cut at every
    space, as [chunkText] cuts them, or at every run of white space.
    Moreover every chunk consists of whole words: the word sequences of the
    chunks, one after the other, are the original word sequence, so no
    chunk boundary lies inside a word and no word is lost or repeated. *)
Theorem chunkText_preserves_words (text : string) :
  let chunks := chunkText text 400 in
  join " " chunks = text /\
  split " " (join " " chunks) = split " " text /\
  white_space_words (join " " chunks) = white_space_words text /\
  concat (map (split " ") chunks) = split " " text.
Proof.
  intros chunks. subst chunks.
  destruct (chunkText_groups text 400) as (groups & Hch & Hne & Hcat).
  assert (Hjoin : join " " (chunkText text 400) = text).
  { rewrite Hch, join_concat by assumption. rewrite Hcat. apply join_split. }
  repeat split.
  - exact Hjoin.
  - now rewrite Hjoin.
  - now rewrite Hjoin.
  - rewrite Hch, concat_split_join; [assumption|assumption|].
    rewrite Hcat. apply split_words_no_sep.
Qed.

End ChunkerFacts.


(** ** Selection *)

Section SelectionFacts.
Import JS Spec.

Lemma normalized_drag (anchor cursor : Point) :
  finite_point anchor ->
  is_nan (px cursor) = false -> is_nan (py cursor) = false ->
  normalized (Math_min (px anchor) (px cursor)) (Math_min (py anchor) (py cursor))
    (Math_abs (px cursor - px anchor)) (Math_abs (py cursor - py anchor))
    anchor cursor.
Proof.
  intros [Hax Hay] Hcx Hcy. repeat split;
    try (apply Math_abs_nonneg, sub_not_nan; assumption);
    apply Math_min_spec; (assumption || now apply is_finite_not_nan).
Qed.

(** C10.  While a drag is in progress, every mouse-move event sets the
    selection rectangle to the normalized rectangle spanned by the drag
    anchor and the cursor: its width and height are at least zero and its
    origin is, coordinate by coordinate, the lesser of the two points, in
    whichever direction the cursor has moved.  This holds for
    [handleMouseMove] of the PDFViewer component and for [onMouseMove] of
    the standalone viewer, for finite coordinates of the event, of the
    canvas corner and of the anchor. *)
Theorem drag_selection_normalized
    (rect : ClientRect) (e : MouseEvent) (anchor : Point) :
  let cursor := {| px := (clientX e - rect_left rect)%float;
                   py := (clientY e - rect_top rect)%float |} in
  finite_event rect e -> finite_point anchor ->
  (forall st : PDFViewer.State,
     PDFViewer.isDragging st = true -> PDFViewer.dragStart st = anchor ->
     exists sel,
       PDFViewer.selection (PDFViewer.handleMouseMove (Some rect) e st) = Some sel /\
       normalized (PDFViewer.sel_x sel) (PDFViewer.sel_y sel)
         (PDFViewer.sel_width sel) (PDFViewer.sel_height sel) anchor cursor) /\
  (forall st : Standalone.State,
     Standalone.startPos st = Some anchor ->
     exists box,
       Standalone.selectionBox (Standalone.onMouseMove rect e st) = Some box /\
       normalized (Standalone.left box) (Standalone.top box)
         (Standalone.box_width box) (Standalone.box_height box) anchor cursor).
Proof.
  intros cursor (Hx & Hy & Hl & Ht) Ha.
  assert (Hcx : is_nan (px cursor) = false)
    by (apply sub_not_nan; [now apply is_finite_not_nan | assumption]).
  assert (Hcy : is_nan (py cursor) = false)
    by (apply sub_not_nan; [now apply is_finite_not_nan | assumption]).
  split.
  - intros st Hdrag Hstart. unfold PDFViewer.handleMouseMove.
    rewrite Hdrag, Hstart. simpl. eexists. split; [reflexivity|].
    simpl. now apply (normalized_drag anchor cursor).
  - intros st Hstart. unfold Standalone.onMouseMove. rewrite Hstart. simpl.
    eexists. split; [reflexivity|].
    simpl. now apply (normalized_drag anchor cursor).
Qed.

Lemma drag_selection_normalized_witness :
  exists sel,
    PDFViewer.selection
      (PDFViewer.handleMouseMove (Some Examples.canvas) Examples.move
         {| PDFViewer.isDragging := true; PDFViewer.dragStart := Examples.anchor;
            PDFViewer.selection := None; PDFViewer.selectedText := "" |})
    = Some sel /\
    (PDFViewer.sel_x sel, PDFViewer.sel_y sel,
     PDFViewer.sel_width sel, PDFViewer.sel_height sel)
    = (110, 50, 190, 150)%float /\
    normalized (PDFViewer.sel_x sel) (PDFViewer.sel_y sel)
      (PDFViewer.sel_width sel) (PDFViewer.sel_height sel)
      Examples.anchor {| px := 110; py := 50 |}.
Proof.
  destruct (drag_selection_normalized Examples.canvas Examples.move Examples.anchor)
    as [H _].
  - repeat split; reflexivity.
  - split; reflexivity.
  - destruct (H {| PDFViewer.isDragging := true;
                   PDFViewer.dragStart := Examples.anchor;
                   PDFViewer.selection := None;
                   PDFViewer.selectedText := "" |} eq_refl eq_refl)
      as (sel & Hsel & Hnorm).
    exists sel. repeat split; try apply Hnorm.
    all: cbv [PDFViewer.handleMouseMove PDFViewer.selection PDFViewer.isDragging negb] in Hsel;
      injection Hsel as <-; reflexivity.
Defined.

Lemma filter_keep_all {A : Type} (p : A -> bool) (l : list A) :
  List.filter (fun x => p x || true) l = l.
Proof.
  induction l as [|x l IH]; simpl; [reflexivity|].
  rewrite orb_true_r. now rewrite IH.
Qed.

Lemma filteredItems_cases (selected : list PDFViewer.SelectedItem) :
  PDFViewer.filteredItems selected =
  if (0.5 <? PDFViewer.headingRatio selected)%float || (length selected <=? 3)
  then selected
  else List.filter (fun item => negb (PDFViewer.isLargeHeading selected item))
         selected.
Proof.
  unfold PDFViewer.filteredItems.
  destruct ((0.5 <? PDFViewer.headingRatio selected)%float
            || (length selected <=? 3)) eqn:E.
  - rewrite <- (filter_keep_all
                  (fun item => negb (PDFViewer.isLargeHeading selected item))
                  selected) at 2.
    apply filter_ext. intros item. rewrite <- orb_assoc. now rewrite E.
  - apply filter_ext. intros item. rewrite <- orb_assoc, E. apply orb_false_r.
Qed.

(** [avgFontSize] is the average of the font sizes of the runs it is given. *)
Lemma avgFontSize_average (selected : list PDFViewer.SelectedItem) :
  PDFViewer.avgFontSize selected
  = Spec.average (map PDFViewer.fontSize selected).
Proof.
  assert (Hsum : forall (l : list PDFViewer.SelectedItem) (i : nat) (acc : float),
            JS.reduce_from
              (fun sum item (_ : nat) => (sum + PDFViewer.fontSize item)%float)
              i l acc
            = fold_left (fun sum x => (sum + x)%float)
                (map PDFViewer.fontSize l) acc).
  { induction l as [|item l IH]; intros i acc; [reflexivity|].
    cbn [JS.reduce_from map fold_left]. apply IH. }
  unfold PDFViewer.avgFontSize, Spec.average, JS.reduce.
  now rewrite length_map, Hsum.
Qed.

(** C4.  Let [kept] be the runs kept by the coverage test.  A kept run is a
    heading candidate exactly when its font size exceeds 1.5 times the
    average font size over all kept runs, which is what [avgFontSize] is:
    the sum of the font sizes of the kept runs divided by their number.
    When the ratio of heading candidates to kept runs exceeds 0.5, or at
    most 3 runs are kept, every kept run is retained; otherwise the retained
    runs are the kept runs that are not heading candidates, in the same
    order, so that every heading candidate is dropped. *)
Theorem heading_suppression
    (selection : PDFViewer.Selection) (viewport : PDFViewer.Viewport)
    (items : list PDFJS.TextItem) :
  let kept := PDFViewer.selectedItems selection viewport items in
  let retained := PDFViewer.filteredItems kept in
  let average := Spec.average (map PDFViewer.fontSize kept) in
  let keepAll :=
    (0.5 <? JS.of_nat (PDFViewer.headingCount kept) / JS.of_nat (length kept))%float
    || (length kept <=? 3) in
  PDFViewer.avgFontSize kept = average /\
  (forall run, PDFViewer.isLargeHeading kept run = true <->
               (average * 1.5 <? PDFViewer.fontSize run)%float = true) /\
  (forall run, PDFViewer.isLargeHeading kept run = true <->
               (PDFViewer.avgFontSize kept * 1.5 <? PDFViewer.fontSize run)%float = true) /\
  PDFViewer.headingCount kept
    = length (List.filter (PDFViewer.isLargeHeading kept) kept) /\
  (keepAll = true -> retained = kept) /\
  (keepAll = false ->
     retained = List.filter (fun run => negb (PDFViewer.isLargeHeading kept run)) kept /\
     forall run, In run retained <->
                 In run kept /\ PDFViewer.isLargeHeading kept run = false) /\
  PDFViewer.extractText selection viewport items
    = JSString.trim (JSString.join " " (map PDFViewer.item_str retained)).
Proof.
  intros kept retained average keepAll. subst retained average.
  pose proof (filteredItems_cases kept) as Hcases.
  fold (PDFViewer.headingRatio kept) in keepAll. fold keepAll in Hcases.
  split; [apply avgFontSize_average|].
  split; [intros run; unfold PDFViewer.isLargeHeading;
          now rewrite avgFontSize_average|].
  repeat split; try tauto.
  - intros H. now rewrite H in Hcases.
  - now rewrite H in Hcases.
  - rewrite Hcases, H in H0. apply filter_In in H0. tauto.
  - rewrite Hcases, H in H0. apply filter_In in H0.
    now apply negb_true_iff.
  - intros [Hin Hno]. rewrite Hcases, H. apply filter_In. split; [assumption|].
    now rewrite Hno.
Qed.

Lemma heading_suppression_witness :
  PDFViewer.avgFontSize
    (PDFViewer.selectedItems Examples.whole_page Examples.viewport
       Examples.title_page) = 12%float /\
  map PDFViewer.item_str
    (PDFViewer.filteredItems
       (PDFViewer.selectedItems Examples.whole_page Examples.viewport
          Examples.title_page))
  = ["one"; "two"; "three"; "four"] /\
  map PDFViewer.item_str
    (PDFViewer.filteredItems
       (PDFViewer.selectedItems Examples.whole_page Examples.viewport
          Examples.short_page))
  = ["Title"; "one"; "two"].
Proof.
  destruct (heading_suppression Examples.whole_page Examples.viewport
              Examples.title_page) as (Havg & _ & _ & _ & _ & Hdrop & _).
  destruct (heading_suppression Examples.whole_page Examples.viewport
              Examples.short_page) as (_ & _ & _ & _ & Hkeep & _).
  split; [|split].
  - rewrite Havg. reflexivity.
  - destruct Hdrop as [-> _]; reflexivity.
  - rewrite Hkeep; reflexivity.
Defined.

(** The standalone viewer emits the strings of the covered runs in the order
    in which it meets the runs, whatever their positions. *)
Lemma standalone_selectedItems_encounter_order sel viewport items :
  Standalone.selectedItems sel viewport items =
  map PDFJS.str
    (List.filter
       (fun item =>
          match Standalone.selectItem sel viewport item with
          | [] => false
          | _ => true
          end) items).
Proof.
  induction items as [|item items IH]; [reflexivity|].
  unfold Standalone.selectedItems in *. simpl. rewrite IH.
  unfold Standalone.selectItem.
  now destruct (0.3 <=? _)%float.
Qed.

(** C5, on the page [Examples.unordered_page], all of it selected.  The run
    met first lies lower on the page than the run met second (its top-down
    position is 188, against 88).  [extractFromSelection] of the standalone
    viewer emits the two runs as it meets them, lower run first, whereas
    [handleMouseUp] of the PDFViewer component emits them from the top
    down. *)
Theorem extractFromSelection_keeps_encounter_order :
  map (fun item => Standalone.box_y
                     (Standalone.itemBox Examples.standalone_viewport item))
    Examples.unordered_page = [188; 88]%float /\
  Standalone.extractedText
    (Standalone.onMouseUp
       {[ 1 := (Examples.unordered_page, Examples.standalone_viewport) ]} 1
       Examples.standalone_state)
  = "second first" /\
  PDFViewer.selectedText
    (PDFViewer.handleMouseUp {[ 1 := Examples.unordered_page ]} 1
       (Some Examples.viewport) Examples.viewer_state)
  = "first second".
Proof. repeat split; vm_compute; reflexivity. Qed.

End SelectionFacts.

(** ** The server *)

Section ServerFacts.
Import Server Spec.

Lemma ask_unacceptable clients now answered c q m st :
  acceptable c q = false ->
  exists msg, forall backend,
    ask clients backend now answered
      {| context := Some c; question := Some q; model := m |} st
    = (st, {| status := 400; body := ErrorBody msg |}).
Proof.
  unfold acceptable, ask. simpl. intros H.
  destruct (JSString.truthy c); simpl in *; [|eauto].
  destruct (JSString.truthy q); simpl in *; [|eauto].
  destruct (10000 <? Z.of_nat (String.length c))%Z; simpl in *; [eauto|].
  destruct (1000 <? Z.of_nat (String.length q))%Z; simpl in *; [eauto|].
  discriminate.
Qed.

Lemma ask_acceptable clients backend now answered c q m st :
  acceptable c q = true ->
  ask clients backend now answered
    {| context := Some c; question := Some q; model := m |} st
  = match NodeCache.get now (cacheKey c q) (responseCache st) with
    | (Some cachedResponse, cache) =>
        ({| responseCache := cache; calls := calls st |},
         {| status := 200; body := AnswerBody cachedResponse |})
    | (None, cache) =>
        match backend (getModelAdapter clients m) c q with
        | Returned response =>
            ({| responseCache :=
                  NodeCache.set answered (cacheKey c q) response cache;
                calls := calls st ++ [(getModelAdapter clients m, c, q)] |},
             {| status := 200; body := AnswerBody response |})
        | Threw message =>
            ({| responseCache := cache;
                calls := calls st ++ [(getModelAdapter clients m, c, q)] |},
             errorResponse message)
        end
    end.
Proof.
  unfold acceptable, ask. simpl. intros H.
  apply andb_true_iff in H as [H Hq]. apply andb_true_iff in H as [H Hc].
  apply andb_true_iff in H as [Htc Htq].
  apply negb_true_iff in Hq, Hc. now rewrite Htc, Htq, Hc, Hq.
Qed.

Lemma invalid_unacceptable c q m :
  invalid {| context := Some c; question := Some q; model := m |} ->
  acceptable c q = false.
Proof.
  unfold invalid, missing, longer_than, acceptable. simpl.
  intros [[H|H] | [[H|H] | [(s & H & Hlen) | (s & H & Hlen)]]];
    try discriminate; inversion H; subst.
  - reflexivity.
  - now rewrite andb_false_r.
  - apply Z.ltb_lt in Hlen. rewrite Hlen. simpl.
    now rewrite andb_false_r.
  - apply Z.ltb_lt in Hlen. rewrite Hlen. simpl.
    now rewrite andb_false_r.
Qed.

(** C7.  A request whose body lacks [context] or [question] (absent or
    empty), whose context is longer than 10,000 characters or whose question
    is longer than 1,000 characters is answered with status 400; the state,
    and with it the list of adapter calls, is left as it was, and the answer
    is the same whatever the adapters would have done. *)
Theorem ask_rejects_invalid_request
    (clients : Clients) (backend : Backend) (now answered : Z)
    (req : RequestBody) (st : State) :
  invalid req ->
  exists msg,
    ask clients backend now answered req st
      = (st, {| status := 400; body := ErrorBody msg |}) /\
    calls (fst (ask clients backend now answered req st)) = calls st /\
    forall backend', ask clients backend' now answered req st
                     = ask clients backend now answered req st.
Proof.
  intros Hinv.
  assert (H : exists msg, forall b,
             ask clients b now answered req st
             = (st, {| status := 400; body := ErrorBody msg |})).
  { destruct req as [[c|] [q|] m];
      try (eexists; intros b; reflexivity).
    apply ask_unacceptable. now apply (invalid_unacceptable c q m). }
  destruct H as (msg & H). exists msg. repeat split.
  - apply H.
  - now rewrite H.
  - intros b'. now rewrite !H.
Qed.

Lemma ask_rejects_invalid_request_witness :
  exists msg,
    ask Examples.clients Examples.backend 0 0
      {| context := Some Examples.long_context;
         question := Some "What is the total?"; model := None |}
      Examples.empty_state
    = (Examples.empty_state, {| status := 400; body := ErrorBody msg |}).
Proof.
  destruct (ask_rejects_invalid_request Examples.clients Examples.backend 0 0
              {| context := Some Examples.long_context;
                 question := Some "What is the total?"; model := None |}
              Examples.empty_state) as (msg & H & _).
  - right. right. left. eexists. split; [reflexivity|]. vm_compute. reflexivity.
  - exists msg. exact H.
Defined.

Ltac div_lia := zify; Z.to_euclidean_division_equations; lia.

Lemma utf8_bytes_bounded c : Forall (fun b => (b < 256)%N) (Buffer.utf8_of_char c).
Proof.
  unfold Buffer.utf8_of_char. pose proof (N_ascii_bounded c) as H.
  destruct (N_of_ascii c <? 128)%N eqn:E.
  - repeat constructor. assumption.
  - apply N.ltb_ge in E. repeat constructor.
    + div_lia.
    + div_lia.
Qed.

Lemma from_bounded s : Forall (fun b => (b < 256)%N) (Buffer.from s).
Proof.
  induction s as [|c s IH]; simpl; [constructor|].
  apply Forall_app. split; [apply utf8_bytes_bounded | assumption].
Qed.

Lemma decode_utf8_from s : decode_utf8 (Buffer.from s) = s.
Proof.
  induction s as [|c s IH]; [reflexivity|].
  simpl Buffer.from. unfold Buffer.utf8_of_char.
  destruct (N_of_ascii c <? 128)%N eqn:E; simpl.
  - rewrite E. now rewrite ascii_N_embedding, IH.
  - apply N.ltb_ge in E.
    assert (H1 : (192 + N_of_ascii c / 64 <? 128)%N = false) by (apply N.ltb_ge; div_lia).
    rewrite H1.
    replace ((192 + N_of_ascii c / 64 - 192) * 64 + (128 + N_of_ascii c mod 64 - 128))%N
      with (N_of_ascii c).
    + now rewrite ascii_N_embedding, IH.
    + div_lia.
Qed.

Lemma digit_undigit n :
  (n < 64)%N -> undigit (Buffer.digit n) = n /\ Ascii.eqb (Buffer.digit n) "=" = false.
Proof.
  intros H.
  assert (Hall : forallb (fun n => (undigit (Buffer.digit n) =? n)%N
                                   && negb (Ascii.eqb (Buffer.digit n) "=")) sextets = true)
    by (vm_compute; reflexivity).
  rewrite forallb_forall in Hall.
  assert (Hin : In n sextets).
  { unfold sextets. rewrite <- (N2Nat.id n). apply in_map, in_seq. lia. }
  specialize (Hall n Hin). apply andb_true_iff in Hall as [H1 H2].
  apply N.eqb_eq in H1. apply negb_true_iff in H2. now split.
Qed.

(** Induction on a list of bytes, three at a time. *)
Lemma base64_ind (P : list N -> Prop) :
  P [] -> (forall a, P [a]) -> (forall a b, P [a; b]) ->
  (forall a b c rest, P rest -> P (a :: b :: c :: rest)) ->
  forall l, P l.
Proof.
  intros H0 H1 H2 H3.
  assert (H : forall l, P l /\ (forall a, P (a :: l)) /\ (forall a b, P (a :: b :: l))).
  { induction l as [|x l (IH0 & IH1 & IH2)]; [now repeat split|].
    repeat split; auto. }
  intros l. apply H.
Qed.


Lemma fromBase64_toBase64 bytes :
  Forall (fun b => (b < 256)%N) bytes ->
  fromBase64 (Buffer.toBase64 bytes) = bytes.
Proof.
  induction bytes as [|a|a b|a b c rest IH] using base64_ind; intros Hall.
  - reflexivity.
  - inversion Hall as [|? ? Ha _]; subst.
    cbn [Buffer.toBase64 fromBase64].
    destruct (digit_undigit (a / 4)) as [E0 _]; [div_lia|].
    destruct (digit_undigit ((a mod 4) * 16)) as [E1 _]; [div_lia|].
    rewrite E0, E1. change (Ascii.eqb "=" "=") with true. cbv iota.
    f_equal. div_lia.
  - inversion Hall as [|? ? Ha Hall']; subst.
    inversion Hall' as [|? ? Hb _]; subst.
    cbn [Buffer.toBase64 fromBase64].
    destruct (digit_undigit (a / 4)) as [E0 _]; [div_lia|].
    destruct (digit_undigit ((a mod 4) * 16 + b / 16)) as [E1 _]; [div_lia|].
    destruct (digit_undigit ((b mod 16) * 4)) as [E2 N2]; [div_lia|].
    rewrite E0, E1, E2, N2. change (Ascii.eqb "=" "=") with true. cbv iota.
    f_equal; [div_lia|]. f_equal. div_lia.
  - inversion Hall as [|? ? Ha Hall']; subst.
    inversion Hall' as [|? ? Hb Hall'']; subst.
    inversion Hall'' as [|? ? Hc Hrest]; subst.
    cbn [Buffer.toBase64 fromBase64].
    destruct (digit_undigit (a / 4)) as [E0 _]; [div_lia|].
    destruct (digit_undigit ((a mod 4) * 16 + b / 16)) as [E1 _]; [div_lia|].
    destruct (digit_undigit ((b mod 16) * 4 + c / 64)) as [E2 N2]; [div_lia|].
    destruct (digit_undigit (c mod 64)) as [E3 N3]; [div_lia|].
    rewrite E0, E1, E2, E3, N2, N3, (IH Hrest).
    f_equal; [div_lia|]. f_equal; [div_lia|]. f_equal. div_lia.
Qed.

(** Different strings [context|question] have different keys. *)
Lemma cacheKey_inj c q c' q' :
  cacheKey c' q' = cacheKey c q ->
  c' +:+ "|" +:+ q' = c +:+ "|" +:+ q.
Proof.
  unfold cacheKey. intros H.
  apply (f_equal fromBase64) in H.
  rewrite !fromBase64_toBase64 in H by apply from_bounded.
  apply (f_equal decode_utf8) in H. now rewrite !decode_utf8_from in H.
Qed.

Lemma ask_status_200 clients backend now answered req st r :
  snd (ask clients backend now answered req st)
    = {| status := 200; body := AnswerBody r |} ->
  exists c q, context req = Some c /\ question req = Some q /\
              acceptable c q = true.
Proof.
  destruct req as [[c|] [q|] m]; try discriminate.
  intros H. exists c, q. repeat split.
  destruct (acceptable c q) eqn:E; [reflexivity|].
  destruct (ask_unacceptable clients now answered c q m st E) as [msg Hmsg].
  rewrite Hmsg in H. discriminate.
Qed.

Lemma errorResponse_not_answer message r :
  errorResponse message <> {| status := 200; body := AnswerBody r |}.
Proof.
  unfold errorResponse.
  destruct (message_includes message "API key"); [discriminate|].
  destruct (message_includes message "quota" || message_includes message "rate limit");
    discriminate.
Qed.

(** A live entry is served, and nothing else happens. *)
Lemma ask_cache_hit clients backend now answered c q m st r expires :
  acceptable c q = true ->
  responseCache st !! cacheKey c q = Some (r, expires) ->
  (now <= expires)%Z ->
  ask clients backend now answered
    {| context := Some c; question := Some q; model := m |} st
  = (st, {| status := 200; body := AnswerBody r |}).
Proof.
  intros Hok Hentry Hlive. rewrite ask_acceptable by assumption.
  unfold NodeCache.get. rewrite Hentry.
  destruct (expires <? now)%Z eqn:E; [apply Z.ltb_lt in E; lia|].
  now destruct st.
Qed.

(** After an answered request the cache holds the response that was sent. *)
Lemma ask_answer_cached clients backend now answered c q m st r :
  snd (ask clients backend now answered
         {| context := Some c; question := Some q; model := m |} st)
    = {| status := 200; body := AnswerBody r |} ->
  exists expires,
    responseCache
      (fst (ask clients backend now answered
              {| context := Some c; question := Some q; model := m |} st))
      !! cacheKey c q = Some (r, expires) /\
    ((responseCache st !! cacheKey c q = Some (r, expires) /\ (now <= expires)%Z) \/
     (expires = (answered + 86400000)%Z /\
      backend (getModelAdapter clients m) c q = Returned r)).
Proof.
  intros H. destruct (ask_status_200 _ _ _ _ _ _ _ H) as (c' & q' & [= <-] & [= <-] & Hok).
  revert H. rewrite ask_acceptable by assumption. unfold NodeCache.get.
  destruct (responseCache st !! cacheKey c q) as [[r' expires]|] eqn:Hentry.
  - destruct (expires <? now)%Z eqn:E.
    + destruct (backend (getModelAdapter clients m) c q) as [r''|msg] eqn:Hb;
        cbn [fst snd responseCache].
      * intros [= ->]. exists (answered + 86400000)%Z. split; [|now right].
        unfold NodeCache.set. now rewrite lookup_insert_eq.
      * intros Herr. now apply errorResponse_not_answer in Herr.
    + cbn [fst snd responseCache]. intros [= ->]. exists expires.
      split; [assumption|].
      left. split; [reflexivity|]. apply Z.ltb_ge in E. lia.
  - destruct (backend (getModelAdapter clients m) c q) as [r''|msg] eqn:Hb;
      cbn [fst snd responseCache].
    + intros [= ->]. exists (answered + 86400000)%Z. split; [|now right].
      unfold NodeCache.set. now rewrite lookup_insert_eq.
    + intros Herr. now apply errorResponse_not_answer in Herr.
Qed.

(** C8.  Let a request for [(context, question)] be answered with the
    response [r].  The cache then holds [r] under the key of the pair, with
    an expiry time that is 24 hours after the response was stored when the
    adapter produced it.  Every later request for the same pair that arrives
    before the expiry time, whatever model it names and whatever the
    adapters would do, is answered with [r] and leaves the state, and so the
    list of adapter calls, unchanged.  The key is the base64 text of the
    UTF-8 bytes of the string [context|question]: two pairs have the same
    key exactly when these strings are the same. *)
Theorem repeated_request_served_from_cache
    (clients : Clients) (backend backend' : Backend)
    (now answered now' answered' : Z)
    (c q : string) (m m' : option string) (st : State) (r : AIResponse) :
  let first := ask clients backend now answered
                 {| context := Some c; question := Some q; model := m |} st in
  snd first = {| status := 200; body := AnswerBody r |} ->
  exists expires,
    responseCache (fst first) !! cacheKey c q = Some (r, expires) /\
    (calls (fst first) <> calls st -> expires = (answered + 24 * 60 * 60 * 1000)%Z) /\
    ((now' <= expires)%Z ->
     ask clients backend' now' answered'
       {| context := Some c; question := Some q; model := m' |} (fst first)
     = (fst first, {| status := 200; body := AnswerBody r |})) /\
    cacheKey c q = Buffer.toBase64 (Buffer.from (c +:+ "|" +:+ q)) /\
    (forall c' q', cacheKey c' q' = cacheKey c q <->
                   c' +:+ "|" +:+ q' = c +:+ "|" +:+ q).
Proof.
  intros first Hfirst. subst first.
  destruct (ask_status_200 _ _ _ _ _ _ _ Hfirst) as (c' & q' & [= <-] & [= <-] & Hok).
  destruct (ask_answer_cached _ _ _ _ _ _ _ _ _ Hfirst) as (expires & Hentry & Hhow).
  exists expires. repeat split.
  - exact Hentry.
  - intros Hcalls. destruct Hhow as [[Hold Hlive]|[-> _]]; [|reflexivity].
    exfalso. apply Hcalls.
    now rewrite (ask_cache_hit clients backend now answered c q m st r expires).
  - intros Hlive. now apply (ask_cache_hit _ _ _ _ _ _ _ _ r expires).
  - apply cacheKey_inj.
  - intros Heq. unfold cacheKey. now rewrite Heq.
Qed.

Lemma repeated_request_served_from_cache_witness :
  let st1 := fst (ask Examples.clients Examples.backend 1000 2000
                    Examples.request Examples.empty_state) in
  ask Examples.clients Examples.failing_backend 86402000 86403000
    Examples.request st1
  = (st1, {| status := 200;
             body := AnswerBody {| answer := "42"; source := "GPT-4 Turbo" |} |})
  /\ calls st1 = [(OpenAIAdapter, "The total is 42.", "What is the total?")].
Proof.
  intros st1. subst st1.
  destruct (repeated_request_served_from_cache Examples.clients Examples.backend
              Examples.failing_backend 1000 2000 86402000 86403000
              "The total is 42." "What is the total?"
              (Some "anthropic") (Some "anthropic") Examples.empty_state
              {| answer := "42"; source := "GPT-4 Turbo" |} eq_refl)
    as (expires & _ & Hexp & Hserved & _).
  assert (Hval : expires = (2000 + 24 * 60 * 60 * 1000)%Z)
    by (apply Hexp; discriminate).
  split; [|reflexivity].
  apply Hserved. rewrite Hval. vm_compute. discriminate.
Defined.

(** C9.  [getModelAdapter] returns an adapter for every value of the model
    field: the adapter of the named provider when it is configured;
    otherwise the OpenAI adapter if that client is configured, else the
    Anthropic adapter if that client is configured, else the demo fallback.
    Hence a valid request that names a provider that is not configured, and
    is not served from the cache, is answered with status 200 by whatever
    another adapter returns. *)
Theorem getModelAdapter_total_silent_fallback
    (clients : Clients) (preferredModel : option string) :
  (exists adapter, getModelAdapter clients preferredModel = adapter) /\
  (preferredModel = Some "openai" -> openai clients = true ->
   getModelAdapter clients preferredModel = OpenAIAdapter) /\
  (preferredModel = Some "anthropic" -> anthropic clients = true ->
   getModelAdapter clients preferredModel = AnthropicAdapter) /\
  (~ (preferredModel = Some "openai" /\ openai clients = true) ->
   ~ (preferredModel = Some "anthropic" /\ anthropic clients = true) ->
   getModelAdapter clients preferredModel
   = if openai clients then OpenAIAdapter
     else if anthropic clients then AnthropicAdapter
     else FallbackAdapter) /\
  (forall backend now answered c q st r,
     acceptable c q = true ->
     fst (NodeCache.get now (cacheKey c q) (responseCache st)) = None ->
     provider (getModelAdapter clients preferredModel) <> preferredModel ->
     backend (getModelAdapter clients preferredModel) c q = Returned r ->
     snd (ask clients backend now answered
            {| context := Some c; question := Some q; model := preferredModel |} st)
     = {| status := 200; body := AnswerBody r |}).
Proof.
  split; [eauto|]. repeat split.
  - intros -> H. unfold getModelAdapter. simpl. now rewrite H.
  - intros -> H. unfold getModelAdapter. simpl. now rewrite H.
  - intros H1 H2. unfold getModelAdapter, is_string.
    destruct preferredModel as [s|]; [|reflexivity].
    destruct (String.eqb_spec s "openai") as [->|_].
    + destruct (openai clients); simpl; [exfalso; apply H1; now split|].
      reflexivity.
    + simpl. destruct (String.eqb_spec s "anthropic") as [->|_]; [|reflexivity].
      destruct (anthropic clients); simpl; [exfalso; apply H2; now split|].
      reflexivity.
  - intros backend now answered c q st r Hok Hmiss _ Hb.
    rewrite ask_acceptable by assumption.
    destruct (NodeCache.get now (cacheKey c q) (responseCache st)) as [[r'|] cache];
      simpl in Hmiss; [discriminate|].
    now rewrite Hb.
Qed.

Lemma getModelAdapter_total_silent_fallback_witness :
  getModelAdapter Examples.clients (Some "anthropic") = OpenAIAdapter /\
  snd (ask Examples.clients Examples.backend 1000 2000 Examples.request
         Examples.empty_state)
  = {| status := 200;
       body := AnswerBody {| answer := "42"; source := "GPT-4 Turbo" |} |}.
Proof.
  destruct (getModelAdapter_total_silent_fallback Examples.clients
              (Some "anthropic")) as (_ & _ & _ & Hother & Hsilent).
  split.
  - rewrite Hother; [reflexivity | intros [? _]; discriminate
                    | intros [_ ?]; discriminate].
  - apply Hsilent; try reflexivity. discriminate.
Defined.

End ServerFacts.

(** ** More on the chunker and on the index *)

Section ChunkBounds.
Import JSString Chunker.

Lemma length_append (a b : string) :
  String.length (a +:+ b) = String.length a + String.length b.
Proof.
  induction a as [|c a IH]; [reflexivity|].
  change (String c a +:+ b) with (String c (a +:+ b)). simpl. now rewrite IH.
Qed.

Lemma join_snoc (chunk : list string) (w : string) :
  chunk <> [] -> join " " (chunk ++ [w]) = join " " chunk +:+ " " +:+ w.
Proof.
  intros H. rewrite join_app by (assumption || discriminate). reflexivity.
Qed.

Lemma length_join_snoc (chunk : list string) (w : string) :
  chunk <> [] ->
  String.length (join " " (chunk ++ [w]))
  = String.length (join " " chunk) + 1 + String.length w.
Proof.
  intros H. rewrite join_snoc by assumption. rewrite !length_append.
  simpl. lia.
Qed.

(** What the loop keeps, for words of at most [L] characters: every closed
    chunk has between [size] and [size + L] characters, and the open chunk,
    unless it is empty, is shorter than [size]. *)
Lemma chunk_loop_bounds (size L : nat) (words : list string)
    (st : list string * list string) :
  Forall (fun w => String.length w <= L) words ->
  Forall (fun c => size <= String.length c <= size + L) (fst st) ->
  (snd st = [] \/ String.length (join " " (snd st)) < size) ->
  let st' := fold_left (chunk_step size) words st in
  Forall (fun c => size <= String.length c <= size + L) (fst st') /\
  (snd st' = [] \/ String.length (join " " (snd st')) < size).
Proof.
  revert st. induction words as [|w words IH]; intros st Hw Hc Ho; simpl.
  - now split.
  - inversion Hw as [|? ? Hwl Hws]; subst. apply IH; try assumption;
      unfold chunk_step;
      destruct (size <=? String.length (join " " (snd st ++ [w]))) eqn:E;
      simpl; auto.
    + apply Nat.leb_le in E. apply Forall_app. split; [assumption|].
      constructor; [|constructor]. split; [assumption|].
      destruct Ho as [-> | Ho]; [simpl; lia|].
      destruct (snd st) as [|x chunk] eqn:Est; [simpl; lia|].
      rewrite length_join_snoc by discriminate. lia.
    + right. now apply Nat.leb_gt.
Qed.

Lemma chunk_loop_some (size : nat) (words : list string)
    (st : list string * list string) :
  fst st <> [] \/ snd st <> [] ->
  let st' := fold_left (chunk_step size) words st in
  fst st' <> [] \/ snd st' <> [].
Proof.
  revert st. induction words as [|w words IH]; intros st H; simpl; [assumption|].
  apply IH. unfold chunk_step.
  destruct (size <=? String.length (join " " (snd st ++ [w]))); simpl.
  - left. now destruct (fst st).
  - right. now destruct (snd st).
Qed.

Lemma chunkText_nonempty (text : string) (size : nat) :
  chunkText text size <> [].
Proof.
  unfold chunkText.
  assert (Hsome : fst (fold_left (chunk_step size) (split " " text) ([], [])) <> [] \/
                  snd (fold_left (chunk_step size) (split " " text) ([], [])) <> []).
  { pose proof (split_nonempty " " text) as Hne.
    destruct (split " " text) as [|w words]; [congruence|].
    simpl fold_left. apply chunk_loop_some. unfold chunk_step. simpl.
    destruct (size <=? String.length w); simpl; [left | right]; discriminate. }
  set (st := fold_left (chunk_step size) (split " " text) ([], [])) in *.
  destruct (snd st) as [|w chunk] eqn:Eo; simpl; [tauto|].
  now destruct (fst st).
Qed.

(** X1.  [chunkText] always returns at least one chunk, and every chunk but
    the last has at least [size] characters. *)
Theorem chunkText_all_but_last_reach_size (text : string) (size : nat) :
  chunkText text size <> [] /\
  Forall (fun c => size <= String.length c) (removelast (chunkText text size)).
Proof.
  unfold chunkText.
  pose proof (split_nonempty " " text) as Hne.
  destruct (chunk_loop_bounds size
              (list_max (map String.length (split " " text)))
              (split " " text) ([], [])) as [Hclosed Hopen];
    [ | constructor | now left | ].
  { apply List.Forall_forall. intros w Hw.
    pose proof (list_max_le (map String.length (split " " text))
                  (list_max (map String.length (split " " text)))) as [Hle _].
    specialize (Hle (Nat.le_refl _)). rewrite List.Forall_forall in Hle.
    apply Hle. now apply in_map. }
  assert (Hsome : fst (fold_left (chunk_step size) (split " " text) ([], [])) <> [] \/
                  snd (fold_left (chunk_step size) (split " " text) ([], [])) <> []).
  { destruct (split " " text) as [|w words]; [congruence|].
    simpl fold_left. apply chunk_loop_some. unfold chunk_step. simpl.
    destruct (size <=? String.length w); simpl; [left | right]; discriminate. }
  set (st := fold_left (chunk_step size) (split " " text) ([], [])) in *.
  destruct (snd st) as [|w chunk] eqn:Eo; simpl.
  - split; [tauto|]. clear - Hclosed.
    induction Hclosed as [|c cs [Hc _] Hcs IH]; [constructor|].
    destruct cs; simpl; [constructor|]. constructor; assumption.
  - split; [now destruct (fst st)|].
    rewrite removelast_last. eapply List.Forall_impl; [|exact Hclosed].
    simpl. tauto.
Qed.

(** X2.  When no word of the text is longer than [L] characters, no chunk is
    longer than [size + L]: a chunk is closed as soon as it reaches [size],
    so it exceeds [size] by at most its last word. *)
Theorem chunkText_length_bound (text : string) (size L : nat) :
  Forall (fun w => String.length w <= L) (split " " text) ->
  Forall (fun c => String.length c <= size + L) (chunkText text size).
Proof.
  intros Hwords. unfold chunkText.
  destruct (chunk_loop_bounds size L (split " " text) ([], []) Hwords)
    as [Hclosed Hopen]; [constructor | now left |].
  set (st := fold_left (chunk_step size) (split " " text) ([], [])) in *.
  assert (Hc : Forall (fun c => String.length c <= size + L) (fst st))
    by (eapply List.Forall_impl; [|exact Hclosed]; simpl; tauto).
  destruct (snd st) as [|w chunk] eqn:Eo; [assumption|].
  change (0 <? length (w :: chunk)) with true. cbv iota.
  apply Forall_app. split; [assumption|]. constructor; [|constructor].
  destruct Hopen as [Hopen|Hopen]; [discriminate | lia].
Qed.

Lemma chunkText_length_bound_witness :
  Forall (fun c => String.length c <= 4 + 5)
    (chunkText "alpha beta gamma delta" 4).
Proof.
  apply (chunkText_length_bound "alpha beta gamma delta" 4 5).
  repeat constructor.
Defined.

End ChunkBounds.

Section IndexFacts.
Import JSString Chunker StandaloneApp.

Lemma chunkText_join (text : string) (size : nat) :
  join " " (chunkText text size) = text.
Proof.
  destruct (chunkText_groups text size) as (groups & Hch & Hne & Hcat).
  rewrite Hch, join_concat by assumption. rewrite Hcat. apply join_split.
Qed.

(** X3.  When the embedder is loaded, [loadPdf] builds an index that is
    never empty, whose texts joined by spaces are the page texts joined by
    spaces, and in which every embedding is the embedder's value on the
    entry's text.  When the embedder is not loaded yet, [vectorDB] keeps its
    value: from the initial empty index, [handleAsk] then retrieves no
    supplement, also with an embedder that was loaded in the meantime. *)
Theorem loadPdf_index (pages : list (list PDFJS.TextItem))
    (emb : Ranker.Embedder) :
  let vectorDB := loadPdf (Some emb) pages [] in
  vectorDB <> [] /\
  join " " (map Ranker.text vectorDB) = joined pages /\
  Forall (fun e => Ranker.embedding e = emb (Ranker.text e)) vectorDB /\
  (forall question extractedText,
     Ranker.supplements (Some emb) (loadPdf None pages []) question extractedText
     = []).
Proof.
  simpl. unfold vectorEntries. repeat split.
  - intros H. apply map_eq_nil in H.
    now apply (chunkText_nonempty (joined pages) 400).
  - rewrite map_map. simpl. rewrite map_id. apply chunkText_join.
  - apply List.Forall_forall. intros e He.
    apply in_map_iff in He as (chunk & <- & _). reflexivity.
Qed.

End IndexFacts.

(** ** More on the ranker *)

Section SupplementFacts.
Import JS JSObject Ranker.

Lemma insert_index_Permutation e l : Permutation (e :: l) (insert_index e l).
Proof.
  induction l as [|h t IH]; simpl; [reflexivity|].
  destruct (fst e <? fst h)%N; [reflexivity|].
  rewrite perm_swap. now apply perm_skip.
Qed.

Lemma sorted_index_Permutation l : Permutation l (fold_right insert_index [] l).
Proof.
  induction l as [|h t IH]; simpl; [reflexivity|].
  rewrite <- insert_index_Permutation. now apply perm_skip.
Qed.

Lemma index_entries_filter o :
  map snd (index_entries o) = List.filter is_index_key o.
Proof.
  unfold index_entries, is_index_key.
  induction o as [|kv o IH]; simpl; [reflexivity|].
  destruct (array_index (fst kv)); simpl; now rewrite IH.
Qed.

Lemma filter_split_Permutation {A : Type} (p : A -> bool) (l : list A) :
  Permutation (List.filter p l ++ List.filter (fun x => negb (p x)) l) l.
Proof.
  induction l as [|x l IH]; simpl; [reflexivity|].
  destruct (p x); simpl.
  - now apply perm_skip.
  - rewrite <- Permutation_middle. now apply perm_skip.
Qed.

(** [Object.entries] lists every own property once. *)
Lemma entries_Permutation o : Permutation (entries o) o.
Proof.
  unfold entries. rewrite <- (filter_split_Permutation is_index_key o) at 3.
  apply Permutation_app_tail. rewrite <- index_entries_filter.
  apply Permutation_map. symmetry. apply sorted_index_Permutation.
Qed.

Lemma combinedArray_keys_NoDup embedder db question pe :
  List.NoDup (map fst (combinedArray embedder db question pe)).
Proof.
  unfold combinedArray.
  eapply Permutation_NoDup; [|apply (combinedScores_NoDup embedder db question pe)].
  apply Permutation_map. rewrite <- sort_Permutation. symmetry.
  apply entries_Permutation.
Qed.

(** The entries that the loop does not pass over. *)
Lemma pickSupplements_firstn pe es acc :
  pickSupplements pe es acc =
  if 3 <=? length acc then acc
  else acc ++ firstn (3 - length acc)
                (map fst (List.filter
                            (fun entry => negb (JSString.truthy pe
                                                && String.eqb (fst entry) pe))
                            es)).
Proof.
  revert acc. induction es as [|e es IH]; intros acc; cbn [pickSupplements].
  - destruct (3 <=? length acc); [reflexivity|].
    simpl. rewrite firstn_nil. now rewrite app_nil_r.
  - destruct (3 <=? length acc) eqn:E; [reflexivity|].
    apply Nat.leb_gt in E. cbn [List.filter].
    destruct (JSString.truthy pe && String.eqb (fst e) pe); cbn [negb].
    + rewrite IH. apply Nat.leb_gt in E. now rewrite E.
    + rewrite IH, length_app. cbn [length map].
      destruct (3 <=? length acc + 1) eqn:E'.
      * apply Nat.leb_le in E'.
        replace (3 - length acc) with 1 by lia. simpl. reflexivity.
      * apply Nat.leb_gt in E'.
        replace (3 - length acc) with (S (3 - (length acc + 1))) by lia.
        cbn [firstn]. now rewrite <- app_assoc.
Qed.

Lemma In_firstn {A : Type} (n : nat) (l : list A) (x : A) :
  In x (firstn n l) -> In x l.
Proof.
  revert n. induction l as [|y l IH]; intros [|n]; simpl; try tauto.
  intros [->|H]; [now left | right; eauto].
Qed.

Lemma NoDup_firstn {A : Type} (n : nat) (l : list A) :
  List.NoDup l -> List.NoDup (firstn n l).
Proof.
  revert n. induction l as [|x l IH]; intros [|n] H; simpl; try constructor.
  - inversion H; subst. intros Hin. now apply In_firstn in Hin.
  - inversion H; subst. now apply IH.
Qed.

Lemma NoDup_map_filter {A B : Type} (f : A -> B) (p : A -> bool) (l : list A) :
  List.NoDup (map f l) -> List.NoDup (map f (List.filter p l)).
Proof.
  induction l as [|x l IH]; simpl; intros H; [constructor|].
  inversion H as [|? ? Hnotin Hrest]; subst.
  destruct (p x); simpl; [|now apply IH].
  constructor; [|now apply IH].
  intros Hin. apply Hnotin. apply in_map_iff in Hin as (y & <- & Hy).
  apply in_map. now apply filter_In in Hy.
Qed.

Lemma set_keeps_keys k v o k' :
  In k' (map fst o) -> In k' (map fst (set k v o)).
Proof.
  unfold set. destruct (String.eqb k "__proto__"); [trivial|].
  intros H. apply put_keys. now right.
Qed.

Lemma set_adds_key k v o :
  k <> "__proto__" -> In k (map fst (set k v o)).
Proof.
  intros H. unfold set. destruct (String.eqb_spec k "__proto__"); [congruence|].
  apply put_keys. now left.
Qed.

Lemma seedScores_keeps_keys scored o k :
  In k (map fst o) -> In k (map fst (seedScores o scored)).
Proof.
  revert o. induction scored as [|ts scored IH]; intros o H; simpl; [assumption|].
  apply IH. now apply set_keeps_keys.
Qed.

Lemma mergeScores_keeps_keys scored o k :
  In k (map fst o) -> In k (map fst (mergeScores o scored)).
Proof.
  revert o. induction scored as [|ts scored IH]; intros o H; simpl; [assumption|].
  apply IH. now apply set_keeps_keys.
Qed.

Lemma seedScores_adds_keys scored o k :
  In k (map fst scored) -> k <> "__proto__" ->
  In k (map fst (seedScores o scored)).
Proof.
  revert o. induction scored as [|[t s] scored IH]; intros o Hin Hk; simpl in *;
    [contradiction|].
  destruct Hin as [->|Hin]; [|now apply IH].
  apply seedScores_keeps_keys. now apply set_adds_key.
Qed.

(** Every text of the index, except the name that cannot be assigned, gets
    an entry. *)
Lemma combinedArray_has_text embedder db question pe t :
  In t (map text db) -> t <> "__proto__" ->
  In t (map fst (combinedArray embedder db question pe)).
Proof.
  intros Hin Hk.
  assert (H : In t (map fst (combinedScores embedder db question pe))).
  { unfold combinedScores.
    assert (Hseed : In t (map fst (seedScores [] (scoreBy (embedder question) db))))
      by (apply seedScores_adds_keys; [now rewrite scoreBy_keys | assumption]).
    destruct (JSString.truthy pe); [now apply mergeScores_keeps_keys | assumption]. }
  apply in_map_iff in H as ([k s] & <- & Hks).
  apply (in_map fst _ (k, s)). unfold combinedArray.
  now apply sort_In, entries_In.
Qed.

(** X4.  The supplements are the first three entries of the sorted array
    other than the excerpt.  Hence they are pairwise distinct, also when a
    text occurs several times in the index, and when fewer than three are
    returned, every text of the index other than the excerpt has been
    returned (the name [__proto__] apart, which gets no entry). *)
Theorem supplements_distinct_and_exhaustive
    (emb : Embedder) (vectorDB : list VectorEntry)
    (question extractedText : string) :
  vectorDB <> [] ->
  let primaryExcerpt := JSString.trim extractedText in
  let result := supplements (Some emb) vectorDB question extractedText in
  result = firstn 3
             (map fst
                (List.filter
                   (fun entry => negb (JSString.truthy primaryExcerpt
                                       && String.eqb (fst entry) primaryExcerpt))
                   (combinedArray emb vectorDB question primaryExcerpt))) /\
  List.NoDup result /\
  (length result < 3 ->
   forall t, In t (map text vectorDB) -> t <> primaryExcerpt ->
             t <> "__proto__" -> In t result).
Proof.
  intros Hne pe result.
  assert (Hres : result = firstn 3
             (map fst
                (List.filter
                   (fun entry => negb (JSString.truthy pe && String.eqb (fst entry) pe))
                   (combinedArray emb vectorDB question pe)))).
  { subst result. unfold supplements. fold pe.
    destruct vectorDB; [congruence|]. cbn [length Nat.ltb Nat.leb].
    now rewrite pickSupplements_firstn. }
  split; [exact Hres|]. rewrite Hres. split.
  - apply NoDup_firstn, NoDup_map_filter, combinedArray_keys_NoDup.
  - intros Hlen t Ht Hpe Hproto.
    rewrite firstn_all2.
    + pose proof (combinedArray_has_text emb vectorDB question pe t Ht Hproto) as Hin.
      apply in_map_iff in Hin as (entry & <- & Hentry).
      apply in_map, filter_In. split; [assumption|].
      destruct (String.eqb_spec (fst entry) pe); [congruence|].
      now rewrite andb_false_r.
    + rewrite length_firstn in Hlen. lia.
Qed.

Lemma supplements_distinct_and_exhaustive_witness :
  supplements (Some Examples.embedder) (firstn 3 Examples.vectorDB)
    "what is the total?" "budget report"
  = ["totals by quarter"; "appendix"].
Proof.
  destruct (supplements_distinct_and_exhaustive Examples.embedder
              (firstn 3 Examples.vectorDB) "what is the total?" "budget report")
    as (-> & _); [discriminate|]. reflexivity.
Defined.

End SupplementFacts.

(** ** More on cosine similarity *)

Section CosineMore.
Import JS Ranker.

Lemma SFmul_comm (x y : spec_float) : SFmul prec emax x y = SFmul prec emax y x.
Proof.
  destruct x as [[|]| [|] | | [|] m e], y as [[|]| [|] | | [|] m' e'];
    try reflexivity; simpl; now rewrite (Pos.mul_comm m m'), (Z.add_comm e e').
Qed.

Lemma mul_comm (a b : float) : (a * b)%float = (b * a)%float.
Proof.
  apply Prim2SF_inj. rewrite !mul_spec. apply SFmul_comm.
Qed.

Lemma mul_nan_r (a : float) : (a * nan)%float = nan.
Proof.
  apply Prim2SF_inj. rewrite mul_spec.
  change (Prim2SF nan) with S754_nan.
  now destruct (Prim2SF a) as [[|]| [|] | | [|] m e].
Qed.

Lemma add_nan_r (a : float) : (a + nan)%float = nan.
Proof.
  apply Prim2SF_inj. rewrite add_spec.
  change (Prim2SF nan) with S754_nan.
  now destruct (Prim2SF a) as [[|]| [|] | | [|] m e].
Qed.

Lemma add_nan_l (a : float) : (nan + a)%float = nan.
Proof.
  apply Prim2SF_inj. rewrite add_spec. now change (Prim2SF nan) with S754_nan.
Qed.

Lemma div_nan_l (a : float) : (nan / a)%float = nan.
Proof.
  apply Prim2SF_inj. rewrite div_spec. now change (Prim2SF nan) with S754_nan.
Qed.

(** The dot product of [cosineSimilarity], read as a sum over the pairs of
    entries, when the second vector is long enough. *)
Lemma dot_from_combine (u v pre : list float) (acc : float) :
  length u <= length v ->
  reduce_from (fun sum a i => (sum + a * nth_num i (pre ++ v))%float)
    (length pre) u acc
  = fold_left (fun sum ab => (sum + fst ab * snd ab)%float) (combine u v) acc.
Proof.
  revert v pre acc. induction u as [|a u IH]; intros v pre acc Hlen;
    [reflexivity|].
  destruct v as [|b v]; [simpl in Hlen; lia|].
  cbn [reduce_from combine fold_left fst snd].
  replace (nth_num (length pre) (pre ++ b :: v)) with b
    by (unfold nth_num; now rewrite nth_middle).
  specialize (IH v (pre ++ [b]) (acc + a * b)%float).
  rewrite length_app, <- app_assoc in IH. simpl in IH.
  rewrite Nat.add_1_r in IH. apply IH. simpl in Hlen. lia.
Qed.

Lemma sum_products_swap (u v : list float) (acc : float) :
  fold_left (fun sum ab => (sum + fst ab * snd ab)%float) (combine u v) acc
  = fold_left (fun sum ab => (sum + fst ab * snd ab)%float) (combine v u) acc.
Proof.
  revert v acc. induction u as [|a u IH]; intros [|b v] acc; try reflexivity.
  simpl. now rewrite (mul_comm a b), IH.
Qed.

Lemma dot_comm (u v : list float) : length u = length v -> dot u v = dot v u.
Proof.
  intros H. unfold dot, reduce.
  pose proof (dot_from_combine u v [] 0%float) as Huv.
  pose proof (dot_from_combine v u [] 0%float) as Hvu.
  cbn [app length] in Huv, Hvu.
  rewrite Huv, Hvu by (rewrite H; lia).
  apply sum_products_swap.
Qed.

(** X5.  For vectors of equal length the similarity does not depend on the
    order of the two arguments. *)
Theorem cosineSimilarity_symmetric (u v : list float) :
  length u = length v -> cosineSimilarity u v = cosineSimilarity v u.
Proof.
  intros H. rewrite !cosineSimilarity_unfold, (dot_comm u v H).
  rewrite (andb_comm (truthy (magnitude u))).
  now rewrite (mul_comm (magnitude u)).
Qed.

Lemma cosineSimilarity_symmetric_witness :
  cosineSimilarity [1; 2; 3]%float [4; 5; 6]%float
  = cosineSimilarity [4; 5; 6]%float [1; 2; 3]%float.
Proof. apply cosineSimilarity_symmetric. reflexivity. Defined.

(** Once the running sum is NaN it stays NaN. *)
Lemma dot_from_nan (u v : list float) (i : nat) :
  reduce_from (fun sum a i => (sum + a * nth_num i v)%float) i u nan = nan.
Proof.
  revert i. induction u as [|a u IH]; intros i; [reflexivity|].
  cbn [reduce_from]. now rewrite add_nan_l.
Qed.

Lemma dot_from_short (u v : list float) (i : nat) (acc : float) :
  length v < i + length u -> length v >= i ->
  reduce_from (fun sum a i => (sum + a * nth_num i v)%float) i u acc = nan.
Proof.
  revert i acc. induction u as [|a u IH]; intros i acc Hlt Hge;
    [simpl in Hlt; lia|].
  cbn [reduce_from]. destruct (Nat.eq_dec (length v) i) as [<-|Hne].
  - replace (nth_num (length v) v) with nan
      by (unfold nth_num; now rewrite nth_overflow).
    rewrite mul_nan_r, add_nan_r. apply dot_from_nan.
  - apply IH; simpl in Hlt; lia.
Qed.

(** X6.  The lengths of the two vectors are not compared.  When the second
    vector is the shorter one, the entries it lacks read as [undefined]: the
    dot product is NaN, and so is the similarity unless a magnitude is zero
    or NaN, in which case it is 0. *)
Theorem cosineSimilarity_shorter_second (u v : list float) :
  length v < length u ->
  dot u v = nan /\
  cosineSimilarity u v
  = if truthy (magnitude u) && truthy (magnitude v) then nan else 0%float.
Proof.
  intros H.
  assert (Hdot : dot u v = nan)
    by (unfold dot, reduce; apply dot_from_short; lia).
  split; [assumption|].
  rewrite cosineSimilarity_unfold, Hdot.
  destruct (truthy (magnitude u) && truthy (magnitude v));
    [apply div_nan_l | reflexivity].
Qed.

Lemma cosineSimilarity_shorter_second_witness :
  cosineSimilarity [1; 2]%float [1]%float = nan.
Proof.
  destruct (cosineSimilarity_shorter_second [1; 2]%float [1]%float) as [_ ->];
    [simpl; lia | reflexivity].
Defined.

End CosineMore.

(** ** More on the server *)

Section ServerMore.
Import Server Spec.

Lemma NodeCache_get_miss {V : Type} (now : Z) (key : string)
    (cache : NodeCache.t V) :
  fst (NodeCache.get now key cache) = None ->
  snd (NodeCache.get now key cache) !! key = None /\
  forall k, k <> key ->
            snd (NodeCache.get now key cache) !! k = cache !! k.
Proof.
  unfold NodeCache.get.
  destruct (cache !! key) as [[v expires]|] eqn:E.
  - destruct (expires <? now)%Z; simpl; [|discriminate]. intros _. split.
    + apply lookup_delete_eq.
    + intros k Hk. now apply lookup_delete_ne.
  - simpl. intros _. split; [assumption | reflexivity].
Qed.

Lemma NodeCache_get_other {V : Type} (now : Z) (key k : string)
    (cache : NodeCache.t V) :
  k <> key -> snd (NodeCache.get now key cache) !! k = cache !! k.
Proof.
  intros Hk. unfold NodeCache.get.
  destruct (cache !! key) as [[v expires]|]; [|reflexivity].
  destruct (expires <? now)%Z; simpl; [|reflexivity].
  now apply lookup_delete_ne.
Qed.

Lemma errorResponse_status message :
  status (errorResponse message) = 401 \/
  status (errorResponse message) = 429 \/
  status (errorResponse message) = 500.
Proof.
  unfold errorResponse.
  destruct (message_includes message "API key"); [now left|].
  destruct (message_includes message "quota" || message_includes message "rate limit");
    [right; now left | right; now right].
Qed.

(** X7.  When the adapter throws, the response has status 401, 429 or 500,
    nothing is stored under the key of the request, and the call is logged;
    an identical request that follows calls the adapter again. *)
Theorem ask_failure_not_cached
    (clients : Clients) (backend backend' : Backend)
    (now answered now' answered' : Z)
    (c q : string) (m : option string) (st : State) (message : option string) :
  acceptable c q = true ->
  fst (NodeCache.get now (cacheKey c q) (responseCache st)) = None ->
  backend (getModelAdapter clients m) c q = Threw message ->
  let req := {| context := Some c; question := Some q; model := m |} in
  let failed := ask clients backend now answered req st in
  (status (snd failed) = 401 \/ status (snd failed) = 429 \/
   status (snd failed) = 500) /\
  responseCache (fst failed) !! cacheKey c q = None /\
  calls (fst failed) = calls st ++ [(getModelAdapter clients m, c, q)] /\
  calls (fst (ask clients backend' now' answered' req (fst failed)))
  = calls (fst failed) ++ [(getModelAdapter clients m, c, q)].
Proof.
  intros Hok Hmiss Hthrow req failed. subst failed req.
  rewrite ask_acceptable by assumption.
  pose proof (NodeCache_get_miss now (cacheKey c q) (responseCache st) Hmiss)
    as [Hgone _].
  destruct (NodeCache.get now (cacheKey c q) (responseCache st))
    as [[r|] cache] eqn:Hget; simpl in Hmiss; [discriminate|].
  rewrite Hthrow. cbn [fst snd responseCache calls] in *.
  repeat split; try assumption; [apply errorResponse_status|].
  rewrite ask_acceptable by assumption. cbn [responseCache calls].
  unfold NodeCache.get. rewrite Hgone.
  now destruct (backend' (getModelAdapter clients m) c q).
Qed.

Lemma ask_failure_not_cached_witness :
  let failed := ask Examples.clients Examples.failing_backend 1000 2000
                  Examples.request Examples.empty_state in
  status (snd failed) = 429 /\
  responseCache (fst failed)
    !! cacheKey "The total is 42." "What is the total?" = None.
Proof.
  destruct (ask_failure_not_cached Examples.clients Examples.failing_backend
              Examples.backend 1000 2000 3000 4000
              "The total is 42." "What is the total?" (Some "anthropic")
              Examples.empty_state (Some "rate limit reached")
              eq_refl eq_refl eq_refl) as (_ & Hnone & _).
  split; [reflexivity | exact Hnone].
Defined.

(** X8.  An entry whose time has passed is not served: the adapter is called,
    and its response replaces the entry, with a new expiry time 24 hours
    after it is stored. *)
Theorem ask_expired_entry_refreshed
    (clients : Clients) (backend : Backend) (now answered : Z)
    (c q : string) (m : option string) (st : State)
    (old r : AIResponse) (expires : Z) :
  acceptable c q = true ->
  responseCache st !! cacheKey c q = Some (old, expires) ->
  (expires < now)%Z ->
  backend (getModelAdapter clients m) c q = Returned r ->
  let result := ask clients backend now answered
                  {| context := Some c; question := Some q; model := m |} st in
  snd result = {| status := 200; body := AnswerBody r |} /\
  calls (fst result) = calls st ++ [(getModelAdapter clients m, c, q)] /\
  responseCache (fst result) !! cacheKey c q
  = Some (r, (answered + 86400000)%Z).
Proof.
  intros Hok Hentry Hexp Hb result. subst result.
  rewrite ask_acceptable by assumption. unfold NodeCache.get.
  rewrite Hentry. apply Z.ltb_lt in Hexp. rewrite Hexp, Hb.
  cbn [fst snd responseCache calls]. repeat split.
  unfold NodeCache.set. now rewrite lookup_insert_eq.
Qed.

Lemma ask_expired_entry_refreshed_witness :
  let st1 := fst (ask Examples.clients Examples.backend 1000 2000
                    Examples.request Examples.empty_state) in
  calls (fst (ask Examples.clients Examples.backend 86402001 86403000
                Examples.request st1))
  = calls st1 ++ [(OpenAIAdapter, "The total is 42.", "What is the total?")].
Proof.
  intros st1.
  destruct (ask_expired_entry_refreshed Examples.clients Examples.backend
              86402001 86403000 "The total is 42." "What is the total?"
              (Some "anthropic") st1
              {| answer := "42"; source := "GPT-4 Turbo" |}
              {| answer := "42"; source := "GPT-4 Turbo" |} 86402000)
    as (_ & H & _); [reflexivity .. | exact H].
Defined.

(** X9.  The key does not separate the context from the question.  Two
    requests whose strings [context|question] are equal share an entry: once
    the adapter has answered one, the other is served the same response from
    the cache while the entry lives, without any adapter call. *)
Theorem ask_key_shared_across_pairs
    (clients : Clients) (backend backend' : Backend)
    (now answered now' answered' : Z)
    (c q c' q' : string) (m m' : option string) (st : State) (r : AIResponse) :
  c' +:+ "|" +:+ q' = c +:+ "|" +:+ q ->
  acceptable c q = true ->
  acceptable c' q' = true ->
  fst (NodeCache.get now (cacheKey c q) (responseCache st)) = None ->
  backend (getModelAdapter clients m) c q = Returned r ->
  (now' <= answered + 86400000)%Z ->
  let first := ask clients backend now answered
                 {| context := Some c; question := Some q; model := m |} st in
  ask clients backend' now' answered'
    {| context := Some c'; question := Some q'; model := m' |} (fst first)
  = (fst first, {| status := 200; body := AnswerBody r |}).
Proof.
  intros Hsame Hok Hok' Hmiss Hb Hlive first.
  assert (Hkey : cacheKey c' q' = cacheKey c q)
    by (unfold cacheKey; now rewrite Hsame).
  apply (ask_cache_hit _ _ _ _ _ _ _ _ r (answered + 86400000)%Z);
    [assumption | | assumption].
  subst first. rewrite ask_acceptable by assumption. rewrite Hkey.
  destruct (NodeCache.get now (cacheKey c q) (responseCache st))
    as [[r0|] cache]; simpl in Hmiss; [discriminate|].
  rewrite Hb. cbn [fst responseCache]. unfold NodeCache.set.
  now rewrite lookup_insert_eq.
Qed.

Lemma ask_key_shared_across_pairs_witness :
  let first := ask Examples.clients Examples.backend 1000 2000
                 {| context := Some "rates|fees"; question := Some "which?";
                    model := None |} Examples.empty_state in
  ask Examples.clients Examples.failing_backend 3000 4000
    {| context := Some "rates"; question := Some "fees|which?"; model := None |}
    (fst first)
  = (fst first,
     {| status := 200;
        body := AnswerBody {| answer := "42"; source := "GPT-4 Turbo" |} |}).
Proof.
  intros first.
  apply (ask_key_shared_across_pairs Examples.clients Examples.backend
           Examples.failing_backend 1000 2000 3000 4000
           "rates|fees" "which?" "rates" "fees|which?" None None
           Examples.empty_state); [reflexivity .. | vm_compute; discriminate].
Defined.

(** X10.  A request changes the cache under its own key only, and leaves
    the state of the server as it is when its context or its question is
    absent.  It adds exactly one call to the log, for the adapter of the
    requested model with this context and question, when it passes
    validation and is not served from the cache; in every other case it adds
    none. *)
Theorem ask_frame
    (clients : Clients) (backend : Backend) (now answered : Z)
    (req : RequestBody) (st : State) :
  let st' := fst (ask clients backend now answered req st) in
  (forall c q k, context req = Some c -> question req = Some q ->
                 k <> cacheKey c q ->
                 responseCache st' !! k = responseCache st !! k) /\
  ((context req = None \/ question req = None) -> st' = st) /\
  (forall c q, context req = Some c -> question req = Some q ->
               acceptable c q = true ->
               fst (NodeCache.get now (cacheKey c q) (responseCache st)) = None ->
               calls st' = calls st ++ [(getModelAdapter clients (model req), c, q)]) /\
  (forall c q, context req = Some c -> question req = Some q ->
               acceptable c q = false \/
               fst (NodeCache.get now (cacheKey c q) (responseCache st)) <> None ->
               calls st' = calls st).
Proof.
  intros st'. subst st'.
  destruct req as [[c|] [q|] m]; cbn [context question model].
  2-4: split; [intros; discriminate
              | split; [intros; reflexivity
                       | split; intros; discriminate]].
  destruct (acceptable c q) eqn:Hok.
  - rewrite ask_acceptable by assumption.
    pose proof (fun k => @NodeCache_get_other AIResponse now (cacheKey c q) k)
      as Hother.
    destruct (NodeCache.get now (cacheKey c q) (responseCache st))
      as [[r|] cache] eqn:Hget.
    + split; [|split; [|split]].
      * intros c0 q0 k [= <-] [= <-] Hk. cbn [fst responseCache].
        specialize (Hother k (responseCache st) Hk). now rewrite Hget in Hother.
      * intros [H|H]; discriminate.
      * intros c0 q0 [= <-] [= <-] _. rewrite Hget. discriminate.
      * intros c0 q0 [= <-] [= <-] _. reflexivity.
    + destruct (backend (getModelAdapter clients m) c q) as [r|msg];
        cbn [fst snd responseCache calls]; (split; [|split; [|split]]).
      * intros c0 q0 k [= <-] [= <-] Hk. unfold NodeCache.set.
        rewrite lookup_insert_ne by congruence.
        specialize (Hother k (responseCache st) Hk). now rewrite Hget in Hother.
      * intros [H|H]; discriminate.
      * intros c0 q0 [= <-] [= <-] _ _. reflexivity.
      * intros c0 q0 [= <-] [= <-] [H|H];
          [rewrite Hok in H; discriminate | rewrite Hget in H; now elim H].
      * intros c0 q0 k [= <-] [= <-] Hk.
        specialize (Hother k (responseCache st) Hk). now rewrite Hget in Hother.
      * intros [H|H]; discriminate.
      * intros c0 q0 [= <-] [= <-] _ _. reflexivity.
      * intros c0 q0 [= <-] [= <-] [H|H];
          [rewrite Hok in H; discriminate | rewrite Hget in H; now elim H].
  - destruct (ask_unacceptable clients now answered c q m st Hok) as [msg Hmsg].
    rewrite Hmsg. cbn [fst].
    split; [intros; reflexivity
           | split; [intros [H|H]; discriminate | split]].
    + intros c0 q0 [= <-] [= <-] H. rewrite Hok in H. discriminate.
    + intros; reflexivity.
Qed.

(** X11.  [getModelAdapter] never returns an adapter whose client is
    missing, and it returns the fallback adapter, for every requested model,
    exactly when [/api/health] reports [fallback]. *)
Theorem getModelAdapter_uses_configured_client (clients : Clients)
    (preferredModel : option string) :
  (getModelAdapter clients preferredModel = OpenAIAdapter ->
   health_openai (health clients) = true) /\
  (getModelAdapter clients preferredModel = AnthropicAdapter ->
   health_anthropic (health clients) = true) /\
  (getModelAdapter clients preferredModel = FallbackAdapter <->
   health_fallback (health clients) = true).
Proof.
  unfold getModelAdapter, health. cbn [health_openai health_anthropic health_fallback].
  destruct (is_string preferredModel "openai"),
           (is_string preferredModel "anthropic"),
           (openai clients), (anthropic clients); simpl;
    repeat split; intros; (reflexivity || discriminate).
Qed.

Lemma take_length (n : nat) (s : string) :
  String.length (JSString.take n s) <= n.
Proof.
  revert s. induction n as [|n IH]; intros [|c s]; simpl; try lia.
  specialize (IH s). lia.
Qed.

Lemma preview_length (context : string) (n : nat) :
  String.length (preview context n) <= n + 3.
Proof.
  unfold preview, JSString.substring. rewrite length_append.
  match goal with |- String.length (JSString.take ?k ?t) + _ <= _ =>
    pose proof (take_length k t) as H;
    assert (k <= n) by lia
  end.
  destruct (n <? String.length context); simpl; lia.
Qed.

(** X12.  The fallback adapter always labels its response [Demo Mode], and
    its answer has at most 341 characters however long the context is: it
    quotes at most the first 150 characters of the context.  The answer
    depends on the question through its lower-case form only. *)
Theorem FallbackAdapter_bounded_demo_answer (context question : string) :
  let r := FallbackAdapter_generateResponse context question in
  source r = "Demo Mode" /\
  String.length (answer r) <= 341 /\
  (forall question',
     JSString.toLowerCase question' = JSString.toLowerCase question ->
     FallbackAdapter_generateResponse context question' = r).
Proof.
  cbv zeta. repeat split.
  - unfold FallbackAdapter_generateResponse.
    repeat match goal with |- context [if ?b then _ else _] => destruct b end;
      reflexivity.
  - unfold FallbackAdapter_generateResponse.
    pose proof (preview_length context 150).
    pose proof (preview_length context 100).
    pose proof (preview_length context 120).
    repeat match goal with |- context [if ?b then _ else _] => destruct b end;
      cbn [answer]; rewrite ?length_append; simpl String.length; lia.
  - intros question' H. unfold FallbackAdapter_generateResponse. now rewrite H.
Qed.

(** On a body whose context and question are strings, the route on JSON
    values is the route on strings. *)
Lemma askJson_strings (clients : Clients) (backendJson : JsonBackend)
    (backend : Backend) (now answered : Z) (c q : string) (m : option string)
    (st : State) :
  (forall adapter, backendJson adapter (Str c) (Str q) = backend adapter c q) ->
  askJson clients backendJson now answered
    {| json_context := Some (Str c); json_question := Some (Str q);
       json_model := m |} st
  = ask clients backend now answered
      {| context := Some c; question := Some q; model := m |} st.
Proof.
  intros Hbackend. unfold askJson, ask.
  cbn [json_context json_question json_model context question model
       field_truthy field_longer field_text].
  destruct (negb (JSString.truthy c) || negb (JSString.truthy q));
    [reflexivity|].
  destruct (10000 <? Z.of_nat (String.length c))%Z; [reflexivity|].
  destruct (1000 <? Z.of_nat (String.length q))%Z; [reflexivity|].
  destruct (NodeCache.get now (cacheKey c q) (responseCache st)) as [[r|] cache];
    [reflexivity|].
  now rewrite Hbackend.
Qed.

Lemma errorResponse_TypeError :
  errorResponse (Some conversion_message)
  = {| status := 500; body := ErrorBody "Internal server error. Please try again." |} /\
  errorResponse (Some "context.toLowerCase is not a function")
  = {| status := 500; body := ErrorBody "Internal server error. Please try again." |} /\
  errorResponse (Some "question.toLowerCase is not a function")
  = {| status := 500; body := ErrorBody "Internal server error. Please try again." |}.
Proof. repeat split; vm_compute; reflexivity. Qed.

(** X13.  A server without any API key answers with status 200, 400 or 500
    only, and never with 401 or 429.  It answers with status 200 every
    request whose context and question are strings that pass validation:
    its only adapter is the fallback, which does not throw on strings.  A
    context or a question that is truthy but not a string passes the three
    checks as well, unless its length compares greater than the limit; the
    fallback adapter then throws at [toLowerCase], so that, unless an answer
    is served from the cache, the response has status 500 and nothing is
    cached. *)
Theorem ask_without_keys_always_answers
    (remote : JsonBackend) (now answered : Z) (req : JsonBody) (st : State) :
  let clients := {| openai := false; anthropic := false |} in
  let result := askJson clients (withFallbackJson remote) now answered req st in
  In (status (snd result)) [200; 400; 500] /\
  (forall c q,
     json_context req = Some (Str c) -> json_question req = Some (Str q) ->
     result = ask clients
                (withFallback (fun adapter c q => remote adapter (Str c) (Str q)))
                now answered
                {| context := Some c; question := Some q;
                   model := json_model req |} st /\
     (acceptable c q = true ->
      status (snd result) = 200 /\
      (calls (fst result) = calls st \/
       calls (fst result) = calls st ++ [(FallbackAdapter, c, q)] /\
       body (snd result) = AnswerBody (FallbackAdapter_generateResponse c q)))) /\
  (forall context question c q,
     json_context req = Some context -> json_question req = Some question ->
     (forall s, context <> Str s) \/ (forall s, question <> Str s) ->
     field_truthy context = true -> field_truthy question = true ->
     field_longer context 10000 = Some false ->
     field_longer question 1000 = Some false ->
     field_text context = Some c -> field_text question = Some q ->
     fst (NodeCache.get now (cacheKey c q) (responseCache st)) = None ->
     snd result = {| status := 500;
                     body := ErrorBody "Internal server error. Please try again." |} /\
     calls (fst result) = calls st ++ [(FallbackAdapter, c, q)] /\
     responseCache (fst result)
     = snd (NodeCache.get now (cacheKey c q) (responseCache st))).
Proof.
  intros clients result.
  assert (Hadapter : forall m, getModelAdapter clients m = FallbackAdapter).
  { intros m. unfold getModelAdapter, clients. simpl. now rewrite !andb_false_r. }
  destruct errorResponse_TypeError as (Hconv & Hcontext & Hquestion).
  split; [|split].
  - subst result. unfold askJson.
    destruct (json_context req) as [context|]; [|simpl; tauto].
    destruct (json_question req) as [question|]; [|simpl; tauto].
    destruct (negb (field_truthy context) || negb (field_truthy question));
      [simpl; tauto|].
    destruct (field_longer context 10000) as [[|]|];
      [simpl; tauto | | rewrite Hconv; simpl; tauto].
    destruct (field_longer question 1000) as [[|]|];
      [simpl; tauto | | rewrite Hconv; simpl; tauto].
    destruct (field_text context) as [c|]; [|rewrite Hconv; simpl; tauto].
    destruct (field_text question) as [q|]; [|rewrite Hconv; simpl; tauto].
    destruct (NodeCache.get now (cacheKey c q) (responseCache st)) as [[r|] cache];
      [simpl; tauto|].
    rewrite Hadapter. cbn [withFallbackJson].
    destruct context as [c'|? ? ?]; [destruct question as [q'|? ? ?]|];
      cbn [FallbackAdapter_generateResponseJson snd];
      rewrite ?Hcontext, ?Hquestion; simpl; tauto.
  - intros c q Hc Hq.
    assert (Hsame : result = ask clients
              (withFallback (fun adapter c q => remote adapter (Str c) (Str q)))
              now answered
              {| context := Some c; question := Some q;
                 model := json_model req |} st).
    { subst result. destruct req as [rc rq rm]. cbn in Hc, Hq. subst rc rq.
      apply askJson_strings. now intros []. }
    split; [exact Hsame|]. intros Hok. rewrite Hsame.
    rewrite ask_acceptable by assumption. rewrite Hadapter.
    destruct (NodeCache.get now (cacheKey c q) (responseCache st)) as [[r|] cache];
      cbn [withFallback fst snd status body calls]; split; auto.
  - intros context question c q Hc Hq Hnot Htc Htq Hlc Hlq Hxc Hxq Hmiss.
    subst result. unfold askJson. rewrite Hc, Hq, Htc, Htq, Hlc, Hlq, Hxc, Hxq.
    cbn [negb orb].
    destruct (NodeCache.get now (cacheKey c q) (responseCache st))
      as [[r|] cache]; [discriminate|].
    rewrite Hadapter. cbn [withFallbackJson].
    destruct context as [c'|? ? ?]; [destruct question as [q'|? ? ?]|];
      cbn [FallbackAdapter_generateResponseJson fst snd calls responseCache];
      rewrite ?Hcontext, ?Hquestion; auto.
    destruct Hnot as [H|H]; [now elim (H c') | now elim (H q')].
Qed.

Lemma ask_without_keys_always_answers_witness :
  status (snd (askJson {| openai := false; anthropic := false |}
                 (withFallbackJson (fun _ _ _ => Threw None)) 1000 2000
                 Examples.number_request Examples.empty_state)) = 500.
Proof.
  destruct (ask_without_keys_always_answers (fun _ _ _ => Threw None) 1000 2000
              Examples.number_request Examples.empty_state) as (_ & _ & H).
  destruct (H (NonString true (Some false) (Some "5")) (Str "what") "5" "what")
    as [-> _]; try reflexivity.
  left. discriminate.
Defined.

End ServerMore.

(** ** Searching the document *)

Section SearchFacts.
Import PDFJS PDFViewer.

Lemma toLowerCase_length s :
  String.length (JSString.toLowerCase s) = String.length s.
Proof. induction s as [|c s IH]; simpl; congruence. Qed.

Lemma toLowerCase_take n s :
  JSString.toLowerCase (JSString.take n s)
  = JSString.take n (JSString.toLowerCase s).
Proof.
  revert s. induction n as [|n IH]; intros [|c s]; simpl; try reflexivity.
  now rewrite IH.
Qed.

Lemma toLowerCase_drop n s :
  JSString.toLowerCase (JSString.drop n s)
  = JSString.drop n (JSString.toLowerCase s).
Proof.
  revert s. induction n as [|n IH]; intros [|c s]; simpl; try reflexivity.
  apply IH.
Qed.

Lemma length_drop n s :
  String.length (JSString.drop n s) = String.length s - n.
Proof.
  revert s. induction n as [|n IH]; intros [|c s]; simpl; try lia. apply IH.
Qed.

Lemma drop_drop j a s :
  JSString.drop j (JSString.drop a s) = JSString.drop (a + j) s.
Proof.
  revert s. induction a as [|a IH]; intros s; simpl; [reflexivity|].
  destruct s as [|c s]; [now destruct j | apply IH].
Qed.

Lemma drop_take j m s :
  JSString.drop j (JSString.take m s)
  = JSString.take (m - j) (JSString.drop j s).
Proof.
  revert m s. induction j as [|j IH]; intros m s; simpl.
  - now rewrite Nat.sub_0_r.
  - destruct m as [|m], s as [|c s']; simpl; try reflexivity.
    all: try (now destruct (m - j)); try apply IH.
    all: now destruct (JSString.drop j s').
Qed.

Lemma prefix_length q s :
  String.prefix q s = true -> String.length q <= String.length s.
Proof.
  revert s. induction q as [|a q IH]; intros [|b s]; simpl; try lia;
    try discriminate.
  destruct (ascii_dec a b); [|discriminate]. intros H. apply IH in H. lia.
Qed.

Lemma prefix_take q m s :
  String.prefix q s = true -> String.length q <= m ->
  String.prefix q (JSString.take m s) = true.
Proof.
  revert m s. induction q as [|a q IH]; intros m s.
  { intros _ _. now destruct (JSString.take m s). }
  destruct s as [|b s]; [discriminate|]. simpl.
  destruct (ascii_dec a b); [|discriminate]. intros H Hm.
  destruct m as [|m]; [lia|]. simpl.
  destruct (ascii_dec a b); [|contradiction]. apply IH; [assumption | lia].
Qed.

Lemma includes_drop q j s :
  String.prefix q (JSString.drop j s) = true -> JSString.includes q s = true.
Proof.
  revert s. induction j as [|j IH]; intros s H.
  - cbn [JSString.drop] in H. destruct s; cbn [JSString.includes];
      rewrite H; reflexivity.
  - destruct s as [|c s].
    + cbn [JSString.drop] in H. cbn [JSString.includes]. now rewrite H.
    + cbn [JSString.drop] in H. apply IH in H. cbn [JSString.includes].
      rewrite H. apply orb_true_r.
Qed.

Lemma indexOf_from_spec q s i :
  JSString.includes q s = true ->
  exists k, JSString.indexOf_from q s i = (i + Z.of_nat k)%Z /\
            String.prefix q (JSString.drop k s) = true /\
            k <= String.length s.
Proof.
  revert i. induction s as [|c s IH]; intros i H.
  - cbn [JSString.includes] in H. rewrite orb_false_r in H. exists 0.
    cbn [JSString.indexOf_from JSString.drop]. rewrite H.
    split; [lia | split; [reflexivity | lia]].
  - cbn [JSString.includes] in H. cbn [JSString.indexOf_from].
    destruct (String.prefix q (String c s)) eqn:E.
    + exists 0. cbn [JSString.drop].
      split; [lia | split; [assumption | lia]].
    + cbn [orb] in H. destruct (IH (i + 1)%Z H) as (k & Hk & Hp & Hl).
      exists (S k). rewrite Hk. cbn [JSString.drop].
      repeat split; [lia | assumption | simpl; lia].
Qed.

Lemma indexOf_from_miss q s i :
  JSString.includes q s = false -> JSString.indexOf_from q s i = (-1)%Z.
Proof.
  revert i. induction s as [|c s IH]; intros i H.
  - cbn [JSString.includes] in H. rewrite orb_false_r in H.
    cbn [JSString.indexOf_from]. now rewrite H.
  - cbn [JSString.includes] in H. apply orb_false_iff in H as [Hp Hi].
    cbn [JSString.indexOf_from]. rewrite Hp. now apply IH.
Qed.

Lemma substring_nat a b s :
  a <= b -> b <= String.length s ->
  JSString.substring (Z.of_nat a) (Z.of_nat b) s
  = JSString.take (b - a) (JSString.drop a s).
Proof.
  intros Hab Hb. unfold JSString.substring. cbv zeta.
  replace (Z.min (Z.max (Z.of_nat a) 0) (Z.of_nat (String.length s)))
    with (Z.of_nat a) by lia.
  replace (Z.min (Z.max (Z.of_nat b) 0) (Z.of_nat (String.length s)))
    with (Z.of_nat b) by lia.
  replace (Z.to_nat (Z.max (Z.of_nat a) (Z.of_nat b) - Z.min (Z.of_nat a) (Z.of_nat b)))
    with (b - a) by lia.
  now replace (Z.to_nat (Z.min (Z.of_nat a) (Z.of_nat b))) with a by lia.
Qed.

(** The snippet cut around the first match holds the match, and at most 50
    characters on each side of it. *)
Lemma snippet_holds_match query fullText :
  JSString.includes query (JSString.toLowerCase fullText) = true ->
  let index := JSString.indexOf query (JSString.toLowerCase fullText) in
  let snippet :=
    JSString.substring (Z.max 0 (index - 50))
      (Z.min (Z.of_nat (String.length fullText))
             (index + Z.of_nat (String.length query) + 50)) fullText in
  JSString.includes query (JSString.toLowerCase snippet) = true /\
  String.length snippet <= String.length query + 100.
Proof.
  intros Hinc index snippet. subst snippet index. unfold JSString.indexOf.
  destruct (indexOf_from_spec query _ 0%Z Hinc) as (k & -> & Hp & Hk).
  pose proof (prefix_length _ _ Hp) as Hq.
  rewrite length_drop, toLowerCase_length in Hq.
  rewrite toLowerCase_length in Hk.
  set (len := String.length fullText) in *.
  set (n := String.length query) in *.
  replace (Z.max 0 (0 + Z.of_nat k - 50)) with (Z.of_nat (k - 50)) by lia.
  replace (Z.min (Z.of_nat len) (0 + Z.of_nat k + Z.of_nat n + 50))
    with (Z.of_nat (Nat.min len (k + n + 50))) by lia.
  rewrite substring_nat by (subst len; lia).
  split.
  - rewrite toLowerCase_take, toLowerCase_drop.
    apply (includes_drop query (k - (k - 50))).
    rewrite drop_take, drop_drop.
    replace (k - 50 + (k - (k - 50))) with k by lia.
    apply prefix_take; [assumption | fold n; lia].
  - pose proof (take_length (Nat.min len (k + n + 50) - (k - 50))
                  (JSString.drop (k - 50) fullText)). lia.
Qed.

Lemma map_fst_combine {A B : Type} (l1 : list A) (l2 : list B) :
  length l1 = length l2 -> map fst (combine l1 l2) = l1.
Proof.
  revert l2. induction l1 as [|a l1 IH]; intros [|b l2]; simpl;
    try reflexivity; try discriminate.
  intros [= H]. now rewrite IH.
Qed.

Lemma search_pages query (pageTexts : list (nat * list TextItem)) :
  map result_page (flat_map (searchPage query) pageTexts)
  = map fst
      (List.filter
         (fun entry =>
            JSString.includes query
              (JSString.toLowerCase (JSString.join " " (map str (snd entry)))))
         pageTexts).
Proof.
  induction pageTexts as [|entry rest IH]; [reflexivity|].
  cbn [flat_map List.filter]. rewrite map_app, IH. unfold searchPage at 1.
  cbv zeta.
  now destruct (JSString.includes query
                  (JSString.toLowerCase (JSString.join " " (map str (snd entry))))).
Qed.

Lemma filter_seq_sorted (f : nat * list TextItem -> bool) l :
  StronglySorted lt (map fst l) ->
  StronglySorted lt (map fst (List.filter f l)).
Proof.
  induction l as [|x l IH]; simpl; intros H; [constructor|].
  inversion H as [|? ? Hs Hall]; subst. specialize (IH Hs).
  destruct (f x); [|assumption]. simpl. constructor; [assumption|].
  rewrite List.Forall_forall in *. intros y Hy. apply Hall.
  apply in_map_iff in Hy as (e & <- & He). apply filter_In in He as [He _].
  now apply in_map.
Qed.

Lemma seq_sorted start len : StronglySorted lt (seq start len).
Proof.
  revert start. induction len as [|len IH]; intros start; simpl; constructor.
  - apply IH.
  - apply List.Forall_forall. intros y Hy. apply in_seq in Hy. lia.
Qed.

(** X14.  The search gives one result for each page whose text holds the
    query, case set aside, and no other; the results come in page order,
    and none for a blank query.  Every result names a page of the document,
    and its snippet holds the match and at most 50 characters on each side
    of it. *)
Theorem search_results (searchQuery : string) (pages : list (list TextItem)) :
  let results := search searchQuery (loadPDF_texts pages) in
  let query := JSString.toLowerCase searchQuery in
  map result_page results
  = map fst
      (List.filter
         (fun entry =>
            JSString.truthy (JSString.trim searchQuery)
            && JSString.includes query
                 (JSString.toLowerCase (JSString.join " " (map str (snd entry)))))
         (loadPDF_texts pages)) /\
  StronglySorted lt (map result_page results) /\
  Forall (fun r =>
            1 <= result_page r <= length pages /\
            JSString.includes query (JSString.toLowerCase (result_text r)) = true /\
            String.length (result_text r) <= String.length searchQuery + 100)
         results.
Proof.
  intros results query.
  assert (Hpages :
    map result_page results
    = map fst
        (List.filter
           (fun entry =>
              JSString.truthy (JSString.trim searchQuery)
              && JSString.includes query
                   (JSString.toLowerCase (JSString.join " " (map str (snd entry)))))
           (loadPDF_texts pages))).
  { subst results. unfold search.
    destruct (JSString.truthy (JSString.trim searchQuery)); cbn [negb orb andb].
    - destruct (loadPDF_texts pages) as [|entry rest] eqn:E; [reflexivity|].
      cbn [length Nat.eqb]. apply search_pages.
    - induction (loadPDF_texts pages) as [|entry rest IH]; [reflexivity|].
      exact IH. }
  assert (Hkeys : map fst (loadPDF_texts pages) = seq 1 (length pages)).
  { unfold loadPDF_texts. apply map_fst_combine. apply length_seq. }
  split; [exact Hpages|]. split.
  - rewrite Hpages. apply filter_seq_sorted. rewrite Hkeys. apply seq_sorted.
  - apply List.Forall_forall. intros r Hr. split.
    + assert (Hin : In (result_page r) (map result_page results))
        by now apply in_map.
      rewrite Hpages in Hin. apply in_map_iff in Hin as (e & <- & He).
      apply filter_In in He as [He _].
      apply (in_map fst) in He. rewrite Hkeys in He. apply in_seq in He. lia.
    + subst results. unfold search in Hr.
      destruct (negb (JSString.truthy (JSString.trim searchQuery))
                || (length (loadPDF_texts pages) =? 0)); [contradiction|].
      apply in_flat_map in Hr as (entry & _ & Hr). unfold searchPage in Hr.
      cbv zeta in Hr.
      destruct (JSString.includes (JSString.toLowerCase searchQuery)
                  (JSString.toLowerCase (JSString.join " " (map str (snd entry)))))
        eqn:E; [|contradiction].
      destruct Hr as [<-|[]]. cbn [result_text].
      pose proof (snippet_holds_match _ _ E) as [H1 H2]. cbv zeta in H1, H2.
      split; [exact H1|]. etransitivity; [exact H2|].
      rewrite toLowerCase_length. lia.
Qed.

End SearchFacts.

(** ** Pages, zoom and the selection state of the viewer *)

Section ViewerFacts.
Import PDFJS PDFViewer.

Lemma search_result_page searchQuery (pages : list (list TextItem)) index r :
  nth_error (search searchQuery (loadPDF_texts pages)) index = Some r ->
  1 <= result_page r <= length pages.
Proof.
  intros H. apply nth_error_In in H.
  assert (Hin : In (result_page r)
                  (map result_page (search searchQuery (loadPDF_texts pages))))
    by now apply in_map.
  assert (Hsub : forall p,
             In p (map result_page (search searchQuery (loadPDF_texts pages))) ->
             In p (map fst (loadPDF_texts pages))).
  { intros p. unfold search.
    destruct (negb (JSString.truthy (JSString.trim searchQuery))
              || (length (loadPDF_texts pages) =? 0)); [intros []|].
    rewrite search_pages. intros Hp.
    apply in_map_iff in Hp as (e & <- & He). apply filter_In in He as [He _].
    now apply in_map. }
  apply Hsub in Hin. unfold loadPDF_texts in Hin.
  rewrite map_fst_combine in Hin by apply length_seq.
  apply in_seq in Hin. lia.
Qed.

Lemma navigate_in_range (pages : list (list TextItem)) st ev :
  1 <= currentPage st <= length pages -> totalPages st = length pages ->
  let st' := navigate (loadPDF_texts pages) st ev in
  1 <= currentPage st' <= length pages /\ totalPages st' = length pages.
Proof.
  intros Hc Ht. destruct ev as [| |[n|]|q i]; cbn [navigate].
  - unfold goToPreviousPage. destruct (1 <? currentPage st) eqn:E;
      cbn [currentPage totalPages]; [|tauto].
    apply Nat.ltb_lt in E. lia.
  - unfold goToNextPage. destruct (currentPage st <? totalPages st) eqn:E;
      cbn [currentPage totalPages]; [|tauto].
    apply Nat.ltb_lt in E. lia.
  - unfold handlePageJump.
    destruct ((1 <=? n)%Z && (n <=? Z.of_nat (totalPages st))%Z) eqn:E;
      cbn [currentPage totalPages]; [|tauto].
    apply andb_true_iff in E as [E1 E2].
    apply Z.leb_le in E1. apply Z.leb_le in E2. lia.
  - cbn [handlePageJump]. tauto.
  - destruct (nth_error (search q (loadPDF_texts pages)) i) as [r|] eqn:E;
      cbn [currentPage totalPages]; [|tauto].
    apply search_result_page in E. lia.
Qed.

(** X15.  Once a document with at least one page is loaded, the current
    page is always a page of the document, whatever the reader does with the
    page controls of the viewer and the results of the search panel. *)
Theorem current_page_stays_in_document (pages : list (list TextItem))
    (events : list PageEvent) :
  pages <> [] ->
  let st := fold_left (navigate (loadPDF_texts pages)) events
              (loadPDF_pages pages) in
  1 <= currentPage st <= length pages /\ totalPages st = length pages.
Proof.
  intros Hpages.
  assert (Hinit : 1 <= currentPage (loadPDF_pages pages) <= length pages /\
                  totalPages (loadPDF_pages pages) = length pages).
  { cbn [loadPDF_pages currentPage totalPages].
    destruct pages; [contradiction | simpl; lia]. }
  revert Hinit. generalize (loadPDF_pages pages).
  induction events as [|ev events IH]; intros st Hst; [exact Hst|].
  cbn [fold_left]. apply IH. now apply navigate_in_range.
Qed.

Lemma current_page_stays_in_document_witness :
  let pages := [Examples.title_page; Examples.short_page] in
  let st := fold_left (navigate (loadPDF_texts pages))
              [NextPage; NextPage; PageJump (Some 7%Z); PreviousPage;
               ResultClick "a" 0]
              (loadPDF_pages pages) in
  1 <= currentPage st <= 2 /\ totalPages st = 2.
Proof.
  apply (current_page_stays_in_document
           [Examples.title_page; Examples.short_page]).
  discriminate.
Defined.

(** X16.  From the scale the viewer starts with, the zoom buttons never
    take the scale out of the range from 0.5 to 3, and a step in followed by
    a step out gives the scale back, except at the upper end. *)
Theorem zoom_stays_in_range (events : list ZoomEvent) :
  let scale := fold_left zoom events initialScale in
  (0.5 <=? scale)%float = true /\ (scale <=? 3)%float = true /\
  (scale <> 3%float -> zoomOut (zoomIn scale) = scale).
Proof.
  cbv zeta.
  assert (Hlevel : In (fold_left zoom events initialScale)
                     [0.5; 0.75; 1; 1.25; 1.5; 1.75; 2; 2.25; 2.5; 2.75; 3]%float).
  { assert (Hinit : In initialScale
                      [0.5; 0.75; 1; 1.25; 1.5; 1.75; 2; 2.25; 2.5; 2.75; 3]%float)
      by (vm_compute; tauto).
    revert Hinit. generalize initialScale.
    induction events as [|ev events IH]; intros s Hs; [exact Hs|].
    cbn [fold_left]. apply IH. clear IH.
    cbn [In] in Hs.
    repeat (destruct Hs as [<-|Hs];
            [destruct ev; vm_compute; tauto|]).
    contradiction. }
  cbn [In] in Hlevel.
  repeat (destruct Hlevel as [<-|Hlevel];
          [repeat split; try reflexivity;
           try (intros _; vm_compute; reflexivity);
           try (intros H; now contradiction H)|]).
  contradiction.
Qed.

Lemma handle_keeps_invariant (st : State) (ev : SelectionEvent) :
  (isDragging st = true -> selectedText st = "") ->
  (selection st = None -> selectedText st = "") ->
  (isDragging (handle st ev) = true -> selectedText (handle st ev) = "") /\
  (selection (handle st ev) = None -> selectedText (handle st ev) = "").
Proof.
  intros Hd Hs. destruct ev as [canvas e|canvas e|pageTexts page viewport|];
    cbn [handle].
  - unfold handleMouseDown. destruct canvas; [now cbn | tauto].
  - unfold handleMouseMove. destruct canvas; [|tauto].
    destruct (isDragging st) eqn:E; cbn [negb]; [|rewrite E; tauto].
    cbn. split; [auto | discriminate].
  - unfold handleMouseUp.
    destruct (isDragging st), (selection st), (pageTexts !! page), viewport;
      cbn; split; auto; try discriminate.
  - now cbn.
Qed.

(** X17.  Whatever the sequence of mouse events and clearings the viewer
    goes through, no text is selected while a drag is in progress, and
    selected text always comes with its selection rectangle. *)
Theorem selected_text_has_selection (events : list SelectionEvent) :
  let st := fold_left handle events initialState in
  (isDragging st = true -> selectedText st = "") /\
  (selectedText st <> "" -> selection st <> None).
Proof.
  cbv zeta.
  assert (H : (isDragging (fold_left handle events initialState) = true ->
               selectedText (fold_left handle events initialState) = "") /\
              (selection (fold_left handle events initialState) = None ->
               selectedText (fold_left handle events initialState) = "")).
  { assert (Hinit : (isDragging initialState = true ->
                     selectedText initialState = "") /\
                    (selection initialState = None ->
                     selectedText initialState = "")) by now cbn.
    revert Hinit. generalize initialState.
    induction events as [|ev events IH]; intros st Hst; [exact Hst|].
    cbn [fold_left]. apply IH. destruct Hst. now apply handle_keeps_invariant. }
  destruct H as [H1 H2]. split; [exact H1|]. intros Ht Hn. now apply Ht, H2.
Qed.

End ViewerFacts.

(** ** The question panel and the server *)

Section PanelFacts.
Import Server Spec QuestionPanel.

Lemma trim_truthy (s : string) :
  JSString.truthy (JSString.trim s) = true -> JSString.truthy s = true.
Proof. destruct s; [discriminate | reflexivity]. Qed.

Lemma acceptable_false_cases (c q : string) :
  JSString.truthy c = true -> JSString.truthy q = true ->
  acceptable c q = false ->
  (10000 < Z.of_nat (String.length c))%Z \/
  (1000 < Z.of_nat (String.length q))%Z.
Proof.
  unfold acceptable. intros -> ->. cbn [andb].
  destruct (10000 <? Z.of_nat (String.length c))%Z eqn:Ec.
  - intros _. left. now apply Z.ltb_lt in Ec.
  - destruct (1000 <? Z.of_nat (String.length q))%Z eqn:Eq; [|discriminate].
    intros _. right. now apply Z.ltb_lt in Eq.
Qed.

(** The statuses of the route: 200 with an answer, 400 for a request that
    fails validation, and 401, 429 or 500 when the adapter throws. *)
Lemma ask_status_cases clients backend now answered c q m st :
  let response :=
    snd (ask clients backend now answered
           {| Server.context := Some c; Server.question := Some q;
              Server.model := m |} st) in
  (acceptable c q = false /\ status response = 400) \/
  (acceptable c q = true /\
   ((status response = 200 /\ exists r, body response = AnswerBody r) \/
    status response = 401 \/ status response = 429 \/ status response = 500)).
Proof.
  cbv zeta. destruct (acceptable c q) eqn:Hok.
  - right. split; [reflexivity|]. rewrite ask_acceptable by assumption.
    destruct (NodeCache.get now (cacheKey c q) (responseCache st)) as [[r|] cache].
    + left. cbn. eauto.
    + destruct (backend (getModelAdapter clients m) c q) as [r|msg].
      * left. cbn. eauto.
      * right. cbn [snd]. apply errorResponse_status.
  - left. split; [reflexivity|].
    destruct (ask_unacceptable clients now answered c q m st Hok) as [msg Hmsg].
    now rewrite Hmsg.
Qed.

(** X18.  The panel posts a request only in a mode other than the demo mode
    and only when the selected text and the question are not blank.  The
    request then carries both, so that the server can refuse it with status
    400 only for its length, and the prompt shown by the panel is the prompt
    that the adapters of the server send to their models. *)
Theorem handleSubmit_posts_complete_requests
    (fetch : RequestBody -> FetchOutcome) (selectedText : string)
    (apiMode : ApiMode) (st : QuestionPanel.State) :
  let request := {| Server.context := Some selectedText;
                    Server.question := Some (QuestionPanel.question st);
                    Server.model := Some (mode_string apiMode) |} in
  sent (handleSubmit fetch selectedText apiMode st) = [] \/
  (sent (handleSubmit fetch selectedText apiMode st) = [request] /\
   apiMode <> Fallback /\
   JSString.trim selectedText <> "" /\
   JSString.trim (QuestionPanel.question st) <> "" /\
   generatePrompt selectedText (QuestionPanel.question st)
   = adapterPrompt selectedText (QuestionPanel.question st) /\
   forall clients backend now answered srv,
     status (snd (ask clients backend now answered request srv)) = 400 ->
     (10000 < Z.of_nat (String.length selectedText))%Z \/
     (1000 < Z.of_nat (String.length (QuestionPanel.question st)))%Z).
Proof.
  cbv zeta. unfold handleSubmit.
  destruct (JSString.truthy (JSString.trim selectedText)) eqn:Et;
    cbn [negb]; [|now left].
  destruct (JSString.truthy (JSString.trim (QuestionPanel.question st))) eqn:Eq;
    cbn [negb]; [|now left].
  assert (Hrest :
    JSString.trim selectedText <> "" /\
    JSString.trim (QuestionPanel.question st) <> "" /\
    generatePrompt selectedText (QuestionPanel.question st)
    = adapterPrompt selectedText (QuestionPanel.question st) /\
    forall clients backend now answered srv m,
      status (snd (ask clients backend now answered
                     {| Server.context := Some selectedText;
                        Server.question := Some (QuestionPanel.question st);
                        Server.model := m |} srv)) = 400 ->
      (10000 < Z.of_nat (String.length selectedText))%Z \/
      (1000 < Z.of_nat (String.length (QuestionPanel.question st)))%Z).
  { split; [now apply truthy_string_iff|].
    split; [now apply truthy_string_iff|]. split.
    - unfold generatePrompt. rewrite Et, Eq. reflexivity.
    - intros clients backend now answered srv m H400.
      destruct (ask_status_cases clients backend now answered selectedText
                  (QuestionPanel.question st) m srv)
        as [[Hbad _]|[_ Hst]].
      + apply acceptable_false_cases; [now apply trim_truthy .. | assumption].
      + rewrite H400 in Hst.
        destruct Hst as [[? _]|[?|[?|?]]]; discriminate. }
  destruct Hrest as (H1 & H2 & H3 & H4).
  destruct apiMode; [now left | right ..].
  - split; [|repeat split; try assumption; try discriminate; intros; eapply H4; eassumption].
    destruct (fetch _) as [response|message]; [destruct (ok response)|];
      reflexivity.
  - split; [|repeat split; try assumption; try discriminate; intros; eapply H4; eassumption].
    destruct (fetch _) as [response|message]; [destruct (ok response)|];
      reflexivity.
Qed.

(** X19.  When the panel, in a mode other than the demo mode, submits text
    and a question that are not blank to the server, it ends in one of two
    ways: the server answered with status 200, and the panel shows the body
    of that response, which is an answer with its source, and no error; or
    the server answered 400, 401, 429 or 500, and the panel shows no answer,
    reports the status in its error message and schedules the switch to the
    demo mode. *)
Theorem handleSubmit_with_server
    (clients : Clients) (backend : Backend) (now answered : Z)
    (srv : Server.State) (selectedText : string) (apiMode : ApiMode)
    (st : QuestionPanel.State) :
  JSString.trim selectedText <> "" ->
  JSString.trim (QuestionPanel.question st) <> "" ->
  apiMode <> Fallback ->
  let response :=
    snd (ask clients backend now answered
           {| Server.context := Some selectedText;
              Server.question := Some (QuestionPanel.question st);
              Server.model := Some (mode_string apiMode) |} srv) in
  let result := handleSubmit (served clients backend now answered srv)
                  selectedText apiMode st in
  isLoading (state result) = false /\
  ((status response = 200 /\
    QuestionPanel.answer (state result) = Some (body response) /\
    (exists r, body response = AnswerBody r) /\
    error (state result) = None /\ switching result = false) \/
   (In (status response) [400; 401; 429; 500] /\
    QuestionPanel.answer (state result) = None /\
    error (state result)
    = Some (("HTTP error! status: "
             +:+ NilEmpty.string_of_uint (Nat.to_uint (status response)))
            +:+ ". Switching to demo mode...") /\
    switching result = true /\
    switchToDemo (state result)
    = ({| QuestionPanel.question := QuestionPanel.question st;
          QuestionPanel.answer := None; isLoading := false; error := None |},
       Fallback))).
Proof.
  intros Ht Hq Hmode response result. subst result. unfold handleSubmit.
  apply truthy_string_iff in Ht, Hq. rewrite Ht, Hq. cbn [negb].
  unfold served. fold response.
  pose proof (ask_status_cases clients backend now answered selectedText
                (QuestionPanel.question st) (Some (mode_string apiMode)) srv)
    as Hcases. cbv zeta in Hcases. fold response in Hcases.
  assert (Hok : ok response = (status response =? 200)).
  { unfold ok.
    destruct Hcases as [[_ ->]|[_ [[-> _]|[->|[->| ->]]]]]; reflexivity. }
  destruct apiMode; [contradiction | |];
    rewrite Hok;
    (destruct Hcases as [[_ Hs]|[_ [[Hs [r Hr]]|Hs]]];
     [ rewrite Hs; cbn; split; [reflexivity|]; right; repeat split; tauto
     | rewrite Hs; cbn; split; [reflexivity|]; left; rewrite Hr; eauto 6
     | destruct Hs as [Hs|[Hs|Hs]]; rewrite Hs; cbn;
       (split; [reflexivity|]); right; repeat split; tauto ]).
Qed.

Lemma handleSubmit_with_server_witness :
  error (state (handleSubmit
                  (served Examples.clients Examples.failing_backend 1000 2000
                     Examples.empty_state)
                  "The total is 42." OpenAI
                  {| QuestionPanel.question := "What is the total?";
                     QuestionPanel.answer := None; isLoading := false;
                     error := None |}))
  = Some "HTTP error! status: 429. Switching to demo mode...".
Proof.
  destruct (handleSubmit_with_server Examples.clients Examples.failing_backend
              1000 2000 Examples.empty_state "The total is 42." OpenAI
              {| QuestionPanel.question := "What is the total?";
                 QuestionPanel.answer := None; isLoading := false;
                 error := None |})
    as [_ [(H & _)|(_ & _ & H & _)]];
    [discriminate | discriminate | discriminate | discriminate H | exact H].
Defined.

(** X20.  In the demo mode the panel posts nothing: for text and a question
    that are not blank it shows the answer made up on the spot, which is
    labelled [Demo Mode], quotes at most the first 120 characters of the
    selected text and has at most 357 characters. *)
Theorem handleSubmit_demo_mode
    (fetch : RequestBody -> FetchOutcome) (selectedText : string)
    (st : QuestionPanel.State) :
  JSString.trim selectedText <> "" ->
  JSString.trim (QuestionPanel.question st) <> "" ->
  let result := handleSubmit fetch selectedText Fallback st in
  let r := generateFallbackResponse selectedText (QuestionPanel.question st) in
  sent result = [] /\ switching result = false /\
  error (state result) = None /\
  QuestionPanel.answer (state result) = Some (AnswerBody r) /\
  source r = "Demo Mode" /\
  String.length (Server.answer r) <= 357.
Proof.
  intros Ht Hq result r. subst result r. unfold handleSubmit.
  apply truthy_string_iff in Ht, Hq. rewrite Ht, Hq. cbn.
  repeat split.
  - unfold generateFallbackResponse.
    repeat match goal with |- context [if ?b then _ else _] => destruct b end;
      reflexivity.
  - unfold generateFallbackResponse.
    pose proof (preview_length selectedText 120).
    repeat match goal with |- context [if ?b then _ else _] => destruct b end;
      cbn [Server.answer]; rewrite ?length_append; simpl String.length; lia.
Qed.

Lemma handleSubmit_demo_mode_witness :
  sent (handleSubmit (fun _ => Rejected "offline") "The total is 42." Fallback
          {| QuestionPanel.question := "What is the total?";
             QuestionPanel.answer := None; isLoading := false;
             error := None |}) = [].
Proof.
  destruct (handleSubmit_demo_mode (fun _ => Rejected "offline")
              "The total is 42."
              {| QuestionPanel.question := "What is the total?";
                 QuestionPanel.answer := None; isLoading := false;
                 error := None |}) as [H _];
    [discriminate | discriminate | exact H].
Defined.

End PanelFacts.

(** ** The answer of the standalone viewer *)

Section AnswerFacts.
Import StandaloneApp StandaloneAsk.

Lemma slice_to_length (n : nat) (s : string) :
  String.length (JSString.slice_to n s) <= n.
Proof. apply take_length. Qed.

Lemma demoAnswer_cases (primaryExcerpt supplementaryText : string) :
  let answer := demoAnswer primaryExcerpt supplementaryText in
  answer <> "" /\ String.length answer <= 179 /\
  (answer = "Not enough information in the document to answer that." <->
   primaryExcerpt = "" /\ supplementaryText = "").
Proof.
  cbv zeta. unfold demoAnswer.
  pose proof (slice_to_length 120 primaryExcerpt).
  pose proof (slice_to_length 120 supplementaryText).
  set (p := JSString.slice_to 120 primaryExcerpt) in *.
  set (q := JSString.slice_to 120 supplementaryText) in *.
  assert (Hfalse : forall s, JSString.truthy s = false -> s = "").
  { intros s Hs. destruct s; [reflexivity | discriminate]. }
  destruct (JSString.truthy primaryExcerpt) eqn:Ep;
    destruct (JSString.truthy supplementaryText) eqn:Es.
  all: try apply truthy_string_iff in Ep.
  all: try apply truthy_string_iff in Es.
  all: try apply Hfalse in Ep.
  all: try apply Hfalse in Es.
  all: split; [intros H'; apply (f_equal (String.get 0)) in H';
               vm_compute in H'; discriminate|].
  all: split; [rewrite ?length_append; cbn [String.length]; lia|].
  all: split; [|intros [? ?]; congruence || reflexivity].
  all: try (intros H'; apply (f_equal (String.get 0)) in H';
            vm_compute in H'; discriminate).
  intros _. now split.
Qed.

Lemma scoreBy_not_array (vectorDB : list VectorEntry) :
  vectorDB <> [] -> scoreBy NotArray vectorDB = None.
Proof. destruct vectorDB; [congruence | reflexivity]. Qed.

Lemma scoreBy_vector (v : list float) (vectorDB : list VectorEntry) :
  (scoreBy (Vector v) vectorDB = None <->
   exists e, In e vectorDB /\ embedding e = NotArray) /\
  (forall scored, scoreBy (Vector v) vectorDB = Some scored ->
                  scored = Ranker.scoreBy v (entriesOf vectorDB)).
Proof.
  induction vectorDB as [|e db [IH1 IH2]]; cbn [scoreBy].
  - split; [split; [discriminate | intros (e & [] & _)]|].
    now intros scored [= <-].
  - unfold cosineSimilarity. destruct (embedding e) as [w|] eqn:Ee.
    + destruct (scoreBy (Vector v) db) as [scored|].
      * split.
        -- split; [discriminate|]. intros (e' & [<-|Hin] & He').
           ++ congruence.
           ++ assert (Some scored = None) by (apply IH1; eauto). discriminate.
        -- intros scored' [= <-]. rewrite (IH2 scored eq_refl).
           unfold Ranker.scoreBy, entriesOf.
           cbn [map Ranker.text Ranker.embedding]. now rewrite Ee.
      * split; [|discriminate]. split; [|reflexivity].
        intros _. destruct IH1 as [IH1 _].
        destruct (IH1 eq_refl) as (e' & Hin & He'). exists e'. split; [now right | assumption].
    + split; [|discriminate]. split; [|reflexivity].
      intros _. exists e. split; [now left | assumption].
Qed.

(** When the retrieval throws, and what it gives when it does not. *)
Lemma supplementaryText_cases (emb : Embedder) (vectorDB : list VectorEntry)
    (question extractedText : string) :
  vectorDB <> [] ->
  let retrieved := supplementaryText (Some emb) vectorDB question extractedText in
  (retrieved = None <->
   (forall v, emb question <> Some (Vector v)) \/
   (exists e, In e vectorDB /\ embedding e = NotArray) \/
   (JSString.trim extractedText <> "" /\
    forall v, emb (JSString.trim extractedText) <> Some (Vector v))) /\
  (forall supp, retrieved = Some supp ->
     supp = Ranker.supplementaryText (Some (vectorsOf emb)) (entriesOf vectorDB)
              question extractedText).
Proof.
  intros Hdb retrieved. subst retrieved.
  unfold supplementaryText, Ranker.supplementaryText, Ranker.supplements.
  assert (Hlen : (0 <? length vectorDB) = true).
  { destruct vectorDB; [congruence | reflexivity]. }
  assert (Hlen' : (0 <? length (entriesOf vectorDB)) = true).
  { unfold entriesOf. now rewrite length_map. }
  rewrite Hlen, Hlen'. unfold combinedScores, Ranker.combinedArray,
    Ranker.combinedScores, vectorsOf.
  set (pe := JSString.trim extractedText).
  destruct (emb question) as [[q|]|] eqn:Eq.
  - destruct (scoreBy_vector q vectorDB) as [Hnone Hsome].
    destruct (scoreBy (Vector q) vectorDB) as [scored|] eqn:Escored.
    + rewrite (Hsome scored eq_refl).
      assert (Hall : ~ exists e, In e vectorDB /\ embedding e = NotArray).
      { intros H. apply Hnone in H. discriminate. }
      destruct (JSString.truthy pe) eqn:Epe.
      * apply truthy_string_iff in Epe.
        destruct (emb pe) as [[x|]|] eqn:Ex.
        -- destruct (scoreBy_vector x vectorDB) as [Hnone' Hsome'].
           destruct (scoreBy (Vector x) vectorDB) as [scored'|] eqn:Escored'.
           ++ rewrite (Hsome' scored' eq_refl). split.
              ** split; [discriminate|].
                 intros [H|[H|[_ H]]]; [now elim (H q) | now elim Hall | now elim (H x)].
              ** now intros supp [= <-].
           ++ exfalso. apply Hall, Hnone'. reflexivity.
        -- rewrite scoreBy_not_array by assumption. split; [|discriminate].
           split; [|reflexivity]. intros _. right. right.
           split; [assumption | discriminate].
        -- split; [|discriminate]. split; [|reflexivity]. intros _.
           right. right. split; [assumption | discriminate].
      * split.
        -- split; [discriminate|].
           intros [H|[H|[H _]]]; [now elim (H q) | now elim Hall|].
           apply truthy_string_iff in H. congruence.
        -- now intros supp [= <-].
    + split; [|discriminate]. split; [|reflexivity]. intros _.
      right. left. now apply Hnone.
  - rewrite scoreBy_not_array by assumption. split; [|discriminate].
    split; [|reflexivity]. intros _. left. discriminate.
  - split; [|discriminate]. split; [|reflexivity]. intros _. left. discriminate.
Qed.

Lemma supplementaryText_not_built (embedder : option Embedder)
    (vectorDB : list VectorEntry) (question extractedText : string) :
  embedder = None \/ vectorDB = [] ->
  supplementaryText embedder vectorDB question extractedText = Some "".
Proof.
  unfold supplementaryText. intros [-> | ->]; [reflexivity|].
  now destruct embedder.
Qed.

(** X21.  Without an API key the standalone viewer answers a question that
    is not empty exactly when the retrieval of the supplementary context
    does not throw.  The answer then has at most 179 characters, and says
    that the document does not hold enough information exactly when nothing
    is selected and nothing was retrieved; so, while the embedder is not
    loaded or the index is empty, exactly when nothing is selected.  With an
    embedder and an index that is not empty, the retrieval throws, and no
    answer is set, exactly when the embedder gives no vector for the
    question, or an entry of the index holds no vector, or text is selected
    and the embedder gives no vector for it; otherwise it gives the
    supplementary text of the ranker on these vectors. *)
Theorem handleAsk_demo_answer
    (embedder : option Embedder) (vectorDB : list VectorEntry)
    (provider : string) (remote : string -> string -> Reply)
    (question extractedText : string) :
  question <> "" ->
  let result :=
    handleAsk embedder vectorDB "" provider remote question extractedText in
  let retrieved := supplementaryText embedder vectorDB question extractedText in
  (retrieved = None -> result = None) /\
  (forall supp, retrieved = Some supp ->
     exists answer,
       result = Some answer /\
       answer <> "" /\ String.length answer <= 179 /\
       (answer = "Not enough information in the document to answer that." <->
        JSString.trim extractedText = "" /\ supp = "")) /\
  (embedder = None \/ vectorDB = [] ->
     exists answer,
       result = Some answer /\
       (answer = "Not enough information in the document to answer that." <->
        JSString.trim extractedText = "")) /\
  (forall emb, embedder = Some emb -> vectorDB <> [] ->
     (retrieved = None <->
      (forall v, emb question <> Some (Vector v)) \/
      (exists e, In e vectorDB /\ embedding e = NotArray) \/
      (JSString.trim extractedText <> "" /\
       forall v, emb (JSString.trim extractedText) <> Some (Vector v))) /\
     (forall supp, retrieved = Some supp ->
        supp = Ranker.supplementaryText (Some (vectorsOf emb))
                 (entriesOf vectorDB) question extractedText)).
Proof.
  intros Hq result retrieved. subst result. unfold handleAsk.
  apply truthy_string_iff in Hq. rewrite Hq. fold retrieved.
  assert (Hsome : forall supp, retrieved = Some supp ->
            exists answer,
              match retrieved with
              | Some supplementaryText =>
                  finalAnswer "" provider remote (JSString.trim extractedText)
                    supplementaryText question
              | None => None
              end = Some answer /\
              answer <> "" /\ String.length answer <= 179 /\
              (answer = "Not enough information in the document to answer that." <->
               JSString.trim extractedText = "" /\ supp = "")).
  { intros supp ->. eexists. split; [reflexivity|].
    apply (demoAnswer_cases (JSString.trim extractedText) supp). }
  split; [now intros ->|]. split; [exact Hsome|]. split.
  - intros Hindex.
    pose proof (supplementaryText_not_built embedder vectorDB question
                  extractedText Hindex) as Hr. fold retrieved in Hr.
    destruct (Hsome "" Hr) as (answer & Ha & _ & _ & Hiff).
    exists answer. split; [exact Ha|]. rewrite Hiff. tauto.
  - intros emb -> Hdb.
    apply (supplementaryText_cases emb vectorDB question extractedText Hdb).
Qed.

Lemma handleAsk_demo_answer_witness :
  handleAsk (Some Examples.flat_embedder) Examples.flat_index "" "groq"
    (fun _ _ => Failed) "What is the total?" "  " = None /\
  exists answer,
    handleAsk None [] "" "groq" (fun _ _ => Failed) "What is the total?" "  "
    = Some answer /\
    answer = "Not enough information in the document to answer that.".
Proof.
  split.
  - destruct (handleAsk_demo_answer (Some Examples.flat_embedder)
                Examples.flat_index "groq" (fun _ _ => Failed)
                "What is the total?" "  ")
      as (Hnone & _ & _ & Hthrows); [discriminate|].
    apply Hnone.
    destruct (Hthrows Examples.flat_embedder eq_refl) as [Hiff _];
      [discriminate|].
    apply Hiff. left. discriminate.
  - destruct (handleAsk_demo_answer None [] "groq" (fun _ _ => Failed)
                "What is the total?" "  ")
      as (_ & _ & Hempty & _); [discriminate|].
    destruct Hempty as (answer & Ha & Hiff); [now left|].
    exists answer. split; [exact Ha|]. now apply Hiff.
Defined.

(** X22.  With an API key and one of the two providers that the viewer
    offers, a question that is not empty is sent to that provider only when
    the retrieval of the supplementary context does not throw; when it
    throws, no answer is set.  The prompt sent is built from the selection
    and the retrieved context.  When the provider replies, the answer shown
    is never empty: it is the content of the reply, or a fixed sentence when
    the reply holds no content or an empty one.  When the request fails, no
    answer is set. *)
Theorem handleAsk_remote_answer
    (embedder : option Embedder) (vectorDB : list VectorEntry)
    (apiKey provider : string) (remote : string -> string -> Reply)
    (question extractedText : string) :
  question <> "" -> apiKey <> "" ->
  provider = "groq" \/ provider = "gemini" ->
  let retrieved := supplementaryText embedder vectorDB question extractedText in
  let result :=
    handleAsk embedder vectorDB apiKey provider remote question extractedText in
  (retrieved = None -> result = None) /\
  (forall supp, retrieved = Some supp ->
     let reply :=
       remote provider (prompt (JSString.trim extractedText) supp question) in
     (reply = Failed -> result = None) /\
     (forall content, reply = Replied content ->
        exists answer,
          result = Some answer /\ answer <> "" /\
          (content = None \/ content = Some "" ->
           answer = "No response from model.") /\
          (forall c, content = Some c -> c <> "" -> answer = c))).
Proof.
  intros Hq Hkey Hprovider retrieved result. subst result.
  unfold handleAsk. fold retrieved.
  apply truthy_string_iff in Hq, Hkey. rewrite Hq.
  split; [now intros ->|]. intros supp Hsupp. rewrite Hsupp.
  unfold finalAnswer. rewrite Hkey. cbn [negb].
  assert (Hdefault : forall content,
            content_or_default content <> "" /\
            (content = None \/ content = Some "" ->
             content_or_default content = "No response from model.") /\
            (forall c, content = Some c -> c <> "" ->
                       content_or_default content = c)).
  { intros [c|]; cbn [content_or_default].
    - destruct (JSString.truthy c) eqn:Ec.
      + apply truthy_string_iff in Ec. repeat split; [assumption| |congruence].
        intros [H|[= H]]; [discriminate | contradiction].
      + repeat split; [discriminate|].
        intros c' [= <-] Hc'. apply truthy_string_iff in Hc'. congruence.
    - repeat split; [discriminate | intros c; discriminate]. }
  destruct Hprovider as [-> | ->]; cbn [String.eqb Ascii.eqb Bool.eqb];
    (split; [intros ->; reflexivity|]);
    intros content ->; eexists; (split; [reflexivity|]); apply Hdefault.
Qed.

Lemma handleAsk_remote_answer_witness :
  handleAsk (Some Examples.flat_embedder) Examples.flat_index "gsk_key"
    "gemini" (fun _ _ => Replied (Some "42")) "What is the total?"
    "The total is 42." = None /\
  exists answer,
    handleAsk None [] "gsk_key" "gemini" (fun _ _ => Replied (Some ""))
      "What is the total?" "The total is 42."
    = Some answer /\ answer = "No response from model.".
Proof.
  split.
  - destruct (handleAsk_remote_answer (Some Examples.flat_embedder)
                Examples.flat_index "gsk_key" "gemini"
                (fun _ _ => Replied (Some "42")) "What is the total?"
                "The total is 42.") as [H _];
      [discriminate | discriminate | now right|].
    apply H. reflexivity.
  - destruct (handleAsk_remote_answer None [] "gsk_key" "gemini"
                (fun _ _ => Replied (Some "")) "What is the total?"
                "The total is 42.") as [_ H];
      [discriminate | discriminate | now right|].
    destruct (H "" eq_refl) as [_ H'].
    destruct (H' (Some "") eq_refl) as (answer & Ha & _ & Hd & _).
    exists answer. split; [exact Ha | apply Hd; now right].
Defined.

End AnswerFacts.

(** ** The order of numbers and the sign of a difference *)

Section FloatOrder.
Import Spec.
Local Open Scope Z_scope.

Lemma digits2_pos_bounds (m : positive) :
  2 ^ (Z.pos (digits2_pos m) - 1) <= Z.pos m < 2 ^ Z.pos (digits2_pos m).
Proof.
  induction m as [m IH|m IH|]; cbn [digits2_pos].
  - rewrite Pos2Z.inj_succ.
    replace (Z.succ (Z.pos (digits2_pos m)) - 1)
      with (Z.succ (Z.pos (digits2_pos m) - 1)) by lia.
    rewrite !Z.pow_succ_r by lia. lia.
  - rewrite Pos2Z.inj_succ.
    replace (Z.succ (Z.pos (digits2_pos m)) - 1)
      with (Z.succ (Z.pos (digits2_pos m) - 1)) by lia.
    rewrite !Z.pow_succ_r by lia. lia.
  - simpl. lia.
Qed.

Lemma bounded_facts (m : positive) (e : Z) :
  SpecFloat.bounded prec emax m e = true ->
  emin <= e <= emax - prec /\
  Z.pos m < 2 ^ prec /\
  (emin < e -> 2 ^ (prec - 1) <= Z.pos m).
Proof.
  unfold SpecFloat.bounded, canonical_mantissa, fexp. intros H.
  apply andb_true_iff in H as [H1 H2].
  apply Z.eqb_eq in H1. apply Z.leb_le in H2.
  pose proof (digits2_pos_bounds m) as [Hlo Hhi].
  set (d := Z.pos (digits2_pos m)) in *.
  split; [lia|]. split.
  - apply Z.lt_le_trans with (1 := Hhi). apply Z.pow_le_mono_r; lia.
  - intros He. replace prec with d by lia. exact Hlo.
Qed.

Lemma scaled_finite_bound (s : bool) (m : positive) (e : Z) :
  SpecFloat.bounded prec emax m e = true ->
  0 < Z.pos m * 2 ^ (e - emin) < 2 ^ (emax - emin).
Proof.
  intros H. destruct (bounded_facts m e H) as ([He1 He2] & Hm & _).
  assert (0 < 2 ^ (e - emin)) by (apply Z.pow_pos_nonneg; lia).
  split; [lia|].
  replace (emax - emin) with (prec + (emax - prec - emin)) by lia.
  rewrite Z.pow_add_r by (unfold emin, prec, emax in *; lia).
  assert (2 ^ (e - emin) <= 2 ^ (emax - prec - emin))
    by (apply Z.pow_le_mono_r; lia).
  nia.
Qed.

Lemma compare_scale (a b p : Z) : 0 < p -> (a * p ?= b * p) = (a ?= b).
Proof.
  intros Hp. destruct (Z.compare_spec a b) as [->|H|H].
  - apply Z.compare_refl.
  - apply Z.compare_lt_iff. nia.
  - apply Z.compare_gt_iff. nia.
Qed.

Lemma scaled_same_sign (m1 m2 : positive) (e1 e2 : Z) :
  SpecFloat.bounded prec emax m1 e1 = true -> SpecFloat.bounded prec emax m2 e2 = true ->
  match e1 ?= e2 with
  | Lt => Lt
  | Gt => Gt
  | Eq => Pos.compare_cont Eq m1 m2
  end
  = (Z.pos m1 * 2 ^ (e1 - emin)
     ?= Z.pos m2 * 2 ^ (e2 - emin)).
Proof.
  intros H1 H2.
  destruct (bounded_facts m1 e1 H1) as ([Ha1 Ha2] & Hm1 & Hn1).
  destruct (bounded_facts m2 e2 H2) as ([Hb1 Hb2] & Hm2 & Hn2).
  assert (Hp : 2 ^ prec = 2 * 2 ^ (prec - 1)) by reflexivity.
  destruct (Z.compare_spec e1 e2) as [->|Hlt|Hgt].
  - change (Pos.compare_cont Eq m1 m2) with (Z.pos m1 ?= Z.pos m2).
    symmetry. apply compare_scale. apply Z.pow_pos_nonneg; lia.
  - symmetry. apply Z.compare_lt_iff.
    replace (e2 - emin) with ((e2 - e1) + (e1 - emin)) by lia.
    rewrite Z.pow_add_r by lia.
    assert (HA : 0 < 2 ^ (e1 - emin)) by (apply Z.pow_pos_nonneg; lia).
    assert (HB : 2 ^ 1 <= 2 ^ (e2 - e1)) by (apply Z.pow_le_mono_r; lia).
    change (2 ^ 1) with 2 in HB.
    specialize (Hn2 ltac:(lia)). rewrite Hp in Hm1.
    set (A := 2 ^ (e1 - emin)) in *. set (B := 2 ^ (e2 - e1)) in *.
    set (P := 2 ^ (prec - 1)) in *.
    assert (Z.pos m1 * A < 2 * P * A) by nia.
    assert (2 * P * A <= 2 * Z.pos m2 * A) by nia.
    assert (2 * Z.pos m2 * A <= Z.pos m2 * (B * A)) by nia. lia.
  - symmetry. apply Z.compare_gt_iff.
    replace (e1 - emin) with ((e1 - e2) + (e2 - emin)) by lia.
    rewrite Z.pow_add_r by lia.
    assert (HA : 0 < 2 ^ (e2 - emin)) by (apply Z.pow_pos_nonneg; lia).
    assert (HB : 2 ^ 1 <= 2 ^ (e1 - e2)) by (apply Z.pow_le_mono_r; lia).
    change (2 ^ 1) with 2 in HB.
    specialize (Hn1 ltac:(lia)). rewrite Hp in Hm2.
    set (A := 2 ^ (e2 - emin)) in *. set (B := 2 ^ (e1 - e2)) in *.
    set (P := 2 ^ (prec - 1)) in *.
    assert (Z.pos m2 * A < 2 * P * A) by nia.
    assert (2 * P * A <= 2 * Z.pos m1 * A) by nia.
    assert (2 * Z.pos m1 * A <= Z.pos m1 * (B * A)) by nia. lia.
Qed.

(** On valid numbers the comparison is the comparison of the scaled
    values. *)
Lemma SFcompare_scaled (x y : spec_float) :
  SpecFloat.valid_binary prec emax x = true -> SpecFloat.valid_binary prec emax y = true ->
  x <> S754_nan -> y <> S754_nan ->
  SFcompare x y = Some (scaled x ?= scaled y).
Proof.
  assert (Hinf : 0 < 2 ^ (emax - emin))
    by (apply Z.pow_pos_nonneg; unfold emin, prec, emax; lia).
  intros Hx Hy Nx Ny.
  destruct x as [sx|sx| |sx mx ex], y as [sy|sy| |sy my ey];
    try congruence; cbn [SpecFloat.valid_binary] in Hx, Hy;
    try pose proof (scaled_finite_bound sx mx ex Hx);
    try pose proof (scaled_finite_bound sy my ey Hy);
    cbn [SFcompare scaled]; f_equal.
  all: try (destruct sx; cbn [cond_Zopp]);
       try (destruct sy; cbn [cond_Zopp]).
  all: try reflexivity.
  all: try (symmetry; first [ apply Z.compare_lt_iff; lia
                            | apply Z.compare_gt_iff; lia
                            | apply Z.compare_eq_iff; lia ]).
  - rewrite Z.compare_opp.
    rewrite (Z.compare_antisym (Z.pos mx * 2 ^ (ex - emin))).
    rewrite <- (scaled_same_sign mx my ex ey Hx Hy).
    now destruct (ex ?= ey).
  - apply scaled_same_sign; assumption.
Qed.

Lemma shr_1_half mrs : 0 <= shr_m mrs -> shr_m (shr_1 mrs) = shr_m mrs / 2.
Proof.
  rewrite <- Z.div2_div. destruct mrs as [m r s].
  destruct m as [|[p|p|]|p]; cbn [shr_m shr_1]; intros H;
    try reflexivity; lia.
Qed.

Lemma iter_shr_1 p mrs :
  0 <= shr_m mrs ->
  shr_m (SpecFloat.iter_pos shr_1 p mrs) = shr_m mrs / 2 ^ Z.pos p.
Proof.
  revert mrs. induction p as [p IH|p IH|]; intros mrs H; cbn [SpecFloat.iter_pos].
  - assert (H1 : 0 <= shr_m (shr_1 mrs)) by now apply shr_1_nonneg.
    assert (H2 : 0 <= shr_m (SpecFloat.iter_pos shr_1 p (shr_1 mrs))).
    { rewrite IH by assumption. apply Z.div_pos; [assumption|].
      apply Z.pow_pos_nonneg; lia. }
    rewrite IH, IH, shr_1_half by assumption.
    rewrite !Z.div_div by (try apply Z.pow_pos_nonneg; lia).
    f_equal. rewrite Pos2Z.inj_xI.
    replace (2 * Z.pos p + 1) with (Z.succ (Z.pos p + Z.pos p)) by lia.
    rewrite Z.pow_succ_r by lia. now rewrite Z.pow_add_r by lia.
  - assert (H2 : 0 <= shr_m (SpecFloat.iter_pos shr_1 p mrs)).
    { rewrite IH by assumption. apply Z.div_pos; [assumption|].
      apply Z.pow_pos_nonneg; lia. }
    rewrite IH, IH by assumption.
    rewrite !Z.div_div by (try apply Z.pow_pos_nonneg; lia).
    f_equal. replace (Z.pos p~0) with (Z.pos p + Z.pos p) by lia.
    now rewrite Z.pow_add_r by lia.
  - rewrite shr_1_half by assumption. reflexivity.
Qed.

Lemma shr_record_of_loc_m m l : shr_m (shr_record_of_loc m l) = m.
Proof. now destruct l as [|[| |]]. Qed.

(** Shifting a positive mantissa to its place never loses all of it, when
    the exponent is not below the least one. *)
Lemma shr_fexp_pos (m e : Z) (l : location) :
  0 < m -> emin <= e ->
  0 < shr_m (fst (shr_fexp prec emax m e l)) /\
  emin <= snd (shr_fexp prec emax m e l).
Proof.
  intros Hm He. unfold shr_fexp, shr.
  destruct m as [|p|p]; try lia. cbn [Zdigits2].
  pose proof (digits2_pos_bounds p) as [Hlo Hhi].
  set (d := Z.pos (digits2_pos p)) in *.
  assert (Hd : 1 <= d) by (subst d; lia).
  destruct (fexp prec emax (d + e) - e) as [|n|n] eqn:En; cbn [fst snd];
    rewrite ?shr_record_of_loc_m; try (split; lia).
  unfold fexp in En. split.
  - rewrite iter_shr_1 by (rewrite shr_record_of_loc_m; lia).
    rewrite shr_record_of_loc_m.
    apply Z.div_str_pos. split; [apply Z.pow_pos_nonneg; lia|].
    apply Z.le_trans with (2 := Hlo). apply Z.pow_le_mono_r; [lia|].
    assert (0 < prec) by reflexivity. lia.
  - lia.
Qed.

Lemma round_nearest_even_pos m l : 0 < m -> 0 < round_nearest_even m l.
Proof.
  intros H. destruct l as [|[| |]]; simpl; try lia.
  destruct (Z.even m); lia.
Qed.

(** The sign of a number rounded from a positive mantissa is the sign it is
    given, and the number is not zero. *)
Lemma binary_round_aux_signed sx mx ex lx :
  0 < mx -> emin <= ex ->
  signed sx (binary_round_aux prec emax sx mx ex lx).
Proof.
  intros Hm He. unfold binary_round_aux.
  pose proof (shr_fexp_pos mx ex lx Hm He) as [H1 H1'].
  destruct (shr_fexp prec emax mx ex lx) as [mrs' e']. cbn [fst snd] in H1, H1'.
  pose proof (shr_fexp_pos _ e' loc_Exact
                (round_nearest_even_pos _ (loc_of_shr_record mrs') H1) H1')
    as [H2 _].
  destruct (shr_fexp prec emax
              (round_nearest_even (shr_m mrs') (loc_of_shr_record mrs'))
              e' loc_Exact) as [mrs'' e'']. cbn [fst] in H2.
  destruct (shr_m mrs'') as [|p|p]; try lia.
  destruct (e'' <=? emax - prec); constructor.
Qed.

Lemma binary_round_signed sx mx ex :
  emin <= ex -> signed sx (binary_round prec emax sx mx ex).
Proof.
  intros He. unfold binary_round, shl_align.
  destruct (fexp prec emax (Z.pos (digits2_pos mx) + ex) - ex) as [|n|n] eqn:En;
    apply binary_round_aux_signed; try lia.
  unfold fexp. lia.
Qed.

Lemma iter_xO (m d : positive) :
  Z.pos (Pos.iter xO m d) = Z.pos m * 2 ^ Z.pos d.
Proof.
  induction d as [|d IH] using Pos.peano_ind.
  - simpl Pos.iter. rewrite Pos2Z.inj_xO. change (2 ^ 1) with 2. lia.
  - rewrite Pos.iter_succ, Pos2Z.inj_xO, IH, Pos2Z.inj_succ, Z.pow_succ_r by lia.
    lia.
Qed.

Lemma shl_align_value (mx : positive) (ex ez : Z) :
  ez <= ex ->
  Z.pos (fst (shl_align mx ex ez)) = Z.pos mx * 2 ^ (ex - ez).
Proof.
  intros H. unfold shl_align.
  destruct (ez - ex) as [|d|d] eqn:E; cbn [fst].
  - replace (ex - ez) with 0 by lia. simpl. lia.
  - lia.
  - rewrite iter_xO. f_equal. f_equal. lia.
Qed.

Lemma signed_compare s r :
  signed s r ->
  SFltb (S754_zero false) r = negb s /\ SFltb r (S754_zero false) = s.
Proof. intros [m e|]; destruct s; split; reflexivity. Qed.

Lemma SFltb_scaled (x y : spec_float) :
  SpecFloat.valid_binary prec emax x = true ->
  SpecFloat.valid_binary prec emax y = true ->
  x <> S754_nan -> y <> S754_nan ->
  SFltb x y = (scaled x <? scaled y).
Proof.
  intros Hx Hy Nx Ny. unfold SFltb. now rewrite SFcompare_scaled.
Qed.

Lemma binary_normalize_sign (V ez : Z) :
  emin <= ez ->
  SFltb (S754_zero false) (binary_normalize prec emax V ez false) = (0 <? V) /\
  SFltb (binary_normalize prec emax V ez false) (S754_zero false) = (V <? 0).
Proof.
  intros Hez. destruct V as [|v|v]; cbn [binary_normalize].
  - split; reflexivity.
  - apply (signed_compare false). now apply binary_round_signed.
  - apply (signed_compare true). now apply binary_round_signed.
Qed.

(** The sign of a difference is the order of its operands. *)
Lemma SFsub_order (x y : spec_float) :
  SpecFloat.valid_binary prec emax x = true ->
  SpecFloat.valid_binary prec emax y = true ->
  SFltb (S754_zero false) (SFsub prec emax x y) = SFltb y x /\
  SFltb (SFsub prec emax x y) (S754_zero false) = SFltb x y.
Proof.
  intros Hx Hy.
  destruct x as [sx|sx| |sx mx ex], y as [sy|sy| |sy my ey];
    try (destruct sx); try (destruct sy); try (split; reflexivity).
  all: rewrite (SFltb_scaled (S754_finite _ my ey) (S754_finite _ mx ex))
      by (assumption || discriminate);
    rewrite (SFltb_scaled (S754_finite _ mx ex) (S754_finite _ my ey))
      by (assumption || discriminate).
  all: cbn [SpecFloat.valid_binary] in Hx, Hy;
    destruct (bounded_facts mx ex Hx) as ([Hx1 _] & _);
    destruct (bounded_facts my ey Hy) as ([Hy1 _] & _).
  all: cbn [SFsub scaled]; cbv zeta.
  all: rewrite (shl_align_value mx ex (Z.min ex ey)) by lia;
    rewrite (shl_align_value my ey (Z.min ex ey)) by lia.
  all: set (ez := Z.min ex ey);
    assert (Hez : emin <= ez) by (subst ez; lia);
    assert (Hsx : Z.pos mx * 2 ^ (ex - emin)
                  = Z.pos mx * 2 ^ (ex - ez) * 2 ^ (ez - emin))
      by (rewrite <- Z.mul_assoc, <- Z.pow_add_r by (subst ez; lia);
          do 2 f_equal; lia);
    assert (Hsy : Z.pos my * 2 ^ (ey - emin)
                  = Z.pos my * 2 ^ (ey - ez) * 2 ^ (ez - emin))
      by (rewrite <- Z.mul_assoc, <- Z.pow_add_r by (subst ez; lia);
          do 2 f_equal; lia);
    rewrite Hsx, Hsy;
    assert (Hpos : 0 < 2 ^ (ez - emin)) by (apply Z.pow_pos_nonneg; lia);
    assert (HX : 0 < Z.pos mx * 2 ^ (ex - ez))
      by (apply Z.mul_pos_pos; [lia | apply Z.pow_pos_nonneg; subst ez; lia]);
    assert (HY : 0 < Z.pos my * 2 ^ (ey - ez))
      by (apply Z.mul_pos_pos; [lia | apply Z.pow_pos_nonneg; subst ez; lia]);
    set (X := Z.pos mx * 2 ^ (ex - ez)) in *;
    set (Y := Z.pos my * 2 ^ (ey - ez)) in *;
    set (k := 2 ^ (ez - emin)) in *;
    cbn [cond_Zopp].
  all: match goal with
       | |- context [binary_normalize prec emax ?V ?E false] =>
           destruct (binary_normalize_sign V E Hez) as [-> ->]
       end.
  all: split.
  all: match goal with
       | |- (?a <? ?b) = (?c <? ?d) =>
           destruct (Z.ltb_spec a b), (Z.ltb_spec c d); try reflexivity; nia
       end.
Qed.

(** For all numbers, [a - b] is greater than zero exactly when [a] is
    greater than [b], and less than zero exactly when [a] is less. *)
Lemma sub_order (a b : float) :
  ((0 <? a - b) = (b <? a))%float /\ ((a - b <? 0) = (a <? b))%float.
Proof.
  rewrite !FloatAxioms.ltb_spec, FloatAxioms.sub_spec.
  change (Prim2SF 0) with (S754_zero false).
  apply SFsub_order; apply FloatAxioms.Prim2SF_valid.
Qed.

Lemma ltb_scaled (a b : float) :
  is_nan a = false -> is_nan b = false ->
  (a <? b)%float = (scaled (Prim2SF a) <? scaled (Prim2SF b)).
Proof.
  intros Ha Hb. rewrite FloatAxioms.ltb_spec.
  apply SFltb_scaled; try apply FloatAxioms.Prim2SF_valid.
  all: unfold is_nan in *; rewrite FloatAxioms.eqb_spec in *.
  all: intros E; rewrite E in *; discriminate.
Qed.

Lemma leb_scaled (a b : float) :
  is_nan a = false -> is_nan b = false ->
  (a <=? b)%float = (scaled (Prim2SF a) <=? scaled (Prim2SF b)).
Proof.
  intros Ha Hb. rewrite FloatAxioms.leb_spec. unfold SFleb.
  rewrite SFcompare_scaled; try apply FloatAxioms.Prim2SF_valid.
  - unfold Z.leb. now destruct (_ ?= _).
  - unfold is_nan in *; rewrite FloatAxioms.eqb_spec in *.
    intros E; rewrite E in *; discriminate.
  - unfold is_nan in *; rewrite FloatAxioms.eqb_spec in *.
    intros E; rewrite E in *; discriminate.
Qed.

End FloatOrder.

(** ** Sorting by a difference *)

Section SortOrder.
Context {A : Type}.
Variable comparefn : A -> A -> float.
Variable key : A -> Z.

Lemma sort_insert_sorted (x : A) (s : list A) :
  (forall h, In h s -> (0 <? comparefn h x)%float = (key x <? key h)%Z) ->
  StronglySorted (fun a b => (key a <= key b)%Z) s ->
  StronglySorted (fun a b => (key a <= key b)%Z) (JS.sort_insert comparefn x s).
Proof.
  induction s as [|h t IH]; intros Hc Hs; cbn [JS.sort_insert].
  - constructor; constructor.
  - inversion Hs as [|? ? Ht Hall]; subst.
    rewrite (Hc h) by now left.
    destruct (Z.ltb_spec (key x) (key h)) as [Hlt|Hge].
    + constructor; [assumption|]. constructor; [lia|].
      apply List.Forall_impl with (2 := Hall). intros a Ha. lia.
    + constructor.
      * apply IH; [|assumption]. intros h' Hh'. apply Hc. now right.
      * apply List.Forall_forall. intros a Ha. apply sort_insert_In in Ha.
        destruct Ha as [->|Ha]; [assumption|].
        rewrite List.Forall_forall in Hall. now apply Hall.
Qed.

Lemma filter_key_none (l : list A) (c lo : Z) :
  Forall (fun a => (lo <= key a)%Z) l -> (c < lo)%Z ->
  List.filter (fun a => (key a =? c)%Z) l = [].
Proof.
  induction 1 as [|a l Ha Hl IH]; intros Hc; [reflexivity|].
  cbn [List.filter]. destruct (Z.eqb_spec (key a) c); [lia | auto].
Qed.

Lemma sort_insert_stable (x : A) (s : list A) (c : Z) :
  (forall h, In h s -> (0 <? comparefn h x)%float = (key x <? key h)%Z) ->
  StronglySorted (fun a b => (key a <= key b)%Z) s ->
  List.filter (fun a => (key a =? c)%Z) (JS.sort_insert comparefn x s)
  = List.filter (fun a => (key a =? c)%Z) s
    ++ (if (key x =? c)%Z then [x] else []).
Proof.
  induction s as [|h t IH]; intros Hc Hs; cbn [JS.sort_insert].
  - cbn [List.filter app]. reflexivity.
  - inversion Hs as [|? ? Ht Hall]; subst.
    rewrite (Hc h) by now left.
    destruct (Z.ltb_spec (key x) (key h)) as [Hlt|Hge].
    + cbn [List.filter]. destruct (Z.eqb_spec (key x) c) as [Hx|Hx].
      * assert (Hnone : List.filter (fun a => (key a =? c)%Z) (h :: t) = []).
        { apply (filter_key_none (h :: t) c (key h)); [|lia].
          constructor; [lia | assumption]. }
        cbn [List.filter] in Hnone. now rewrite Hnone.
      * now rewrite app_nil_r.
    + cbn [List.filter]. rewrite IH; [|intros h' Hh'; apply Hc; now right|assumption].
      now destruct (key h =? c)%Z.
Qed.

Lemma sort_from_sorted (l acc : list A) :
  (forall h x, In h (acc ++ l) -> In x l ->
               (0 <? comparefn h x)%float = (key x <? key h)%Z) ->
  StronglySorted (fun a b => (key a <= key b)%Z) acc ->
  let result := fold_left (fun sorted x => JS.sort_insert comparefn x sorted) l acc in
  StronglySorted (fun a b => (key a <= key b)%Z) result /\
  forall c, List.filter (fun a => (key a =? c)%Z) result
            = List.filter (fun a => (key a =? c)%Z) acc
              ++ List.filter (fun a => (key a =? c)%Z) l.
Proof.
  revert acc. induction l as [|x l IH]; intros acc Hc Hs; cbn [fold_left].
  - split; [assumption|]. intros c. now rewrite app_nil_r.
  - assert (Hx : forall h, In h acc ->
                   (0 <? comparefn h x)%float = (key x <? key h)%Z).
    { intros h Hh. apply Hc; [apply in_or_app; now left | now left]. }
    destruct (IH (JS.sort_insert comparefn x acc)) as [H1 H2].
    + intros h y Hh Hy. apply Hc; [|now right].
      apply in_app_or in Hh as [Hh|Hh].
      * apply sort_insert_In in Hh as [->|Hh];
          apply in_or_app; [right; now left | now left].
      * apply in_or_app. right. now right.
    + now apply sort_insert_sorted.
    + split; [exact H1|]. intros c. rewrite H2.
      rewrite sort_insert_stable by assumption.
      rewrite <- app_assoc. cbn [List.filter].
      now destruct (key x =? c)%Z.
Qed.

(** A comparator that agrees with an order of integer keys sorts by these
    keys, and keeps the elements of equal keys in their order. *)
Lemma sort_sorted_stable (l : list A) :
  (forall h x, In h l -> In x l ->
               (0 <? comparefn h x)%float = (key x <? key h)%Z) ->
  StronglySorted (fun a b => (key a <= key b)%Z) (JS.sort comparefn l) /\
  forall c, List.filter (fun a => (key a =? c)%Z) (JS.sort comparefn l)
            = List.filter (fun a => (key a =? c)%Z) l.
Proof.
  intros Hc. unfold JS.sort.
  destruct (sort_from_sorted l []) as [H1 H2]; [exact Hc | constructor|].
  split; [exact H1 | exact H2].
Qed.

End SortOrder.

Section SortByNumber.
Import Spec.
Context {A : Type}.
Variable k : A -> float.

Lemma eqb_scaled (a b : float) :
  is_nan a = false -> is_nan b = false ->
  (a =? b)%float = (scaled (Prim2SF a) =? scaled (Prim2SF b))%Z.
Proof.
  intros Ha Hb. rewrite FloatAxioms.eqb_spec. unfold SFeqb.
  rewrite SFcompare_scaled; try apply FloatAxioms.Prim2SF_valid.
  - destruct (Z.compare_spec (scaled (Prim2SF a)) (scaled (Prim2SF b))),
             (Z.eqb_spec (scaled (Prim2SF a)) (scaled (Prim2SF b)));
      try reflexivity; lia.
  - now apply Prim2SF_not_nan.
  - now apply Prim2SF_not_nan.
Qed.

Lemma eqb_nan_r (a c : float) : is_nan c = true -> (a =? c)%float = false.
Proof.
  unfold is_nan. rewrite !FloatAxioms.eqb_spec. unfold SFeqb.
  destruct (Prim2SF c) as [[|]| [|] | | [|] m e],
           (Prim2SF a) as [[|]| [|] | | [|] m' e']; cbn [SFcompare];
    try discriminate; try reflexivity;
    intros H; exfalso; revert H;
    rewrite Z.compare_refl; change (Pos.compare_cont Eq m m) with (Pos.compare m m);
    rewrite Pos.compare_refl; discriminate.
Qed.

Lemma filter_ext_in' (f g : A -> bool) (l : list A) :
  (forall a, In a l -> f a = g a) -> List.filter f l = List.filter g l.
Proof.
  induction l as [|a l IH]; intros H; [reflexivity|]. cbn [List.filter].
  rewrite (H a) by now left. rewrite IH; [reflexivity|].
  intros b Hb. apply H. now right.
Qed.

(** Sorting by [(a, b) => k(a) - k(b)] puts numbers that are not NaN in
    ascending order, and keeps equal ones in their order. *)
Lemma sort_ascending (l : list A) :
  Forall (fun a => is_nan (k a) = false) l ->
  StronglySorted (fun a b => (k a <=? k b)%float = true)
    (JS.sort (fun a b => (k a - k b)%float) l) /\
  forall c, List.filter (fun a => (k a =? c)%float)
              (JS.sort (fun a b => (k a - k b)%float) l)
            = List.filter (fun a => (k a =? c)%float) l.
Proof.
  intros Hn. rewrite List.Forall_forall in Hn.
  destruct (sort_sorted_stable (fun a b => (k a - k b)%float)
              (fun a => scaled (Prim2SF (k a))) l) as [H1 H2].
  { intros h x Hh Hx. destruct (sub_order (k h) (k x)) as [-> _].
    apply ltb_scaled; now apply Hn. }
  assert (Hn' : forall a, In a (JS.sort (fun a b => (k a - k b)%float) l) ->
                          is_nan (k a) = false).
  { intros a Ha. apply Hn. now apply sort_In in Ha. }
  split.
  - revert H1 Hn'. generalize (JS.sort (fun a b => (k a - k b)%float) l).
    induction 1 as [|a s Hs IH Hall]; intros Hn'; constructor.
    + apply IH. intros b Hb. apply Hn'. now right.
    + rewrite List.Forall_forall in *. intros b Hb.
      rewrite leb_scaled by (apply Hn'; first [now left | now right]).
      apply Z.leb_le. now apply Hall.
  - intros c. destruct (is_nan c) eqn:Ec.
    + rewrite (filter_ext_in' _ (fun _ => false));
        [|intros; now apply eqb_nan_r].
      rewrite (filter_ext_in' _ (fun _ => false) l);
        [|intros; now apply eqb_nan_r].
      clear. generalize (JS.sort (fun a b => (k a - k b)%float) l).
      intros s. induction s; induction l; simpl in *; congruence.
    + rewrite (filter_ext_in' _ (fun a => (scaled (Prim2SF (k a)) =? scaled (Prim2SF c))%Z));
        [|intros a Ha; apply eqb_scaled; [now apply Hn' | assumption]].
      rewrite (filter_ext_in' _ (fun a => (scaled (Prim2SF (k a)) =? scaled (Prim2SF c))%Z) l);
        [|intros a Ha; apply eqb_scaled; [now apply Hn | assumption]].
      apply H2.
Qed.

(** Sorting by [(a, b) => k(b) - k(a)] puts numbers that are not NaN in
    descending order, and keeps equal ones in their order. *)
Lemma sort_descending (l : list A) :
  Forall (fun a => is_nan (k a) = false) l ->
  StronglySorted (fun a b => (k b <=? k a)%float = true)
    (JS.sort (fun a b => (k b - k a)%float) l) /\
  forall c, List.filter (fun a => (k a =? c)%float)
              (JS.sort (fun a b => (k b - k a)%float) l)
            = List.filter (fun a => (k a =? c)%float) l.
Proof.
  intros Hn. rewrite List.Forall_forall in Hn.
  destruct (sort_sorted_stable (fun a b => (k b - k a)%float)
              (fun a => (- scaled (Prim2SF (k a)))%Z) l) as [H1 H2].
  { intros h x Hh Hx. destruct (sub_order (k x) (k h)) as [-> _].
    rewrite ltb_scaled by now apply Hn.
    destruct (Z.ltb_spec (scaled (Prim2SF (k h))) (scaled (Prim2SF (k x)))),
             (Z.ltb_spec (- scaled (Prim2SF (k x))) (- scaled (Prim2SF (k h))));
      try reflexivity; lia. }
  assert (Hn' : forall a, In a (JS.sort (fun a b => (k b - k a)%float) l) ->
                          is_nan (k a) = false).
  { intros a Ha. apply Hn. now apply sort_In in Ha. }
  split.
  - revert H1 Hn'. generalize (JS.sort (fun a b => (k b - k a)%float) l).
    induction 1 as [|a s Hs IH Hall]; intros Hn'; constructor.
    + apply IH. intros b Hb. apply Hn'. now right.
    + rewrite List.Forall_forall in *. intros b Hb.
      rewrite leb_scaled by (apply Hn'; first [now left | now right]).
      apply Z.leb_le. specialize (Hall b Hb). lia.
  - intros c. destruct (is_nan c) eqn:Ec.
    + rewrite (filter_ext_in' _ (fun _ => false));
        [|intros; now apply eqb_nan_r].
      rewrite (filter_ext_in' _ (fun _ => false) l);
        [|intros; now apply eqb_nan_r].
      clear. generalize (JS.sort (fun a b => (k b - k a)%float) l).
      intros s. induction s; induction l; simpl in *; congruence.
    + rewrite (filter_ext_in' _ (fun a => (- scaled (Prim2SF (k a)) =? - scaled (Prim2SF c))%Z));
        [|intros a Ha; rewrite eqb_scaled by (try apply Hn'; assumption);
          destruct (Z.eqb_spec (scaled (Prim2SF (k a))) (scaled (Prim2SF c))),
                   (Z.eqb_spec (- scaled (Prim2SF (k a))) (- scaled (Prim2SF c)));
          try reflexivity; lia].
      rewrite (filter_ext_in' _ (fun a => (- scaled (Prim2SF (k a)) =? - scaled (Prim2SF c))%Z) l);
        [|intros a Ha; rewrite eqb_scaled by (try apply Hn; assumption);
          destruct (Z.eqb_spec (scaled (Prim2SF (k a))) (scaled (Prim2SF c))),
                   (Z.eqb_spec (- scaled (Prim2SF (k a))) (- scaled (Prim2SF c)));
          try reflexivity; lia].
      apply H2.
Qed.

End SortByNumber.

(** ** Rectangles that do not overlap *)

Section OverlapFacts.
Import Spec JS.

Lemma truthy_SF (x : float) :
  truthy x = match Prim2SF x with
             | S754_zero _ | S754_nan => false
             | _ => true
             end.
Proof.
  unfold truthy, is_zero, is_nan. rewrite !FloatAxioms.eqb_spec.
  change (Prim2SF zero) with (S754_zero false). unfold SFeqb.
  destruct (Prim2SF x) as [[|]| [|] | | s m e] eqn:E; try reflexivity.
  rewrite SFcompare_refl by discriminate. now destruct s.
Qed.

Lemma is_nan_Prim2SF (x : float) :
  is_nan x = match Prim2SF x with S754_nan => true | _ => false end.
Proof.
  unfold is_nan. rewrite FloatAxioms.eqb_spec. unfold SFeqb.
  destruct (Prim2SF x) as [[|]| [|] | | s m e] eqn:E; try reflexivity.
  now rewrite SFcompare_refl by discriminate.
Qed.

Lemma mul_falsy_l (a b : float) : truthy a = false -> truthy (a * b) = false.
Proof.
  rewrite !truthy_SF, FloatAxioms.mul_spec.
  destruct (Prim2SF a) as [[|]| [|] | | s m e]; try discriminate; intros _;
    now destruct (Prim2SF b) as [[|]| [|] | | [|] m' e'].
Qed.

Lemma mul_falsy_r (a b : float) : truthy b = false -> truthy (a * b) = false.
Proof.
  rewrite !truthy_SF, FloatAxioms.mul_spec.
  destruct (Prim2SF b) as [[|]| [|] | | s m e]; try discriminate; intros _;
    now destruct (Prim2SF a) as [[|]| [|] | | [|] m' e'].
Qed.

Lemma div_falsy_l (a b : float) : truthy a = false -> truthy (a / b) = false.
Proof.
  rewrite !truthy_SF, FloatAxioms.div_spec.
  destruct (Prim2SF a) as [[|]| [|] | | s m e]; try discriminate; intros _;
    now destruct (Prim2SF b) as [[|]| [|] | | [|] m' e'].
Qed.

(** A coverage that is zero or NaN does not reach the threshold. *)
Lemma threshold_falsy (c : float) : truthy c = false -> (0.3 <=? c)%float = false.
Proof.
  rewrite truthy_SF, FloatAxioms.leb_spec.
  destruct (Prim2SF c) as [[|]| [|] | | s m e]; try discriminate; intros _;
    reflexivity.
Qed.

Lemma ltb_nan (a b : float) :
  is_nan a = true \/ is_nan b = true -> (a <? b)%float = false.
Proof.
  rewrite !is_nan_Prim2SF, FloatAxioms.ltb_spec. unfold SFltb.
  destruct (Prim2SF a) as [[|]| [|] | | s m e],
           (Prim2SF b) as [[|]| [|] | | s' m' e'];
    try reflexivity; intros [H|H]; discriminate.
Qed.

Lemma Math_min_scaled (a b : float) :
  is_nan a = false -> is_nan b = false ->
  is_nan (Math_min a b) = false /\
  scaled (Prim2SF (Math_min a b))
  = Z.min (scaled (Prim2SF a)) (scaled (Prim2SF b)).
Proof.
  intros Ha Hb. unfold Math_min. rewrite Ha, Hb. cbn [orb].
  rewrite (ltb_scaled a b), (ltb_scaled b a) by assumption.
  destruct (Z.ltb_spec (scaled (Prim2SF a)) (scaled (Prim2SF b)));
    [split; [assumption | lia]|].
  destruct (Z.ltb_spec (scaled (Prim2SF b)) (scaled (Prim2SF a)));
    [split; [assumption | lia]|].
  destruct (is_neg_zero a); split; (assumption || lia).
Qed.

Lemma Math_max_scaled (a b : float) :
  is_nan a = false -> is_nan b = false ->
  is_nan (Math_max a b) = false /\
  scaled (Prim2SF (Math_max a b))
  = Z.max (scaled (Prim2SF a)) (scaled (Prim2SF b)).
Proof.
  intros Ha Hb. unfold Math_max. rewrite Ha, Hb. cbn [orb].
  rewrite (ltb_scaled a b), (ltb_scaled b a) by assumption.
  destruct (Z.ltb_spec (scaled (Prim2SF a)) (scaled (Prim2SF b)));
    [split; [assumption | lia]|].
  destruct (Z.ltb_spec (scaled (Prim2SF b)) (scaled (Prim2SF a)));
    [split; [assumption | lia]|].
  destruct (is_neg_zero a); split; (assumption || lia).
Qed.

Lemma Math_min_nan (a b : float) :
  is_nan a = true \/ is_nan b = true -> is_nan (Math_min a b) = true.
Proof.
  unfold Math_min. intros [-> | ->]; rewrite ?orb_true_r; reflexivity.
Qed.

Lemma Math_max_nan (a b : float) :
  is_nan a = true \/ is_nan b = true -> is_nan (Math_max a b) = true.
Proof.
  unfold Math_max. intros [-> | ->]; rewrite ?orb_true_r; reflexivity.
Qed.

Lemma leb_true_not_nan (a b : float) :
  (a <=? b)%float = true -> is_nan a = false /\ is_nan b = false.
Proof.
  rewrite !is_nan_Prim2SF, FloatAxioms.leb_spec. unfold SFleb.
  destruct (Prim2SF a) as [[|]| [|] | | s m e],
           (Prim2SF b) as [[|]| [|] | | s' m' e'];
    try discriminate; now split.
Qed.

(** The two intervals from [R] to [P] and from [S] to [Q] have no point in
    common, or just one, when one of them ends where the other starts or
    before; the overlap computed for them is then zero or NaN. *)
Lemma overlap_falsy (P Q R S : float) :
  (Math_max R S <? Math_min P Q)%float = false ->
  truthy (Math_max 0 (Math_min P Q - Math_max R S)) = false.
Proof.
  intros H. destruct (sub_order (Math_min P Q) (Math_max R S)) as [H1 _].
  rewrite H in H1. unfold Math_max at 1.
  change (is_nan 0) with false. cbn [orb].
  set (d := (Math_min P Q - Math_max R S)%float) in *.
  destruct (is_nan d) eqn:En; [reflexivity|]. rewrite H1.
  destruct (d <? 0)%float; [reflexivity|].
  change (is_neg_zero 0) with false. reflexivity.
Qed.

Lemma apart (P Q R S : float) :
  (P <=? R)%float = true \/ (P <=? S)%float = true \/
  (Q <=? R)%float = true \/ (Q <=? S)%float = true ->
  (Math_max R S <? Math_min P Q)%float = false.
Proof.
  intros H.
  destruct (is_nan P) eqn:HP; [apply ltb_nan; right; apply Math_min_nan; now left|].
  destruct (is_nan Q) eqn:HQ; [apply ltb_nan; right; apply Math_min_nan; now right|].
  destruct (is_nan R) eqn:HR; [apply ltb_nan; left; apply Math_max_nan; now left|].
  destruct (is_nan S) eqn:HS; [apply ltb_nan; left; apply Math_max_nan; now right|].
  destruct (Math_min_scaled P Q HP HQ) as [Hn1 E1].
  destruct (Math_max_scaled R S HR HS) as [Hn2 E2].
  rewrite ltb_scaled, E1, E2 by assumption. apply Z.ltb_ge.
  rewrite !leb_scaled in H by assumption. rewrite !Z.leb_le in H. lia.
Qed.

Lemma add_zero_leb (x : float) :
  is_nan x = false -> (x + 0 <=? x)%float = true.
Proof.
  rewrite is_nan_Prim2SF, FloatAxioms.leb_spec, FloatAxioms.add_spec.
  change (Prim2SF 0) with (S754_zero false). unfold SFleb.
  destruct (Prim2SF x) as [[|]| [|] | | s m e]; try discriminate; intros _;
    try reflexivity; cbn [SF64add SFadd];
    now rewrite SFcompare_refl by discriminate.
Qed.

End OverlapFacts.

(** ** What a selection rectangle takes, and in which order *)

Section ViewerSelection.
Import Spec JS PDFJS PDFViewer.

(** An item whose vertical position is NaN is not selected. *)
Lemma selectItem_y_not_nan selection viewport item si :
  selectItem selection viewport item = Some si -> is_nan (item_y si) = false.
Proof.
  unfold selectItem. cbv zeta.
  set (y := (viewport_height viewport - nth_num 5 (transform item))%float).
  destruct (0.3 <=? _)%float eqn:E; [|discriminate].
  intros [= <-]. cbn [item_y]. destruct (is_nan y) eqn:Hy; [|reflexivity].
  exfalso. revert E. rewrite threshold_falsy; [discriminate|].
  apply div_falsy_l, mul_falsy_r, overlap_falsy, ltb_nan.
  left. apply Math_max_nan. now right.
Qed.

(** X23.  The items taken by a selection are read from top to bottom: they
    are the items that pass the overlap test, in ascending order of their
    vertical position, and items at the same height keep the order in which
    the page lists them. *)
Theorem selectedItems_top_to_bottom (selection : Selection)
    (viewport : Viewport) (items : list TextItem) :
  let found :=
    flat_map (fun item => match selectItem selection viewport item with
                          | Some si => [si]
                          | None => []
                          end) items in
  let sorted := selectedItems selection viewport items in
  Permutation found sorted /\
  StronglySorted (fun a b => (item_y a <=? item_y b)%float = true) sorted /\
  forall y, List.filter (fun a => (item_y a =? y)%float) sorted
            = List.filter (fun a => (item_y a =? y)%float) found.
Proof.
  intros found sorted. subst sorted. unfold selectedItems. fold found.
  split; [apply sort_Permutation|].
  apply (sort_ascending item_y). apply List.Forall_forall.
  intros si Hsi. subst found. apply in_flat_map in Hsi as (item & _ & Hsi).
  destruct (selectItem selection viewport item) as [si'|] eqn:E; [|contradiction].
  destruct Hsi as [<-|[]]. now apply selectItem_y_not_nan in E.
Qed.

(** X24.  An item that lies wholly to the left or to the right of the
    selection rectangle, or wholly above or below it, is not selected,
    however the two compare in the other direction; the text selected is
    the same as if the page did not hold the item. *)
Theorem selectItem_outside (selection : Selection) (viewport : Viewport)
    (item : TextItem) :
  let x := nth_num 4 (transform item) in
  let y := (viewport_height viewport - nth_num 5 (transform item))%float in
  let height := or_else (height item) 12 in
  (sel_x selection + sel_width selection <=? x)%float = true \/
  (x + width item <=? sel_x selection)%float = true \/
  (sel_y selection + sel_height selection <=? y)%float = true \/
  (y + height <=? sel_y selection)%float = true ->
  selectItem selection viewport item = None /\
  forall before after,
    extractText selection viewport (before ++ item :: after)
    = extractText selection viewport (before ++ after).
Proof.
  intros x y h H.
  assert (Hnone : selectItem selection viewport item = None).
  { unfold selectItem. cbv zeta. fold x y h.
    rewrite threshold_falsy; [reflexivity|]. apply div_falsy_l.
    destruct H as [H|[H|[H|H]]].
    - apply mul_falsy_l, overlap_falsy, apart. right. now left.
    - apply mul_falsy_l, overlap_falsy, apart. right. right. now left.
    - apply mul_falsy_r, overlap_falsy, apart. right. now left.
    - apply mul_falsy_r, overlap_falsy, apart. right. right. now left. }
  split; [exact Hnone|]. intros before after.
  unfold extractText, selectedItems.
  rewrite !flat_map_app. cbn [flat_map]. now rewrite Hnone.
Qed.

Lemma selectItem_outside_witness :
  selectItem {| sel_x := 0; sel_y := 0; sel_width := 50; sel_height := 500 |}
    Examples.viewport (Examples.run "aside" 60 700 40 12) = None.
Proof.
  apply (selectItem_outside
           {| sel_x := 0; sel_y := 0; sel_width := 50; sel_height := 500 |}
           Examples.viewport (Examples.run "aside" 60 700 40 12)).
  left. reflexivity.
Defined.






End ViewerSelection.

Section StandaloneSelection.
Import Spec JS PDFJS Standalone.

Lemma selectItem_falsy_x sel viewport item :
  truthy (Math_max 0
            (Math_min (left sel + box_width sel)
                      (box_x (itemBox viewport item)
                       + item_width (itemBox viewport item))
             - Math_max (left sel) (box_x (itemBox viewport item)))) = false ->
  selectItem sel viewport item = [].
Proof.
  intros H. unfold selectItem, getOverlap. cbv zeta.
  rewrite threshold_falsy; [reflexivity|].
  now apply div_falsy_l, mul_falsy_l.
Qed.

Lemma selectItem_falsy_y sel viewport item :
  truthy (Math_max 0
            (Math_min (top sel + box_height sel)
                      (box_y (itemBox viewport item)
                       + item_height (itemBox viewport item))
             - Math_max (top sel) (box_y (itemBox viewport item)))) = false ->
  selectItem sel viewport item = [].
Proof.
  intros H. unfold selectItem, getOverlap. cbv zeta.
  rewrite threshold_falsy; [reflexivity|].
  now apply div_falsy_l, mul_falsy_r.
Qed.

(** X25.  In the standalone viewer too, an item whose box lies wholly to
    the left or to the right of the selection box, or wholly above or below
    it, is not selected; the text extracted is the same as if the page did
    not hold the item. *)
Theorem standalone_selectItem_outside (sel : SelectionBox)
    (viewport : Viewport) (item : TextItem) :
  let b := itemBox viewport item in
  (left sel + box_width sel <=? box_x b)%float = true \/
  (box_x b + item_width b <=? left sel)%float = true \/
  (top sel + box_height sel <=? box_y b)%float = true \/
  (box_y b + item_height b <=? top sel)%float = true ->
  selectItem sel viewport item = [] /\
  forall before after,
    selectedItems sel viewport (before ++ item :: after)
    = selectedItems sel viewport (before ++ after).
Proof.
  intros b H.
  assert (Hnone : selectItem sel viewport item = []).
  { destruct H as [H|[H|[H|H]]].
    - apply selectItem_falsy_x, overlap_falsy, apart. right. now left.
    - apply selectItem_falsy_x, overlap_falsy, apart. right. right. now left.
    - apply selectItem_falsy_y, overlap_falsy, apart. right. now left.
    - apply selectItem_falsy_y, overlap_falsy, apart. right. right. now left. }
  split; [exact Hnone|]. intros before after. unfold selectedItems.
  rewrite !flat_map_app. cbn [flat_map]. now rewrite Hnone.
Qed.

Lemma standalone_selectItem_outside_witness :
  selectItem {| left := 0; top := 0; box_width := 50; box_height := 500 |}
    Examples.standalone_viewport (Examples.run "aside" 60 700 40 12) = [].
Proof.
  apply (standalone_selectItem_outside
           {| left := 0; top := 0; box_width := 50; box_height := 500 |}
           Examples.standalone_viewport (Examples.run "aside" 60 700 40 12)).
  left. reflexivity.
Defined.

(** X26.  In the standalone viewer a click without a drag empties the
    extracted text when the page has been rendered: pressing the button sets
    a selection box of no width and no height, which covers no item, and
    releasing it extracts the text under that box. *)
Theorem click_clears_extracted_text
    (textCache : gmap nat (list TextItem * Viewport)) (currentPage : nat)
    (rect : ClientRect) (e : MouseEvent) (st : State)
    (items : list TextItem) (viewport : Viewport) :
  textCache !! currentPage = Some (items, viewport) ->
  let st' := onMouseUp textCache currentPage (onMouseDown rect e st) in
  extractedText st' = "" /\ startPos st' = None /\
  selectionBox st'
  = Some {| left := (clientX e - rect_left rect)%float;
            top := (clientY e - rect_top rect)%float;
            box_width := 0; box_height := 0 |}.
Proof.
  intros Hcache st'. subst st'.
  unfold onMouseUp, onMouseDown, extractFromSelection.
  cbn [startPos selectionBox extractedText px py]. rewrite Hcache.
  cbn [startPos selectionBox extractedText]. split; [|split; reflexivity].
  set (x := (clientX e - rect_left rect)%float).
  set (y := (clientY e - rect_top rect)%float).
  assert (Hnone : forall item,
            selectItem {| left := x; top := y; box_width := 0; box_height := 0 |}
              viewport item = []).
  { intros item. apply selectItem_falsy_x, overlap_falsy. cbn [left box_width].
    destruct (is_nan x) eqn:Hx.
    - apply ltb_nan. left. apply Math_max_nan. now left.
    - apply apart. left. now apply add_zero_leb. }
  unfold selectedItems.
  assert (Hall : flat_map
                   (selectItem {| left := x; top := y; box_width := 0;
                                  box_height := 0 |} viewport) items = []).
  { clear Hcache. induction items as [|item rest IH]; [reflexivity|].
    cbn [flat_map]. now rewrite Hnone. }
  now rewrite Hall.
Qed.

Lemma click_clears_extracted_text_witness :
  extractedText
    (onMouseUp {[ 1 := (Examples.title_page, Examples.standalone_viewport) ]} 1
       (onMouseDown Examples.canvas Examples.move
          {| startPos := None; selectionBox := None;
             extractedText := "Quarterly report" |})) = "".
Proof.
  destruct (click_clears_extracted_text
              {[ 1 := (Examples.title_page, Examples.standalone_viewport) ]} 1
              Examples.canvas Examples.move
              {| startPos := None; selectionBox := None;
                 extractedText := "Quarterly report" |}
              Examples.title_page Examples.standalone_viewport) as [H _].
  - apply lookup_singleton_eq.
  - exact H.
Defined.

End StandaloneSelection.

(** ** The ranking of the supplements *)

Section RankingFacts.
Import Spec JS JSObject Ranker.

Lemma StronglySorted_app {A : Type} (R : A -> A -> Prop) (l1 l2 : list A) :
  StronglySorted R (l1 ++ l2) ->
  forall a b, In a l1 -> In b l2 -> R a b.
Proof.
  induction l1 as [|x l1 IH]; intros Hs a b Ha Hb; [contradiction|].
  cbn [app] in Hs. inversion Hs as [|? ? Hrest Hall]; subst.
  destruct Ha as [->|Ha].
  - rewrite List.Forall_forall in Hall. apply Hall, in_or_app. now right.
  - now apply IH.
Qed.

Lemma StronglySorted_filter {A : Type} (R : A -> A -> Prop) (p : A -> bool)
    (l : list A) :
  StronglySorted R l -> StronglySorted R (List.filter p l).
Proof.
  induction 1 as [|x l Hs IH Hall]; cbn [List.filter]; [constructor|].
  destruct (p x); [|assumption]. constructor; [assumption|].
  rewrite List.Forall_forall in *. intros y Hy.
  apply filter_In in Hy as [Hy _]. now apply Hall.
Qed.

Lemma NoDup_keys_value {V : Type} (l : list (string * V)) k v v' :
  List.NoDup (map fst l) -> In (k, v) l -> In (k, v') l -> v = v'.
Proof.
  induction l as [|[k0 v0] l IH]; intros Hnd H1 H2; [contradiction|].
  cbn [map fst] in Hnd. inversion Hnd as [|? ? Hnotin Hrest]; subst.
  destruct H1 as [H1|H1], H2 as [H2|H2].
  - congruence.
  - injection H1 as -> ->. exfalso. apply Hnotin.
    now apply (in_map fst _ (k, v')).
  - injection H2 as -> ->. exfalso. apply Hnotin.
    now apply (in_map fst _ (k, v)).
  - now apply IH.
Qed.

(** X27.  When no combined score is NaN, the ranked array is in descending
    order of score, and the supplements are the best-scoring texts: a text
    that is taken as a supplement scores at least as high as any indexed
    text that is neither taken nor passed over for being the selected
    excerpt. *)
Theorem supplements_are_top_scoring (emb : Embedder)
    (vectorDB : list VectorEntry) (question extractedText : string) :
  let primaryExcerpt := JSString.trim extractedText in
  let ranked := combinedArray emb vectorDB question primaryExcerpt in
  let chosen := supplements (Some emb) vectorDB question extractedText in
  Forall (fun entry => is_nan (snd entry) = false) ranked ->
  StronglySorted (fun a b => (snd b <=? snd a)%float = true) ranked /\
  forall t s u s',
    In (t, s) ranked -> In (u, s') ranked ->
    In t chosen -> ~ In u chosen ->
    (primaryExcerpt <> "" -> u <> primaryExcerpt) ->
    (s' <=? s)%float = true.
Proof.
  intros pe ranked chosen Hnan.
  assert (Hsorted : StronglySorted (fun a b => (snd b <=? snd a)%float = true)
                      ranked).
  { subst ranked. unfold combinedArray in *.
    apply (sort_descending snd). rewrite List.Forall_forall in *.
    intros entry Hentry. apply Hnan. now apply sort_In. }
  split; [exact Hsorted|].
  intros t s u s' Ht Hu Hchosen Hnot Hexcerpt.
  set (keep := fun entry : string * float =>
                 negb (JSString.truthy pe && String.eqb (fst entry) pe)).
  assert (Hc : chosen = firstn 3 (map fst (List.filter keep ranked))).
  { subst chosen. unfold supplements. fold pe.
    destruct vectorDB as [|e db] eqn:Edb.
    - exfalso. subst ranked. cbn in Ht. contradiction.
    - cbn [length Nat.ltb Nat.leb]. rewrite pickSupplements_firstn.
      cbn [length Nat.leb app]. reflexivity. }
  rewrite Hc in Hchosen, Hnot. rewrite List.firstn_map in Hchosen, Hnot.
  assert (Hnd : List.NoDup (map fst ranked))
    by apply combinedArray_keys_NoDup.
  apply in_map_iff in Hchosen as ([t0 s0] & Et & Hin). cbn [fst] in Et. subst t0.
  assert (s0 = s).
  { apply (NoDup_keys_value ranked t); [assumption| |assumption].
    apply In_firstn in Hin. now apply filter_In in Hin. }
  subst s0.
  assert (Hkeep : In (u, s') (List.filter keep ranked)).
  { apply filter_In. split; [assumption|]. unfold keep. cbn [fst].
    destruct (JSString.truthy pe) eqn:Ep; [|reflexivity]. cbn [andb].
    apply negb_true_iff, String.eqb_neq, Hexcerpt.
    now apply truthy_string_iff. }
  rewrite <- (firstn_skipn 3 (List.filter keep ranked)) in Hkeep.
  apply in_app_or in Hkeep as [Hkeep|Hkeep].
  { exfalso. apply Hnot. now apply (in_map fst _ (u, s')). }
  apply (StronglySorted_filter _ keep) in Hsorted.
  rewrite <- (firstn_skipn 3 (List.filter keep ranked)) in Hsorted.
  exact (StronglySorted_app _ _ _ Hsorted (t, s) (u, s') Hin Hkeep).
Qed.

Lemma supplements_are_top_scoring_witness :
  StronglySorted (fun a b => (snd b <=? snd a)%float = true)
    (combinedArray Examples.embedder Examples.vectorDB "alpha"
       (JSString.trim "")).
Proof.
  apply (supplements_are_top_scoring Examples.embedder Examples.vectorDB
           "alpha" "").
  vm_compute. repeat constructor.
Defined.

End RankingFacts.

(** ** The final score of a chunk text *)

Section FinalScore.
Import Spec JS JSObject Ranker.












(** Every index that [loadPdf] builds gives chunks of the same text the
    same embedding. *)
Lemma vectorEntries_same_text embedder pages e e' :
  In e (StandaloneApp.vectorEntries embedder pages) ->
  In e' (StandaloneApp.vectorEntries embedder pages) ->
  text e' = text e -> embedding e' = embedding e.
Proof.
  unfold StandaloneApp.vectorEntries. intros He He'.
  apply in_map_iff in He as (c & <- & _).
  apply in_map_iff in He' as (c' & <- & _).
  cbn. now intros ->.
Qed.




End FinalScore.

(** ** The size of the prompt *)

Section PromptSize.
Import JSString Chunker Ranker StandaloneApp.

Lemma chunkText_chunks_bounded (text : string) (size L : nat) :
  Forall (fun w => String.length w <= L) (split " " text) ->
  forall c, In c (chunkText text size) -> String.length c <= size + L.
Proof.
  intros Hwords. apply List.Forall_forall. unfold chunkText.
  destruct (chunk_loop_bounds size L (split " " text) ([], []) Hwords)
    as [Hclosed Hopen]; [constructor | now left |].
  set (st := fold_left (chunk_step size) (split " " text) ([], [])) in *.
  assert (Hc : Forall (fun c => String.length c <= size + L) (fst st))
    by (eapply List.Forall_impl; [|exact Hclosed]; simpl; tauto).
  destruct (snd st) as [|w chunk] eqn:Eo; [assumption|].
  change (0 <? length (w :: chunk)) with true. cbv iota.
  apply Forall_app. split; [assumption|]. constructor; [|constructor].
  destruct Hopen as [Hopen|Hopen]; [discriminate | lia].
Qed.

Lemma join_length_bound (sep : string) (parts : list string) (M : nat) :
  (forall p, In p parts -> String.length p <= M) ->
  String.length (join sep parts) <= length parts * (M + String.length sep).
Proof.
  induction parts as [|p rest IH]; intros H; [simpl; lia|].
  assert (Hp : String.length p <= M) by (apply H; now left).
  assert (Hrest : String.length (join sep rest)
                  <= length rest * (M + String.length sep))
    by (apply IH; intros q Hq; apply H; now right).
  destruct rest as [|q rest]; [simpl; lia|].
  change (join sep (p :: q :: rest)) with (p +:+ sep +:+ join sep (q :: rest)).
  rewrite !length_append. cbn [length] in *. lia.
Qed.

(** X29.  With the index that [loadPdf] builds, the context added to the
    prompt is at most three chunks long: when no word of the document is
    longer than [L] characters, the supplementary text has at most
    [3 * (400 + L + 2)] characters, and the prompt is longer than the
    selection, the question and the supplementary text together by at most
    364 characters. *)
Theorem prompt_size_bounded (emb : Embedder)
    (pages : list (list PDFJS.TextItem)) (question extractedText : string)
    (L : nat) :
  Forall (fun w => String.length w <= L) (split " " (joined pages)) ->
  let vectorDB := loadPdf (Some emb) pages [] in
  let supplementaryText :=
    Ranker.supplementaryText (Some emb) vectorDB question extractedText in
  String.length supplementaryText <= 3 * (400 + L + 2) /\
  String.length (prompt (trim extractedText) supplementaryText question)
  <= String.length (trim extractedText) + String.length question
     + 3 * (400 + L + 2) + 364.
Proof.
  intros Hwords vectorDB supp.
  assert (Hsupp : String.length supp <= 3 * (400 + L + 2)).
  { subst supp. unfold Ranker.supplementaryText.
    set (chosen := supplements (Some emb) vectorDB question extractedText).
    assert (Hlen : length chosen <= 3).
    { subst chosen. unfold supplements.
      destruct (0 <? length vectorDB); [|simpl; lia].
      pose proof (pickSupplements_length (trim extractedText)
                    (combinedArray emb vectorDB question (trim extractedText)) []).
      simpl in *. lia. }
    assert (Hin : forall t, In t chosen -> String.length t <= 400 + L).
    { intros t Ht. apply (chunkText_chunks_bounded (joined pages) 400 L Hwords).
      subst chosen. unfold supplements in Ht.
      destruct (0 <? length vectorDB); [|contradiction].
      apply pickSupplements_In in Ht as [[]|[Ht _]].
      apply in_map_iff in Ht as ([k s] & <- & Hks). cbn [fst].
      apply combinedArray_In, get_In in Hks.
      apply (in_map fst) in Hks. apply combinedScores_keys in Hks.
      subst vectorDB. unfold loadPdf, vectorEntries in Hks.
      rewrite map_map in Hks. cbn [text] in Hks. now rewrite map_id in Hks. }
    pose proof (join_length_bound blank_line chosen (400 + L) Hin) as Hj.
    change (String.length blank_line) with 2 in Hj. nia. }
  split; [exact Hsupp|]. unfold prompt.
  destruct (truthy (trim extractedText)), (truthy supp);
    rewrite ?length_append;
    change (String.length dq) with 1; change (String.length LF) with 1;
    change (String.length blank_line) with 2; simpl String.length; lia.
Qed.

Lemma prompt_size_bounded_witness :
  String.length
    (Ranker.supplementaryText (Some Examples.embedder)
       (loadPdf (Some Examples.embedder)
          [Examples.title_page; Examples.short_page] [])
       "What is the total?" "")
  <= 3 * (400 + 5 + 2).
Proof.
  apply (prompt_size_bounded Examples.embedder
           [Examples.title_page; Examples.short_page] "What is the total?" "" 5).
  vm_compute. repeat constructor.
Defined.

End PromptSize.
